(** * The NCF data pipeline: [official/recommendation/data_pipeline.py]

    A shallow embedding of [BaseDataConstructor] and
    [MaterializedDataConstructor].  Python integers are [Z]; one-dimensional
    numpy arrays are [list Z], two-dimensional ones [list (list Z)].  Arrays
    owned by the object, and arrays the code writes into in place, live in a
    store of buffers addressed by location, so that views and copies can be
    told apart; arrays that are only read after their creation are carried
    by value.  Exceptions are the [Raise] results of an error monad; a
    method that raises leaves the world as it is at that point. *)

From Stdlib Require Import ZArith Lia.
From stdpp Require Import base tactics option numbers list.

Local Open Scope Z_scope.

(** ** Exceptions and fallible results *)

Inductive exn : Type :=
  | AssertionError
  | ValueError
  | IndexError
  | TypeError
  | ZeroDivisionError
  | NotImplementedError.

Inductive res (A : Type) : Type :=
  | Ok (a : A)
  | Raise (e : exn).
Arguments Ok {A} a.
Arguments Raise {A} e.

#[global] Instance res_ret : MRet res := λ A a, Ok a.
#[global] Instance res_bind : MBind res := λ A B f m,
  match m with Ok a => f a | Raise e => Raise e end.

(** [mapM] over a list, left to right, stopping at the first exception. *)
Fixpoint res_mapM {A B : Type} (f : A → res B) (l : list A) : res (list B) :=
  match l with
  | [] => Ok []
  | x :: l' => y ← f x; ys ← res_mapM f l'; Ok (y :: ys)
  end.

(** ** Python and numpy indexing *)

(** [a[i]] for an integer [i] on a sequence of length [n]: negative indices
    count from the end, anything else out of range raises. *)
Definition norm_index (n : nat) (i : Z) : res nat :=
  if bool_decide (0 ≤ i < Z.of_nat n) then Ok (Z.to_nat i)
  else if bool_decide (- Z.of_nat n ≤ i < 0) then Ok (Z.to_nat (Z.of_nat n + i))
  else Raise IndexError.

(** A slice bound [b] of [a[:b]] or [a[b:]], clipped into [0..n]. *)
Definition slice_bound (n : nat) (b : Z) : nat :=
  if bool_decide (b < 0) then Z.to_nat (Z.max 0 (Z.of_nat n + b))
  else Nat.min n (Z.to_nat b).

(** [a[:b]], [a[b:]] and [a[lo:hi]]. *)
Definition slice_to {A} (b : Z) (a : list A) : list A :=
  take (slice_bound (length a) b) a.
Definition slice_from {A} (b : Z) (a : list A) : list A :=
  drop (slice_bound (length a) b) a.
Definition slice {A} (lo hi : Z) (a : list A) : list A :=
  drop (slice_bound (length a) lo) (take (slice_bound (length a) hi) a).

(** [a[idx]] for an integer array [idx] (fancy indexing): a new array. *)
Definition getitem (a : list Z) (i : Z) : res Z :=
  k ← norm_index (length a) i;
  match a !! k with Some x => Ok x | None => Raise IndexError end.
Definition take_idx (a : list Z) (idx : list Z) : res (list Z) :=
  res_mapM (getitem a) idx.

(** [a[mask]] for a boolean array [mask] of the shape of [a]. *)
Fixpoint mask_select (a : list Z) (mask : list bool) : list Z :=
  match a, mask with
  | x :: a', b :: mask' =>
      if b then x :: mask_select a' mask' else mask_select a' mask'
  | _, _ => []
  end.

(** The right-hand side of an assignment into [k] slots: a value of [k]
    elements, or a single element that is broadcast. *)
Definition broadcast_to (k : nat) (vals : list Z) : res (list Z) :=
  if bool_decide (length vals = k) then Ok vals
  else match vals with
       | [v] => Ok (replicate k v)
       | _ => Raise ValueError
       end.

(** [a[mask] = vals], as the array that results. *)
Fixpoint mask_fill (a : list Z) (mask : list bool) (vals : list Z) : list Z :=
  match a, mask with
  | x :: a', b :: mask' =>
      if b then
        match vals with
        | v :: vals' => v :: mask_fill a' mask' vals'
        | [] => x :: mask_fill a' mask' []
        end
      else x :: mask_fill a' mask' vals
  | _, _ => a
  end.
Definition mask_assign (a : list Z) (mask : list bool) (vals : list Z)
  : res (list Z) :=
  vs ← broadcast_to (length (filter (λ b, b = true) mask)) vals;
  Ok (mask_fill a mask vs).

(** [np.mod] on integers: the sign follows the divisor, and a zero divisor
    gives zero (with a warning) instead of raising. *)
Definition np_mod (a b : Z) : Z := if bool_decide (b = 0) then 0 else a `mod` b.

(** Python's [a // b] and [a % b]. *)
Definition floordiv (a b : Z) : res Z :=
  if bool_decide (b = 0) then Raise ZeroDivisionError else Ok (a `div` b).
Definition pymod (a b : Z) : res Z :=
  if bool_decide (b = 0) then Raise ZeroDivisionError else Ok (a `mod` b).

(** ** [BaseDataConstructor._count_batches] *)

Definition _count_batches (example_count batch_size batches_per_step : Z)
  : res Z :=
  t ← floordiv (example_count + batch_size - 1) batch_size;
  let x := t in
  q ← floordiv (x + batches_per_step - 1) batches_per_step;
  Ok (q * batches_per_step).

(** The ceiling of [a / b], the way the specification writes it. *)
Definition ceil_div (a b : Z) : Z :=
  a `div` b + (if bool_decide (a `mod` b = 0) then 0 else 1).

(** ** The store of array buffers, the object and the world around it *)

Definition loc := nat.

Inductive ndarray : Type :=
  | Vec (v : list Z)
  | Mat (m : list (list Z)).

(** [stat_utils.AsyncPermuter] is not part of this file's source: it is taken
    as an unbounded supply of arrays, the [k]-th call of [get] returning
    [perm_stream k]. *)
Record AsyncPermuter : Type := mkPermuter {
  perm_stream : nat → list Z;
  perm_taken : nat;
  perm_started : bool;
  perm_stopped : bool;
}.

(** The attributes that [__init__] assigns once and for all. *)
Record Conf : Type := mkConf {
  _maximum_number_epochs : Z;
  _num_users : Z;
  _num_items : Z;
  _train_pos_users : loc;
  _train_pos_items : loc;
  _train_pos_count : Z;
  _train_batch_size : Z;
  _num_train_negatives : Z;
  _elements_in_epoch : Z;
  _batches_per_train_step : Z;
  _train_batches_per_epoch : Z;
  _eval_pos_users : loc;
  _eval_pos_items : loc;
  _eval_batch_size : Z;
  _eval_users_per_batch : Z;
  _eval_elements_in_epoch : Z;
  _eval_batches_per_epoch : Z;
}.

(** A training batch on the queue: [users] and [labels] are never written
    after their creation, [items] is the buffer that was filled in place. *)
Definition train_batch : Type := list Z * loc * list Z.
Definition eval_batch : Type := list Z * list Z * list Z.

Record Self : Type := mkSelf {
  conf : Conf;
  _current_epoch_order : option (list Z);
  _shuffle_producer : AsyncPermuter;
  _training_queue : list train_batch;
  _eval_results : option (list eval_batch);
  _stop_loop : bool;
  _negative_table : option loc;
  _per_user_neg_count : option loc;
}.

(** [stat_utils.slightly_biased_randint] is not part of this file's source:
    [rand_oracle n i c] is the index it draws, in its [n]-th call, for the
    count [c] at position [i] of its argument. *)
Record World : Type := mkWorld {
  store : list ndarray;
  self : Self;
  rand_oracle : nat → nat → Z → Z;
  rand_calls : nat;
}.

Definition set_store (h : list ndarray) (w : World) : World :=
  mkWorld h (self w) (rand_oracle w) (rand_calls w).
Definition set_self (s : Self) (w : World) : World :=
  mkWorld (store w) s (rand_oracle w) (rand_calls w).
Definition set_rand_calls (n : nat) (w : World) : World :=
  mkWorld (store w) (self w) (rand_oracle w) n.

Definition with_current_epoch_order (o : option (list Z)) (s : Self) : Self :=
  mkSelf (conf s) o (_shuffle_producer s) (_training_queue s) (_eval_results s)
         (_stop_loop s) (_negative_table s) (_per_user_neg_count s).
Definition with_shuffle_producer (p : AsyncPermuter) (s : Self) : Self :=
  mkSelf (conf s) (_current_epoch_order s) p (_training_queue s)
         (_eval_results s) (_stop_loop s) (_negative_table s)
         (_per_user_neg_count s).
Definition with_training_queue (q : list train_batch) (s : Self) : Self :=
  mkSelf (conf s) (_current_epoch_order s) (_shuffle_producer s) q
         (_eval_results s) (_stop_loop s) (_negative_table s)
         (_per_user_neg_count s).
Definition with_eval_results (r : option (list eval_batch)) (s : Self) : Self :=
  mkSelf (conf s) (_current_epoch_order s) (_shuffle_producer s)
         (_training_queue s) r (_stop_loop s) (_negative_table s)
         (_per_user_neg_count s).
Definition with_stop_loop (b : bool) (s : Self) : Self :=
  mkSelf (conf s) (_current_epoch_order s) (_shuffle_producer s)
         (_training_queue s) (_eval_results s) b (_negative_table s)
         (_per_user_neg_count s).
Definition with_negative_table (t : option loc) (s : Self) : Self :=
  mkSelf (conf s) (_current_epoch_order s) (_shuffle_producer s)
         (_training_queue s) (_eval_results s) (_stop_loop s) t
         (_per_user_neg_count s).
Definition with_per_user_neg_count (c : option loc) (s : Self) : Self :=
  mkSelf (conf s) (_current_epoch_order s) (_shuffle_producer s)
         (_training_queue s) (_eval_results s) (_stop_loop s)
         (_negative_table s) c.

(** ** The monad of methods: state over the world, with exceptions *)

Definition M (A : Type) : Type := World → res A * World.

#[global] Instance M_ret : MRet M := λ A a w, (Ok a, w).
#[global] Instance M_bind : MBind M := λ A B f m w,
  match m w with
  | (Ok a, w') => f a w'
  | (Raise e, w') => (Raise e, w')
  end.

Definition raise {A} (e : exn) : M A := λ w, (Raise e, w).
Definition lift {A} (r : res A) : M A := λ w, (r, w).
Definition get_self : M Self := λ w, (Ok (self w), w).
Definition modify_self (f : Self → Self) : M unit := λ w,
  (Ok tt, set_self (f (self w)) w).

Fixpoint mapM {A B : Type} (f : A → M B) (l : list A) : M (list B) :=
  match l with
  | [] => mret []
  | x :: l' => y ← f x; ys ← mapM f l'; mret (y :: ys)
  end.

(** A new buffer: numpy allocates, the store grows at its end. *)
Definition new_array (a : ndarray) : M loc := λ w,
  (Ok (length (store w)), set_store (store w ++ [a]) w).
Definition load_vec (l : loc) : M (list Z) := λ w,
  match store w !! l with
  | Some (Vec v) => (Ok v, w)
  | _ => (Raise TypeError, w)
  end.
Definition load_mat (l : loc) : M (list (list Z)) := λ w,
  match store w !! l with
  | Some (Mat m) => (Ok m, w)
  | _ => (Raise TypeError, w)
  end.
(** An in-place write into the buffer at [l]. *)
Definition store_array (l : loc) (a : ndarray) : M unit := λ w,
  (Ok tt, set_store (<[l := a]> (store w)) w).
(** An attribute that is still [None] cannot be indexed. *)
Definition attr {A} (o : option A) : M A :=
  match o with Some a => mret a | None => raise TypeError end.

(** [range(n)]. *)
Definition range (n : Z) : list Z := Z.of_nat <$> seq 0 (Z.to_nat n).

(** ** [BaseDataConstructor.__init__] *)

(** What the constructor sets up besides plain attributes, in order. *)
Inductive effect : Type :=
  | PermuterCreated (perm_size num_to_produce : Z)
  | QueueCreated
  | LockCreated
  | ThreadInitialised.

Section Pipeline.

(** [rconst.NUM_EVAL_NEGATIVES] is declared outside this file. *)
Variable NUM_EVAL_NEGATIVES : Z.

(** The arrays are passed by reference: [h] is the caller's store and the
    four array arguments are locations in it.  The result is the list of
    set-up effects performed so far together with the object or the
    exception. *)
Definition __init__
    (h : list ndarray) (perms : nat → list Z) (rand : nat → nat → Z → Z)
    (maximum_number_epochs num_users num_items : Z)
    (train_pos_users train_pos_items : loc)
    (train_batch_size batches_per_train_step num_train_negatives : Z)
    (eval_pos_users eval_pos_items : loc)
    (eval_batch_size batches_per_eval_step : Z)
  : list effect * res World :=
  match h !! train_pos_users, h !! train_pos_items with
  | Some (Vec tpu), Some (Vec tpi) =>
    if bool_decide (length tpu = length tpi) then
      let train_pos_count := Z.of_nat (length tpu) in
      let elements_in_epoch := (1 + num_train_negatives) * train_pos_count in
      match _count_batches elements_in_epoch train_batch_size
                           batches_per_train_step with
      | Raise e => ([], Raise e)
      | Ok train_batches_per_epoch =>
        match pymod eval_batch_size (1 + NUM_EVAL_NEGATIVES) with
        | Raise e => ([], Raise e)
        | Ok r =>
          if bool_decide (r ≠ 0) then ([], Raise ValueError)
          else
            let eval_users_per_batch :=
              eval_batch_size `div` (1 + NUM_EVAL_NEGATIVES) in
            let eval_elements_in_epoch :=
              num_users * (1 + NUM_EVAL_NEGATIVES) in
            match _count_batches eval_elements_in_epoch eval_batch_size
                                 batches_per_eval_step with
            | Raise e => ([], Raise e)
            | Ok eval_batches_per_epoch =>
              let c := mkConf maximum_number_epochs num_users num_items
                         train_pos_users train_pos_items train_pos_count
                         train_batch_size num_train_negatives
                         elements_in_epoch batches_per_train_step
                         train_batches_per_epoch
                         eval_pos_users eval_pos_items eval_batch_size
                         eval_users_per_batch eval_elements_in_epoch
                         eval_batches_per_epoch in
              let s := mkSelf c None (mkPermuter perms 0 false false) []
                         None false None None in
              ([PermuterCreated elements_in_epoch (maximum_number_epochs + 1);
                QueueCreated; LockCreated; ThreadInitialised],
               Ok (mkWorld h s rand 0%nat))
            end
        end
      end
    else ([], Raise AssertionError)
  | _, _ => ([], Raise TypeError)
  end.

(** ** The negative sampler: the two hooks a subclass provides *)

(** [lookup_negative_items] is called with keyword arguments; the variant
    of this file reads [negative_users] only, which is what the hook
    receives here. *)
Class NegativeSampler : Type := {
  construct_lookup_variables : M unit;
  lookup_negative_items : list Z → M (list Z);
}.

(** The base class leaves both hooks unimplemented. *)
Definition BaseDataConstructor : NegativeSampler := {|
  construct_lookup_variables := raise NotImplementedError;
  lookup_negative_items := λ _, raise NotImplementedError;
|}.

(** ** [BaseDataConstructor._get_order_chunk] *)

(** [self._shuffle_producer.get()]. *)
Definition shuffle_get : M (list Z) := λ w,
  let p := _shuffle_producer (self w) in
  (Ok (perm_stream p (perm_taken p)),
      set_self (with_shuffle_producer
                  (mkPermuter (perm_stream p) (S (perm_taken p))
                              (perm_started p) (perm_stopped p))
                  (self w)) w).

Definition set_current_epoch_order (o : list Z) : M unit :=
  modify_self (with_current_epoch_order (Some o)).

(** The lock only serialises callers; calls are modelled one after the
    other. *)
Definition _get_order_chunk : M (list Z) :=
  s ← get_self;
  order ← match _current_epoch_order s with
          | None => o ← shuffle_get; _ ← set_current_epoch_order o; mret o
          | Some o => mret o
          end;
  let B := _train_batch_size (conf s) in
  let batch_indices := slice_to B order in
  let order := slice_from B order in
  _ ← set_current_epoch_order order;
  order ← (if bool_decide (length order = 0%nat)
           then o ← shuffle_get; _ ← set_current_epoch_order o; mret o
           else mret order);
  let num_extra := B - Z.of_nat (length batch_indices) in
  if bool_decide (num_extra ≠ 0) then
    let batch_indices := batch_indices ++ slice_to num_extra order in
    _ ← set_current_epoch_order (slice_from num_extra order);
    mret batch_indices
  else mret batch_indices.

(** [n] calls in a row, with the chunks in the order of the calls. *)
Definition order_chunks (n : nat) : M (list (list Z)) :=
  mapM (λ _, _get_order_chunk) (seq 0 n).

(** ** [BaseDataConstructor._get_training_batch] *)

Definition queue_put (b : train_batch) : M unit :=
  modify_self (λ s, with_training_queue (_training_queue s ++ [b]) s).

Definition _get_training_batch `{NegativeSampler} (_ : Z) : M unit :=
  batch_indices ← _get_order_chunk;
  s ← get_self;
  let c := conf s in
  let batch_ind_mod := (λ k, np_mod k (_train_pos_count c)) <$> batch_indices in
  train_pos_users ← load_vec (_train_pos_users c);
  users ← lift (take_idx train_pos_users batch_ind_mod);
  let negative_indices :=
    (λ k, bool_decide (_train_pos_count c ≤ k)) <$> batch_indices in
  let negative_users := mask_select users negative_indices in
  negative_items ← lookup_negative_items negative_users;
  train_pos_items ← load_vec (_train_pos_items c);
  gathered ← lift (take_idx train_pos_items batch_ind_mod);
  items ← new_array (Vec gathered);
  current ← load_vec items;
  updated ← lift (mask_assign current negative_indices negative_items);
  _ ← store_array items (Vec updated);
  let labels := (λ b : bool, if b then 0 else 1) <$> negative_indices in
  queue_put (users, items, labels).

(** [pool.map] over the batch numbers; the worker threads are modelled as
    taking the batches one after the other. *)
Definition _construct_training_epoch `{NegativeSampler} : M unit :=
  s ← get_self;
  _ ← mapM _get_training_batch (range (_train_batches_per_epoch (conf s)));
  mret tt.

(** ** [BaseDataConstructor._get_eval_batch] *)

(** Modelled from the spec: [stat_utils.mask_duplicates(rows, axis=1)] is
    declared outside this file; it is "true at position (r,c) iff rows[r,c]
    equals another entry earlier in row r".  [seen] holds the entries to the
    left of the current one. *)
Fixpoint mask_duplicates_row (seen row : list Z) : list Z :=
  match row with
  | [] => []
  | x :: row' =>
      (if bool_decide (x ∈ seen) then 1 else 0)
        :: mask_duplicates_row (x :: seen) row'
  end.
Definition mask_duplicates (rows : list (list Z)) : list (list Z) :=
  mask_duplicates_row [] <$> rows.

(** [a.reshape(-1, n)]. *)
Fixpoint chunks (rows n : nat) (a : list Z) : list (list Z) :=
  match rows with
  | O => []
  | S rows' => take n a :: chunks rows' n (drop n a)
  end.
Definition reshape_rows (n : Z) (a : list Z) : res (list (list Z)) :=
  if bool_decide (n ≤ 0) then Raise ValueError
  else if bool_decide (Z.of_nat (length a) `mod` n ≠ 0) then Raise ValueError
  else Ok (chunks (length a `div` Z.to_nat n)%nat (Z.to_nat n) a).

(** [np.concatenate([column[:, np.newaxis], m], axis=1)]. *)
Definition prepend_column (column : list Z) (m : list (list Z))
  : res (list (list Z)) :=
  if bool_decide (length column = length m)
  then Ok (zip_with cons column m)
  else Raise ValueError.

(** One row of [a[:, (0, -1)] = a[:, (-1, 0)]]: the right-hand side is a
    copy, so the two writes exchange the first and the last entry. *)
Definition swap_ends (row : list Z) : list Z :=
  match row !! 0%nat, last row with
  | Some a, Some b => <[pred (length row) := a]> (<[0%nat := b]> row)
  | _, _ => row
  end.

Definition _get_eval_batch `{NegativeSampler} (i : Z) : M eval_batch :=
  s ← get_self;
  let c := conf s in
  let low_index := i * _eval_users_per_batch c in
  let high_index := (i + 1) * _eval_users_per_batch c in
  eval_pos_users ← load_vec (_eval_pos_users c);
  _ ← (if bool_decide (1 + NUM_EVAL_NEGATIVES < 0)
       then raise ValueError else mret tt);
  let users := replicate (Z.to_nat (1 + NUM_EVAL_NEGATIVES))
                 <$> slice low_index high_index eval_pos_users in
  eval_pos_items ← load_vec (_eval_pos_items c);
  let positives := slice low_index high_index eval_pos_items in
  sampled ← lookup_negative_items (concat (slice_to (-1) <$> users));
  negatives ← lift (reshape_rows NUM_EVAL_NEGATIVES sampled);
  joined ← lift (prepend_column positives negatives);
  items ← new_array (Mat joined);
  m ← load_mat items;
  duplicate_mask ← new_array (Mat (mask_duplicates m));
  m ← load_mat items;
  _ ← store_array items (Mat (swap_ends <$> m));
  d ← load_mat duplicate_mask;
  _ ← store_array duplicate_mask (Mat (swap_ends <$> d));
  items_v ← load_mat items;
  mask_v ← load_mat duplicate_mask;
  _ ← (if bool_decide (length <$> users = length <$> items_v
                       ∧ length <$> items_v = length <$> mask_v)
       then mret tt else raise AssertionError);
  if bool_decide (Z.of_nat (length users) < _eval_users_per_batch c) then
    let pad_rows := _eval_users_per_batch c - Z.of_nat (length users) in
    let padding := replicate (Z.to_nat pad_rows)
                     (replicate (Z.to_nat (1 + NUM_EVAL_NEGATIVES)) 0) in
    mret (concat (users ++ padding), concat (items_v ++ padding),
          concat (mask_v ++ padding))
  else mret (concat users, concat items_v, concat mask_v).

Definition _construct_eval_epoch `{NegativeSampler} : M unit :=
  s ← get_self;
  eval_results ← mapM _get_eval_batch
                   (range (_eval_batches_per_epoch (conf s)));
  modify_self (with_eval_results (Some eval_results)).

(** ** [MaterializedDataConstructor] *)

Definition uint16_max : Z := 65535.

(** [np.argwhere(a)[:, 0]]: the positions of the non-zero entries. *)
Fixpoint argwhere_from (k : Z) (a : list Z) : list Z :=
  match a with
  | [] => []
  | x :: a' =>
      if bool_decide (x ≠ 0) then k :: argwhere_from (k + 1) a'
      else argwhere_from (k + 1) a'
  end.
Definition argwhere (a : list Z) : list Z := argwhere_from 0 a.

(** [np.delete(arr, obj)] for an integer array [obj]: a copy of [arr]
    without the positions listed in [obj]. *)
Fixpoint drop_positions (k : nat) (ks : list nat) (arr : list Z) : list Z :=
  match arr with
  | [] => []
  | x :: arr' =>
      if bool_decide (k ∈ ks) then drop_positions (S k) ks arr'
      else x :: drop_positions (S k) ks arr'
  end.
Definition np_delete (arr obj : list Z) : res (list Z) :=
  ks ← res_mapM (norm_index (length arr)) obj;
  Ok (drop_positions 0 ks arr).

(** One round of the loop over the users. *)
Definition fill_user_row (index_bounds full_set : list Z) (i : Z) : M unit :=
  s ← get_self;
  let c := conf s in
  lo ← lift (getitem index_bounds i);
  hi ← lift (getitem index_bounds (i + 1));
  train_pos_items ← load_vec (_train_pos_items c);
  let positives := slice lo hi train_pos_items in
  negatives ← lift (np_delete full_set positives);
  counts_loc ← attr (_per_user_neg_count s);
  counts ← load_vec counts_loc;
  k ← lift (norm_index (length counts) i);
  _ ← store_array counts_loc
        (Vec (<[k := _num_items c - Z.of_nat (length positives)]> counts));
  counts ← load_vec counts_loc;
  count_i ← lift (getitem counts i);
  table_loc ← attr (_negative_table s);
  table ← load_mat table_loc;
  r ← lift (norm_index (length table) i);
  row ← lift (match table !! r with
              | Some row => Ok row | None => Raise IndexError end);
  let stop := slice_bound (length row) count_i in
  vals ← lift (broadcast_to stop negatives);
  store_array table_loc (Mat (<[r := vals ++ drop stop row]> table)).

Definition materialized_construct_lookup_variables : M unit :=
  s ← get_self;
  let c := conf s in
  train_pos_users ← load_vec (_train_pos_users c);
  let inner_bounds :=
    (λ k, k + 1) <$> argwhere (zip_with Z.sub (slice_from 1 train_pos_users)
                                              (slice_to (-1) train_pos_users)) in
  let index_bounds := [0] ++ inner_bounds ++ [_num_users c] in
  _ ← (if bool_decide (_num_users c < 0 ∨ _num_items c < 0)
       then raise ValueError else mret tt);
  table ← new_array (Mat (replicate (Z.to_nat (_num_users c))
                            (replicate (Z.to_nat (_num_items c))
                                       (0 + uint16_max))));
  _ ← modify_self (with_negative_table (Some table));
  _ ← (if bool_decide (_num_items c < uint16_max)
       then mret tt else raise AssertionError);
  let full_set := range (_num_items c) in
  counts ← new_array (Vec (replicate (Z.to_nat (_num_users c)) 0));
  _ ← modify_self (with_per_user_neg_count (Some counts));
  _ ← mapM (fill_user_row index_bounds full_set) (range (_num_users c));
  mret tt.

(** [stat_utils.slightly_biased_randint(counts)]: one draw per count. *)
Definition slightly_biased_randint (counts : list Z) : M (list Z) := λ w,
  (Ok (imap (rand_oracle w (rand_calls w)) counts),
   set_rand_calls (S (rand_calls w)) w).

(** [table[users, choice]]: one entry per pair of indices, a new array. *)
Definition getitem2 (table : list (list Z)) (p : Z * Z) : res Z :=
  r ← norm_index (length table) p.1;
  match table !! r with
  | Some row => getitem row p.2
  | None => Raise IndexError
  end.
Definition take_idx2 (table : list (list Z)) (rows cols : list Z)
  : res (list Z) :=
  if bool_decide (length rows = length cols)
  then res_mapM (getitem2 table) (zip rows cols)
  else Raise IndexError.

Definition materialized_lookup_negative_items (negative_users : list Z)
  : M (list Z) :=
  s ← get_self;
  counts_loc ← attr (_per_user_neg_count s);
  counts ← load_vec counts_loc;
  selected ← lift (take_idx counts negative_users);
  negative_item_choice ← slightly_biased_randint selected;
  s ← get_self;
  table_loc ← attr (_negative_table s);
  table ← load_mat table_loc;
  lift (take_idx2 table negative_users negative_item_choice).

Definition MaterializedDataConstructor : NegativeSampler := {|
  construct_lookup_variables := materialized_construct_lookup_variables;
  lookup_negative_items := materialized_lookup_negative_items;
|}.

(** ** [run] and [stop_loop] *)

(** [self._shuffle_producer.start()] and [.stop_loop()] are recorded on the
    producer; what [get] does once the producer was told to stop is not
    fixed by this file's source, and the supply is taken to go on. *)
Definition shuffle_start : M unit :=
  modify_self (λ s, let p := _shuffle_producer s in
    with_shuffle_producer
      (mkPermuter (perm_stream p) (perm_taken p) true (perm_stopped p)) s).
Definition shuffle_stop_loop : M unit :=
  modify_self (λ s, let p := _shuffle_producer s in
    with_shuffle_producer
      (mkPermuter (perm_stream p) (perm_taken p) (perm_started p) true) s).

Definition stop_loop : M unit :=
  _ ← shuffle_stop_loop;
  modify_self (with_stop_loop true).

(** The calls that make up the body of [run]. *)
Inductive call : Type :=
  | ShuffleStart
  | ConstructLookupVariables
  | ConstructTrainingEpoch
  | ConstructEvalEpoch.

Definition exec `{NegativeSampler} (c : call) : M unit :=
  match c with
  | ShuffleStart => shuffle_start
  | ConstructLookupVariables => construct_lookup_variables
  | ConstructTrainingEpoch => _construct_training_epoch
  | ConstructEvalEpoch => _construct_eval_epoch
  end.

(** The body of [run], unrolled: the loop bound is fixed when the loop is
    entered. *)
Definition run_calls (maximum_number_epochs : Z) : list call :=
  [ShuffleStart; ConstructLookupVariables; ConstructTrainingEpoch;
   ConstructEvalEpoch]
  ++ ((λ _, ConstructTrainingEpoch) <$> range (maximum_number_epochs - 1)).

Definition run `{NegativeSampler} : M unit :=
  s ← get_self;
  _ ← mapM exec (run_calls (_maximum_number_epochs (conf s)));
  mret tt.

(** ** [run] next to a caller of [stop_loop] *)

(** [run] executes on the object's own thread; [stop_loop] is called from
    another one.  The calls of [run] are blocking, so the other thread gets
    its turn between two of them. *)
Inductive actor : Type :=
  | Constructor
  | Caller.

Inductive event : Type :=
  | Began (c : call)
  | StopLoopCalled.

Record machine : Type := mkMachine {
  world : World;
  pending : list call;
  log : list event;
}.

(** One turn.  [run] goes on to its next call whatever the object's
    attributes are; a call that raises ends the thread. *)
Definition turn `{NegativeSampler} (a : actor) (m : machine) : machine :=
  match a with
  | Constructor =>
      match pending m with
      | [] => m
      | c :: rest =>
          match exec c (world m) with
          | (Ok _, w') => mkMachine w' rest (log m ++ [Began c])
          | (Raise _, w') => mkMachine w' [] (log m ++ [Began c])
          end
      end
  | Caller =>
      match stop_loop (world m) with
      | (_, w') => mkMachine w' (pending m) (log m ++ [StopLoopCalled])
      end
  end.

Definition started `{NegativeSampler} (w : World) : machine :=
  mkMachine w (run_calls (_maximum_number_epochs (conf (self w)))) [].

Definition schedule `{NegativeSampler} (turns : list actor) (m : machine)
  : machine :=
  foldl (λ m a, turn a m) m turns.

(** ** The batch-construction operations of the materialized variant *)

Inductive batch_op : Type :=
  | GetTrainingBatch (x : Z)
  | GetEvalBatch (i : Z)
  | LookupNegativeItems (negative_users : list Z).

Definition run_batch_op (op : batch_op) : M unit :=
  match op with
  | GetTrainingBatch x =>
      _get_training_batch (H := MaterializedDataConstructor) x
  | GetEvalBatch i =>
      _ ← _get_eval_batch (H := MaterializedDataConstructor) i; mret ()
  | LookupNegativeItems negative_users =>
      _ ← materialized_lookup_negative_items negative_users; mret ()
  end.

End Pipeline.

(** * Notions used in the statements *)

(** The world after a call of [_get_order_chunk]: only the cursor and the
    number of arrays taken from the producer can differ. *)
Definition chunk_world (w : World) (o : list Z) (k : nat) : World :=
  let p := _shuffle_producer (self w) in
  set_self (with_current_epoch_order (Some o)
              (with_shuffle_producer
                 (mkPermuter (perm_stream p) k (perm_started p) (perm_stopped p))
                 (self w))) w.

(** The first [m] arrays of the producer, one after the other. *)
Definition epochs_stream (perms : nat → list Z) (m : nat) : list Z :=
  concat (perms <$> seq 0 m).

(** The cursor stands at offset [off] of the [t]-th array of the producer,
    arrays having [E] entries: either nothing of array [t] was fetched yet,
    or what is left of it is the current order. *)
Definition cursor_at (w : World) (E t off : nat) : Prop :=
  let p := _shuffle_producer (self w) in
  (_current_epoch_order (self w) = None ∧ perm_taken p = t ∧ off = 0%nat)
  ∨ (_current_epoch_order (self w) = Some (drop off (perm_stream p t))
     ∧ perm_taken p = S t ∧ (off < E)%nat).

(** The value a method returns, without the world. *)
Definition returned {A} (r : res A * World) : res A := r.1.

(** Which entries of a batch are negatives, and the labels. *)
Definition negative_flags (tpc : Z) (chunk : list Z) : list bool :=
  (λ k, bool_decide (tpc ≤ k)) <$> chunk.
Definition labels_of (tpc : Z) (chunk : list Z) : list Z :=
  (λ b : bool, if b then 0 else 1) <$> negative_flags tpc chunk.

(** The world after [_get_training_batch]. *)
Definition training_world (w : World) (o : list Z) (k : nat)
    (users gathered updated : list Z) (labels : list Z) : World :=
  let wc := set_rand_calls (S (rand_calls w)) (chunk_world w o k) in
  let items := length (store w) in
  set_self (with_training_queue
              (_training_queue (self w) ++ [(users, items, labels)])
              (self wc))
    (set_store (<[items := Vec updated]> (store w ++ [Vec gathered])) wc).

(** The rows of zeros that complete a short eval batch. *)
Definition eval_padding (N upb : Z) (rows : nat) : list (list Z) :=
  if bool_decide (Z.of_nat rows < upb)
  then replicate (Z.to_nat (upb - Z.of_nat rows))
                 (replicate (Z.to_nat (1 + N)) 0)
  else [].

(** The world after [_get_eval_batch], from the world [w1] in which the
    negatives were looked up. *)
Definition eval_world (w1 : World) (joined : list (list Z)) : World :=
  let il := length (store w1) in
  set_store (<[S il := Mat (swap_ends <$> mask_duplicates joined)]>
               (<[il := Mat (swap_ends <$> joined)]>
                  ((store w1 ++ [Mat joined])
                     ++ [Mat (mask_duplicates joined)]))) w1.

(** No buffer that exists in [w] differs in [w'], and the object still
    names the same buffers. *)
Definition arrays_kept (w w' : World) : Prop :=
  conf (self w') = conf (self w)
  ∧ _negative_table (self w') = _negative_table (self w)
  ∧ _per_user_neg_count (self w') = _per_user_neg_count (self w)
  ∧ ∀ l a, store w !! l = Some a → store w' !! l = Some a.

(** The same for the buffers below [n], with a store that only grows. *)
Definition kept_below (n : nat) (w w' : World) : Prop :=
  conf (self w') = conf (self w)
  ∧ _negative_table (self w') = _negative_table (self w)
  ∧ _per_user_neg_count (self w') = _per_user_neg_count (self w)
  ∧ (length (store w) ≤ length (store w'))%nat
  ∧ ∀ l, (l < n)%nat → store w' !! l = store w !! l.

(** [m] keeps the buffers below [n], whether it returns or raises, and
    what it returns satisfies [Q]. *)
Definition frames {A} (n : nat) (m : M A) (Q : A → Prop) : Prop :=
  ∀ w, (n ≤ length (store w))%nat →
    kept_below n w (m w).2 ∧ ∀ a, (m w).1 = Ok a → Q a.

(** The positive items of user [u] in the training interactions. *)
Fixpoint positives_of (users items : list Z) (u : Z) : list Z :=
  match users, items with
  | v :: users', x :: items' =>
      if bool_decide (v = u) then x :: positives_of users' items' u
      else positives_of users' items' u
  | _, _ => []
  end.

(** The training queue with the [items] buffers read from the store. *)
Definition queued (w : World) : list (list Z * option ndarray * list Z) :=
  (λ b : train_batch, (b.1.1, store w !! b.1.2, b.2))
    <$> _training_queue (self w).

(** ** Small instances *)

Definition no_world : World :=
  mkWorld []
    (mkSelf (mkConf 0 0 0 0%nat 0%nat 0 0 0 0 0 0 0%nat 0%nat 0 0 0 0) None
            (mkPermuter (λ _, []) 0%nat false false) [] None false None
            None)
    (λ _ _ _, 0) 0%nat.

Definition constructed (r : list effect * res World) : World :=
  match r.2 with Ok w => w | Raise _ => no_world end.
Definition world_after {A} (r : res A * World) : World := r.2.

(** Two users, three items, three positives; epochs of six indices, handed
    out in batches of four; two eval negatives, eval batches of two users. *)
Definition small_store : list ndarray :=
  [Vec [0; 0; 1]; Vec [0; 1; 2]; Vec [0; 1]; Vec [2; 1]].
Definition small_perms (k : nat) : list Z :=
  if Nat.even k then range 6 else reverse (range 6).
Definition last_index (n i : nat) (c : Z) : Z := c - 1.
Definition small_world : World :=
  constructed (__init__ 2 small_store small_perms last_index
                        3 2 3 0%nat 1%nat 4 1 1 2%nat 3%nat 6 1).
(** After [construct_lookup_variables]. *)
Definition small_ready : World :=
  world_after (materialized_construct_lookup_variables small_world).

(** Epochs of three indices, without negatives, in batches of two. *)
Definition ragged_world : World :=
  world_after
    (materialized_construct_lookup_variables
       (constructed (__init__ 2 small_store (λ _, [1; 2; 0]) last_index
                              3 2 3 0%nat 1%nat 2 1 0 2%nat 3%nat 6 1))).

(** Epochs of three indices and batches of five. *)
Definition short_epoch_world : World :=
  constructed (__init__ 2 small_store (λ _, range 3) (λ _ _ _, 0)
                        3 2 3 0%nat 1%nat 5 1 0 2%nat 3%nat 6 1).
Definition short_epoch_ready : World :=
  world_after (materialized_construct_lookup_variables short_epoch_world).

(** Epochs of four indices and batches of two; the second permutation
    starts with the entries the first one ends with. *)
Definition two_epochs_store : list ndarray :=
  [Vec [0; 1]; Vec [0; 1]; Vec [0; 1]; Vec [2; 1]].
Definition two_epochs_world : World :=
  constructed (__init__ 2 two_epochs_store
                        (λ k, match k with O => [0; 1; 2; 3] | _ => [2; 3; 0; 1] end)
                        (λ _ _ _, 0)
                        3 2 3 0%nat 1%nat 2 1 1 2%nat 3%nat 6 1).

(** * Further notions: the generators, and what a call leaves alone *)

Local Open Scope nat_scope.

(** ** The generators the training loop reads from *)

(** What a generator has handed out when it is done, or when it stands at
    a call that blocks. *)
Inductive yielded (A : Type) : Type :=
  | Finished (items : list A)
  | Waiting (items : list A).
Arguments Finished {A} items.
Arguments Waiting {A} items.

Definition yield_first {A} (x : A) (r : yielded A) : yielded A :=
  match r with
  | Finished items => Finished (x :: items)
  | Waiting items => Waiting (x :: items)
  end.

(** [self._training_queue.get()]: the oldest batch; on an empty queue the
    call blocks, which is the answer [None] here. *)
Definition queue_get : M (option train_batch) := λ w,
  match _training_queue (self w) with
  | [] => (Ok None, w)
  | b :: q => (Ok (Some b), set_self (with_training_queue q (self w)) w)
  end.

(** [for _ in rounds: yield self._training_queue.get()], iterated to its
    end or to the first [get] that finds the queue empty, with no batch
    added to the queue in between. *)
Fixpoint yield_from_queue (rounds : list Z) : M (yielded train_batch) :=
  match rounds with
  | [] => mret (Finished [])
  | _ :: rounds' =>
      b ← queue_get;
      match b with
      | None => mret (Waiting [])
      | Some b => r ← yield_from_queue rounds'; mret (yield_first b r)
      end
  end.

Definition training_generator : M (yielded train_batch) :=
  s ← get_self;
  yield_from_queue (range (_train_batches_per_epoch (conf s))).

(** [eval_generator] sleeps while [_eval_results] is [None], then yields
    the stored batches. *)
Definition eval_generator : M (yielded eval_batch) :=
  s ← get_self;
  match _eval_results s with
  | None => mret (Waiting [])
  | Some eval_results => mret (Finished eval_results)
  end.

(** The attributes that steer the construction. *)
Definition control (w : World)
  : Conf * option (list Z) * AsyncPermuter * list train_batch * bool :=
  (conf (self w), _current_epoch_order (self w), _shuffle_producer (self w),
   _training_queue (self w), _stop_loop (self w)).

(** [m] leaves the projection [f] of the world as it is, whether it returns
    or raises. *)
Definition keeps {A X} (f : World → X) (m : M A) : Prop :=
  ∀ w, f (m w).2 = f w.

(** A queued batch whose three arrays have [b] entries. *)
Definition batch_sized (w : World) (b : nat) (batch : train_batch) : Prop :=
  length batch.1.1 = b ∧ length batch.2 = b
  ∧ ∃ items, store w !! batch.1.2 = Some (Vec items) ∧ length items = b.

(** Buffers are created and never dropped. *)
Definition store_extends (w w' : World) : Prop :=
  ∀ l a, store w !! l = Some a → store w' !! l = Some a.

(** The items of a row whose duplicate flag is 0. *)
Definition unflagged (items mask : list Z) : list Z :=
  (filter (λ p, p.2 = 0%Z) (zip items mask)).*1.

(** What a call leaves alone besides the queue and the cursor: the sizes,
    the supply of the producer and its flags, the eval results, the stop
    flag, the names of the table and the counts, and every buffer. *)
Definition steady (w w' : World) : Prop :=
  conf (self w') = conf (self w)
  ∧ perm_stream (_shuffle_producer (self w'))
    = perm_stream (_shuffle_producer (self w))
  ∧ perm_started (_shuffle_producer (self w'))
    = perm_started (_shuffle_producer (self w))
  ∧ perm_stopped (_shuffle_producer (self w'))
    = perm_stopped (_shuffle_producer (self w))
  ∧ _eval_results (self w') = _eval_results (self w)
  ∧ _stop_loop (self w') = _stop_loop (self w)
  ∧ _negative_table (self w') = _negative_table (self w)
  ∧ _per_user_neg_count (self w') = _per_user_neg_count (self w)
  ∧ store_extends w w'.

(** The bounds of the users' slices that [construct_lookup_variables]
    computes from the user column. *)
Definition index_bounds (num_users : Z) (train_pos_users : list Z) : list Z :=
  [0%Z]
  ++ ((λ k, k + 1)%Z <$>
        argwhere (zip_with Z.sub (slice_from 1 train_pos_users)
                                 (slice_to (-1) train_pos_users)))
  ++ [num_users].

(** The count and the table row that one round of the loop over the users
    computes, as a function of the user alone. *)
Definition user_row (num_items : Z) (bounds train_pos_items : list Z) (i : Z)
  : res (Z * list Z) :=
  lo ← getitem bounds i;
  hi ← getitem bounds (i + 1);
  let positives := slice lo hi train_pos_items in
  negatives ← np_delete (range num_items) positives;
  let count := (num_items - Z.of_nat (length positives))%Z in
  let stop := slice_bound (Z.to_nat num_items) count in
  vals ← broadcast_to stop negatives;
  Ok (count, vals ++ replicate (Z.to_nat num_items - stop) uint16_max).

(** The interactions that the loop reads for user [u]: the slice of the
    item column between the bounds [u] and [u + 1]. *)
Definition user_slice (bounds train_pos_items : list Z) (u : nat) : list Z :=
  match bounds !! u, bounds !! S u with
  | Some lo, Some hi => slice lo hi train_pos_items
  | _, _ => []
  end.

(** The small instance with 65535 items, the least number of items that
    the check against the maximum of [uint16] rejects. *)
Definition many_items_world : World :=
  constructed (__init__ 2 small_store small_perms last_index
                        3 2 65535 0%nat 1%nat 4 1 1 2%nat 3%nat 6 1).

(** A user column that is sorted by user with every user present: user
    [u], [u + 1], ... with [sizes] interactions each. *)
Fixpoint sorted_users (u : nat) (sizes : list nat) : list Z :=
  match sizes with
  | [] => []
  | n :: sizes' => replicate n (Z.of_nat u) ++ sorted_users (S u) sizes'
  end.

(** The positions at which the user changes, for a column that starts at
    position [k]. *)
Fixpoint inner_bounds_from (k : nat) (sizes : list nat) : list Z :=
  match sizes with
  | [] => []
  | n :: sizes' =>
      match sizes' with
      | [] => []
      | _ :: _ => Z.of_nat (k + n) :: inner_bounds_from (k + n) sizes'
      end
  end.

Local Close Scope nat_scope.

(** * Properties *)

(** ** Batch counting *)

Lemma ceil_div_spec (a b : Z) :
  0 < b → (ceil_div a b - 1) * b < a ≤ ceil_div a b * b.
Proof.
  intros Hb. unfold ceil_div.
  pose proof (Z.div_mod a b ltac:(lia)) as Hdm.
  pose proof (Z.mod_pos_bound a b Hb) as Hm.
  case_bool_decide; nia.
Qed.

Lemma ceil_div_least (a b k : Z) : 0 < b → a ≤ k * b → ceil_div a b ≤ k.
Proof.
  intros Hb Hk. pose proof (ceil_div_spec a b Hb). nia.
Qed.

Lemma round_up_div (a b : Z) : 0 < b → (a + b - 1) `div` b = ceil_div a b.
Proof.
  intros Hb. pose proof (ceil_div_spec a b Hb) as Hc.
  symmetry. apply (Z.div_unique_pos _ _ _ (a + b - 1 - b * ceil_div a b)); lia.
Qed.

(** C5: for positive arguments [_count_batches] returns
    [ceil(ceil(example_count / batch_size) / batches_per_step) *
    batches_per_step], which is a multiple of [batches_per_step]. *)
Theorem count_batches_rounds_up (example_count batch_size batches_per_step : Z) :
  0 < example_count → 0 < batch_size → 0 < batches_per_step →
  ∃ n, _count_batches example_count batch_size batches_per_step = Ok n
       ∧ n = ceil_div (ceil_div example_count batch_size) batches_per_step
             * batches_per_step
       ∧ (batches_per_step | n).
Proof.
  intros _ Hb Hs. eexists. split; [|split; [reflexivity|]].
  - unfold _count_batches, floordiv.
    rewrite !bool_decide_eq_false_2 by lia. simpl.
    by rewrite !round_up_div by lia.
  - by apply Z.divide_factor_r.
Qed.

Lemma count_batches_rounds_up_witness :
  ∃ n, _count_batches 10 4 2 = Ok n
       ∧ n = ceil_div (ceil_div 10 4) 2 * 2 ∧ (2 | n).
Proof. apply (count_batches_rounds_up 10 4 2); lia. Defined.

(** ** Construction *)

Lemma count_batches_ok_iff (e b s : Z) :
  (∃ n, _count_batches e b s = Ok n) ↔ b ≠ 0 ∧ s ≠ 0.
Proof.
  unfold _count_batches, floordiv. split.
  - intros [n Hn]. repeat case_bool_decide; simpl in *; done.
  - intros [Hb Hs]. rewrite !bool_decide_eq_false_2 by done. simpl. eauto.
Qed.

Lemma count_batches_error (e b s : Z) (x : exn) :
  _count_batches e b s = Raise x → x = ZeroDivisionError ∧ (b = 0 ∨ s = 0).
Proof.
  unfold _count_batches, floordiv.
  repeat (case_bool_decide; simpl); intros; simplify_eq; split; auto.
Qed.

(** C6, as amended: when [eval_batch_size] is not a multiple of
    [1 + NUM_EVAL_NEGATIVES] the constructor fails; the failure is the
    [ValueError] exactly when, in addition, the two training arrays have the
    same shape and neither [train_batch_size] nor [batches_per_train_step]
    is zero (otherwise an earlier check has already raised); and whenever
    the constructor fails, it has not yet created the shuffle producer, the
    queue, the lock or the thread. *)
Theorem init_divisibility_check
    (N : Z) (h : list ndarray) (perms : nat → list Z)
    (rand : nat → nat → Z → Z) (max_epochs num_users num_items : Z)
    (tpu tpi : loc) (tbs bpts ntn : Z) (epu epi : loc) (ebs bpes : Z)
    (users items : list Z) :
  0 ≤ N →
  h !! tpu = Some (Vec users) → h !! tpi = Some (Vec items) →
  let r := __init__ N h perms rand max_epochs num_users num_items tpu tpi
                    tbs bpts ntn epu epi ebs bpes in
  (ebs `mod` (1 + N) ≠ 0 → ∃ e, r = ([], Raise e))
  ∧ (r.2 = Raise ValueError ↔
       length users = length items ∧ tbs ≠ 0 ∧ bpts ≠ 0
       ∧ ebs `mod` (1 + N) ≠ 0)
  ∧ (∀ e, r.2 = Raise e → r.1 = []).
Proof.
  intros HN Hu Hi r. subst r. unfold __init__. rewrite Hu, Hi.
  unfold pymod. rewrite (bool_decide_eq_false_2 (1 + N = 0)) by lia.
  case_bool_decide as Hlen; simpl.
  2:{ split; [eauto|]. split; [|done]. split; [done|]. tauto. }
  destruct (_count_batches ((1 + ntn) * Z.of_nat (length users)) tbs bpts)
    as [tb|x] eqn:Htb; simpl.
  2:{ apply count_batches_error in Htb as [-> Hz]. split; [eauto|].
      split; [|done]. split; [done|]. lia. }
  assert (tbs ≠ 0 ∧ bpts ≠ 0) as [??]
    by (apply (count_batches_ok_iff ((1 + ntn) * Z.of_nat (length users)));
        eauto).
  case_bool_decide as Hmod; simpl.
  { split; [eauto|]. split; [|done]. tauto. }
  split; [done|].
  destruct (_count_batches (num_users * (1 + N)) ebs bpes) as [eb|x] eqn:Heb;
    simpl.
  - split; [|done]. split; [done|]. tauto.
  - apply count_batches_error in Heb as [-> _].
    split; [|done]. split; [done|]. tauto.
Qed.

Lemma init_divisibility_check_witness :
  let r := __init__ 2 [Vec [0; 0; 1]; Vec [0; 1; 2]; Vec [0; 1]; Vec [2; 1]]
             (λ _, range 6) (λ _ _ _, 0) 3 2 3 0%nat 1%nat 3 1 1 2%nat 3%nat
             7 1 in
  (7 `mod` (1 + 2) ≠ 0 → ∃ e, r = ([], Raise e))
  ∧ (r.2 = Raise ValueError ↔
       length [0; 0; 1] = length [0; 1; 2] ∧ 3 ≠ 0 ∧ 1 ≠ 0
       ∧ 7 `mod` (1 + 2) ≠ 0)
  ∧ (∀ e, r.2 = Raise e → r.1 = []).
Proof.
  apply (init_divisibility_check 2
           [Vec [0; 0; 1]; Vec [0; 1; 2]; Vec [0; 1]; Vec [2; 1]]
           (λ _, range 6) (λ _ _ _, 0) 3 2 3 0%nat 1%nat 3 1 1 2%nat 3%nat
           7 1 [0; 0; 1] [0; 1; 2]); [lia | reflexivity | reflexivity].
Defined.

(** C6 as stated fails: with [eval_batch_size = 6] a multiple of
    [1 + 2], the constructor still raises, because the training arrays
    differ in shape. *)
Lemma init_raises_though_divisible :
  6 `mod` (1 + 2) = 0
  ∧ (__init__ 2 [Vec [0; 0; 1]; Vec [0; 1]; Vec [0; 1]; Vec [2; 1]]
       (λ _, range 6) (λ _ _ _, 0) 3 2 3 0%nat 1%nat 3 1 1 2%nat 3%nat
       6 1).2 = Raise AssertionError.
Proof. split; reflexivity. Qed.

(** C10: the constructor raises [AssertionError] when the two training
    arrays differ in shape, and every object it returns holds training
    arrays of one length, which is [_train_pos_count]. *)
Theorem init_asserts_equal_shapes
    (N : Z) (h : list ndarray) (perms : nat → list Z)
    (rand : nat → nat → Z → Z) (max_epochs num_users num_items : Z)
    (tpu tpi : loc) (tbs bpts ntn : Z) (epu epi : loc) (ebs bpes : Z)
    (users items : list Z) :
  h !! tpu = Some (Vec users) → h !! tpi = Some (Vec items) →
  let r := __init__ N h perms rand max_epochs num_users num_items tpu tpi
                    tbs bpts ntn epu epi ebs bpes in
  (length users ≠ length items → r = ([], Raise AssertionError))
  ∧ (∀ w, r.2 = Ok w →
       store w !! _train_pos_users (conf (self w)) = Some (Vec users)
       ∧ store w !! _train_pos_items (conf (self w)) = Some (Vec items)
       ∧ length users = length items
       ∧ _train_pos_count (conf (self w)) = Z.of_nat (length users)).
Proof.
  intros Hu Hi r. subst r. unfold __init__. rewrite Hu, Hi. split.
  - intros Hne. by rewrite bool_decide_eq_false_2.
  - intros w. case_bool_decide as Hlen; [|done].
    destruct (_count_batches _ tbs bpts); [|done].
    destruct (pymod ebs (1 + N)); [|done].
    case_bool_decide; [done|].
    destruct (_count_batches _ ebs bpes); [|done].
    simpl. intros [= <-]. simpl. done.
Qed.

Lemma init_asserts_equal_shapes_witness :
  let h := [Vec [0; 0; 1]; Vec [0; 1]; Vec [0; 1]; Vec [2; 1]] in
  let r := __init__ 2 h (λ _, range 6) (λ _ _ _, 0) 3 2 3 0%nat 1%nat
                    3 1 1 2%nat 3%nat 6 1 in
  (length [0; 0; 1] ≠ length [0; 1] → r = ([], Raise AssertionError))
  ∧ (∀ w, r.2 = Ok w →
       store w !! _train_pos_users (conf (self w)) = Some (Vec [0; 0; 1])
       ∧ store w !! _train_pos_items (conf (self w)) = Some (Vec [0; 1])
       ∧ length [0; 0; 1] = length [0; 1]
       ∧ _train_pos_count (conf (self w)) = Z.of_nat (length [0; 0; 1])).
Proof.
  apply (init_asserts_equal_shapes 2
           [Vec [0; 0; 1]; Vec [0; 1]; Vec [0; 1]; Vec [2; 1]]
           (λ _, range 6) (λ _ _ _, 0) 3 2 3 0%nat 1%nat 3 1 1 2%nat 3%nat
           6 1 [0; 0; 1] [0; 1]); reflexivity.
Defined.

(** A new object: no epoch order yet, nothing taken from the producer, and
    epochs of [(1 + num_train_negatives) * train_pos_count] indices. *)
Lemma init_fresh_object
    (N : Z) (h : list ndarray) (perms : nat → list Z)
    (rand : nat → nat → Z → Z) (max_epochs num_users num_items : Z)
    (tpu tpi : loc) (tbs bpts ntn : Z) (epu epi : loc) (ebs bpes : Z)
    (w : World) :
  (__init__ N h perms rand max_epochs num_users num_items tpu tpi
            tbs bpts ntn epu epi ebs bpes).2 = Ok w →
  let c := conf (self w) in
  _current_epoch_order (self w) = None
  ∧ perm_taken (_shuffle_producer (self w)) = 0%nat
  ∧ perm_stream (_shuffle_producer (self w)) = perms
  ∧ _train_batch_size c = tbs
  ∧ _elements_in_epoch c = (1 + _num_train_negatives c) * _train_pos_count c
  ∧ _stop_loop (self w) = false
  ∧ store w = h.
Proof.
  unfold __init__.
  destruct (h !! tpu) as [[users|]|]; try done.
  destruct (h !! tpi) as [[items|]|]; try done.
  case_bool_decide; [|done].
  destruct (_count_batches _ tbs bpts); [|done].
  destruct (pymod ebs (1 + N)); [|done].
  case_bool_decide; [done|].
  destruct (_count_batches _ ebs bpes); [|done].
  simpl. by intros [= <-].
Qed.

(** ** The order chunks *)

Local Open Scope nat_scope.

Lemma slice_to_of_nat {A} (n : nat) (a : list A) :
  slice_to (Z.of_nat n) a = take n a.
Proof.
  unfold slice_to, slice_bound. rewrite bool_decide_eq_false_2 by lia.
  rewrite Nat2Z.id. destruct (decide (n ≤ length a)).
  - by rewrite Nat.min_r.
  - rewrite Nat.min_l by lia. by rewrite !take_ge by lia.
Qed.

Lemma slice_from_of_nat {A} (n : nat) (a : list A) :
  slice_from (Z.of_nat n) a = drop n a.
Proof.
  unfold slice_from, slice_bound. rewrite bool_decide_eq_false_2 by lia.
  rewrite Nat2Z.id. destruct (decide (n ≤ length a)).
  - by rewrite Nat.min_r.
  - rewrite Nat.min_l by lia. by rewrite !drop_ge by lia.
Qed.

(** The tail of [_get_order_chunk], once the first slice is taken: top up
    the batch when [num_extra] is not zero. *)
Local Ltac chunk_tail b o :=
  replace (Z.of_nat b - Z.of_nat (length (take b o)))%Z
    with (Z.of_nat (b - length (take b o)))
    by (rewrite length_take; lia);
  case_bool_decide; simpl;
  [ by rewrite slice_to_of_nat, slice_from_of_nat
  | replace (b - length (take b o)) with 0 by lia;
    by rewrite take_0, drop_0, app_nil_r ].

(** What one call computes, for a batch size that is not negative. *)
Lemma get_order_chunk_eq (w : World) (b : nat) :
  _train_batch_size (conf (self w)) = Z.of_nat b →
  _get_order_chunk w
  = let p := _shuffle_producer (self w) in
    let '(order0, k0) :=
      match _current_epoch_order (self w) with
      | None => (perm_stream p (perm_taken p), S (perm_taken p))
      | Some o => (o, perm_taken p)
      end in
    let batch := take b order0 in
    let '(order1, k1) :=
      if bool_decide (length (drop b order0) = 0)
      then (perm_stream p k0, S k0) else (drop b order0, k0) in
    let extra := b - length batch in
    (Ok (batch ++ take extra order1), chunk_world w (drop extra order1) k1).
Proof.
  intros HB. destruct w as [h [c o [ps pt pst psp] q er sl nt pc] ro rc].
  simpl in *.
  unfold _get_order_chunk, mbind, M_bind, get_self. simpl. rewrite HB.
  destruct o as [o|]; simpl; rewrite slice_to_of_nat, slice_from_of_nat;
    case_bool_decide; simpl.
  - chunk_tail b o.
  - chunk_tail b o.
  - chunk_tail b (ps pt).
  - chunk_tail b (ps pt).
Qed.

Lemma take_drop_app_le {A} (l k : list A) (off b : nat) :
  off + b ≤ length l → take b (drop off (l ++ k)) = take b (drop off l).
Proof.
  intros H. rewrite drop_app_le by lia. rewrite take_app_le; [done|].
  rewrite length_drop. lia.
Qed.

Lemma epochs_stream_length perms E m :
  (∀ k, length (perms k) = E) → length (epochs_stream perms m) = m * E.
Proof.
  intros HE. unfold epochs_stream. induction m as [|m IH]; [done|].
  rewrite seq_S, fmap_app, concat_app, length_app, IH. simpl.
  rewrite length_app, HE. simpl. lia.
Qed.

Lemma epochs_stream_add perms m k :
  epochs_stream perms (m + k)
  = epochs_stream perms m ++ concat (perms <$> seq m k).
Proof. unfold epochs_stream. by rewrite seq_app, fmap_app, concat_app. Qed.

(** The [b] indices at offset [off] of epoch [t], read off any long enough
    prefix of the concatenated permutations. *)
Lemma epochs_stream_window perms E M t off b :
  (∀ k, length (perms k) = E) → off < E → 0 < b ≤ E →
  t * E + off + b ≤ M * E →
  take b (drop (t * E + off) (epochs_stream perms M))
  = take b (drop off (perms t ++ perms (S t))).
Proof.
  intros HE Hoff Hb HM.
  assert (t < M) as Ht by nia.
  replace M with (t + S (M - S t)) by lia.
  rewrite epochs_stream_add.
  rewrite drop_app_add' by (symmetry; by apply epochs_stream_length).
  simpl. destruct (M - S t) as [|d] eqn:Hd; simpl.
  - rewrite app_nil_r. symmetry. apply take_drop_app_le. rewrite HE. nia.
  - rewrite (assoc_L (++)). apply take_drop_app_le.
    rewrite length_app, !HE. lia.
Qed.

Lemma epochs_stream_epoch perms E M j :
  (∀ k, length (perms k) = E) → j < M →
  take E (drop (j * E) (epochs_stream perms M)) = perms j.
Proof.
  intros HE Hj. replace M with (j + S (M - S j)) by lia.
  rewrite epochs_stream_add.
  rewrite drop_app_length' by (symmetry; by apply epochs_stream_length).
  simpl. by rewrite take_app_length' by (by rewrite HE).
Qed.

Lemma cursor_at_chunk_world w E o k t off :
  cursor_at (chunk_world w o k) E t off ↔
  o = drop off (perm_stream (_shuffle_producer (self w)) t)
  ∧ k = S t ∧ off < E.
Proof.
  unfold cursor_at, chunk_world. simpl. split.
  - intros [(? & _)|(? & ? & ?)]; [done|]. by simplify_eq.
  - intros (-> & -> & ?). by right.
Qed.

(** One call: the batch is the next [b] entries of the concatenated
    permutations, and the cursor moves on by [b]. *)
Lemma get_order_chunk_step (w : World) (E b t off : nat) :
  let ps := perm_stream (_shuffle_producer (self w)) in
  _train_batch_size (conf (self w)) = Z.of_nat b →
  0 < b ≤ E →
  (∀ k, length (ps k) = E) →
  cursor_at w E t off →
  ∃ o' k' t' off',
    _get_order_chunk w
    = (Ok (take b (drop off (ps t ++ ps (S t)))), chunk_world w o' k')
    ∧ cursor_at (chunk_world w o' k') E t' off'
    ∧ t' * E + off' = t * E + off + b.
Proof.
  intros ps HB Hb HE Hc.
  rewrite (get_order_chunk_eq w b HB). cbv zeta. fold ps.
  assert (∀ o k0,
    length o = E - off → off < E →
    o = drop off (ps t) → k0 = S t →
    ∃ o' k' t' off',
      (let batch := take b o in
       let '(order1, k1) :=
         if bool_decide (length (drop b o) = 0)
         then (ps k0, S k0) else (drop b o, k0) in
       let extra := b - length batch in
       (Ok (batch ++ take extra order1),
        chunk_world w (drop extra order1) k1))
      = (Ok (take b (drop off (ps t ++ ps (S t)))), chunk_world w o' k')
      ∧ cursor_at (chunk_world w o' k') E t' off'
      ∧ t' * E + off' = t * E + off + b) as Hcase.
  { intros o k0 Hlen Hoff -> ->. simpl.
    rewrite length_drop, length_take, length_drop, HE.
    rewrite drop_app_le by (rewrite HE; lia).
    case_bool_decide as Hz.
    - (* this call uses up the current permutation *)
      exists (drop (b - (E - off)) (ps (S t))), (S (S t)),
             (S t), (b - (E - off)).
      split; [|split].
      + replace (b `min` (E - off)) with (E - off) by lia.
        by rewrite take_app, length_drop, HE.
      + apply cursor_at_chunk_world. split; [done|]. split; [done|]. lia.
      + nia.
    - exists (drop (off + b) (ps t)), (S t), t, (off + b).
      split; [|split].
      + rewrite take_app_le by (rewrite length_drop, HE; lia).
        replace (b - b `min` (E - off)) with 0 by lia.
        by rewrite take_0, drop_0, app_nil_r, drop_drop.
      + apply cursor_at_chunk_world. split; [done|]. split; [done|]. lia.
      + lia. }
  destruct Hc as [(Ho & Hk & ->)|(Ho & Hk & Hoff)]; rewrite Ho, Hk.
  - apply Hcase; [rewrite HE; lia | lia | done | done].
  - apply Hcase; [rewrite length_drop, HE; lia | done | done | done].
Qed.

(** Any number of calls in a row. *)
Lemma order_chunks_from (l : list nat) (w : World) (E b t off : nat) :
  let ps := perm_stream (_shuffle_producer (self w)) in
  _train_batch_size (conf (self w)) = Z.of_nat b →
  0 < b ≤ E →
  (∀ k, length (ps k) = E) →
  cursor_at w E t off →
  ∃ chunks w' t' off',
    mapM (λ _, _get_order_chunk) l w = (Ok chunks, w')
    ∧ cursor_at w' E t' off'
    ∧ t' * E + off' = t * E + off + length l * b
    ∧ conf (self w') = conf (self w)
    ∧ perm_stream (_shuffle_producer (self w')) = ps
    ∧ Forall (λ c, length c = b) chunks
    ∧ length chunks = length l
    ∧ ∀ M, t * E + off + length l * b ≤ M * E →
        concat chunks
        = take (length l * b) (drop (t * E + off) (epochs_stream ps M)).
Proof.
  intros ps. subst ps. revert w t off.
  induction l as [|x l IH]; intros w t off HB Hb HE Hc.
  - exists [], w, t, off. simpl. repeat split; try done; try lia.
  - destruct (get_order_chunk_step w E b t off HB Hb HE Hc)
      as (o1 & k1 & t1 & off1 & Hrun & Hc1 & Hpos1).
    destruct (IH (chunk_world w o1 k1) t1 off1 HB Hb HE Hc1)
      as (chunks & w' & t' & off' & Hrun' & Hc' & Hpos' & Hconf & Hps
          & Hall & Hlen & Hcat).
    eexists (_ :: chunks), w', t', off'.
    split. { simpl. unfold mbind, M_bind. by rewrite Hrun, Hrun'. }
    split; [done|]. split; [simpl; lia|]. split; [done|]. split; [done|].
    assert (off < E) as Hoff.
    { destruct Hc as [(_ & _ & ->)|(_ & _ & ?)]; lia. }
    split.
    { constructor; [|done]. rewrite length_take, length_drop, length_app, !HE.
      lia. }
    split; [simpl; lia|].
    intros M HM. simpl in *.
    rewrite (Hcat M) by lia.
    rewrite <- (epochs_stream_window _ E M) by (done || lia).
    rewrite Hpos1, <- (drop_drop _ b (t * E + off)). apply take_take_drop.
Qed.

(** C3, as amended: on a freshly constructed object whose producer yields
    permutations of [range(_elements_in_epoch)], and with a batch size
    between one and the size of an epoch, [n] calls of [_get_order_chunk]
    return [n] chunks of exactly [_train_batch_size] indices each; read one
    after the other they are the permutations of the producer, one after the
    other, without gap or repetition, also where one chunk takes the end of
    one permutation and the start of the next; so the indices handed out at
    the positions of the [j]-th epoch are the [j]-th permutation of
    [range(_elements_in_epoch)]. *)
Theorem order_chunks_tile_epochs (w : World) (E b n : nat) :
  let ps := perm_stream (_shuffle_producer (self w)) in
  _current_epoch_order (self w) = None →
  perm_taken (_shuffle_producer (self w)) = 0 →
  _elements_in_epoch (conf (self w)) = Z.of_nat E →
  _train_batch_size (conf (self w)) = Z.of_nat b →
  0 < b ≤ E →
  (∀ k, ps k ≡ₚ range (_elements_in_epoch (conf (self w)))) →
  ∃ chunks w',
    order_chunks n w = (Ok chunks, w')
    ∧ length chunks = n
    ∧ Forall (λ c, length c = b) chunks
    ∧ concat chunks = take (n * b) (epochs_stream ps n)
    ∧ ∀ j, S j * E ≤ n * b →
        take E (drop (j * E) (concat chunks)) = ps j
        ∧ take E (drop (j * E) (concat chunks))
            ≡ₚ range (_elements_in_epoch (conf (self w))).
Proof.
  intros ps Ho Hk HE HB Hb Hperm.
  assert (∀ k, length (ps k) = E) as Hlen.
  { intros k. rewrite (Hperm k), HE. unfold range.
    by rewrite length_fmap, length_seq, Nat2Z.id. }
  destruct (order_chunks_from (seq 0 n) w E b 0 0 HB Hb Hlen)
    as (chunks & w' & t' & off' & Hrun & _ & _ & _ & _ & Hall & Hn & Hcat).
  { by left. }
  rewrite length_seq in Hn, Hcat. simpl in Hcat. fold ps in Hcat.
  exists chunks, w'. split; [done|]. split; [done|]. split; [done|].
  split. { apply Hcat. nia. }
  intros j Hj.
  assert (take E (drop (j * E) (concat chunks)) = ps j) as Hj'.
  { rewrite (Hcat n) by nia. rewrite take_drop_commute, take_take.
    rewrite Nat.min_l by lia. rewrite <- take_drop_commute.
    apply epochs_stream_epoch; [done|nia]. }
  split; [done|]. by rewrite Hj'.
Qed.

Lemma order_chunks_tile_epochs_witness :
  ∃ chunks w',
    order_chunks 3 small_world = (Ok chunks, w')
    ∧ length chunks = 3
    ∧ Forall (λ c, length c = 4) chunks
    ∧ concat chunks = take (3 * 4) (epochs_stream small_perms 3)
    ∧ ∀ j, S j * 6 ≤ 3 * 4 →
        take 6 (drop (j * 6) (concat chunks)) = small_perms j
        ∧ take 6 (drop (j * 6) (concat chunks)) ≡ₚ range 6.
Proof.
  apply (order_chunks_tile_epochs small_world 6 4 3);
    [reflexivity | reflexivity | reflexivity | reflexivity | lia |].
  intros k. simpl. unfold small_perms.
  destruct (Nat.even k); [reflexivity | apply reverse_Permutation].
Defined.

(** C3 as stated fails twice.  With epochs of three indices and batches of
    five, the second call returns four indices.  With epochs of four indices
    and batches of two, the second and third call together hand out four
    indices, an epoch's worth, and these are 2, 3, 2, 3. *)
Lemma order_chunks_short_or_repeated :
  (_train_batch_size (conf (self short_epoch_world)) = 5%Z
   ∧ returned (order_chunks 2 short_epoch_world)
     = Ok [[0; 1; 2; 0; 1]; [2; 0; 1; 2]]%Z)
  ∧ (_elements_in_epoch (conf (self two_epochs_world)) = 4%Z
     ∧ returned (order_chunks 3 two_epochs_world)
       = Ok [[0; 1]; [2; 3]; [2; 3]]%Z).
Proof. repeat split; reflexivity. Qed.

(** ** Running a method backwards from its result *)

Lemma M_bind_inv {A B} (m : M A) (f : A → M B) w r w' :
  (m ≫= f) w = (Ok r, w') →
  ∃ a w1, m w = (Ok a, w1) ∧ f a w1 = (Ok r, w').
Proof.
  unfold mbind, M_bind. destruct (m w) as [[a|e] w1]; [eauto|done].
Qed.

Lemma lift_inv {A} (r : res A) w a w' :
  lift r w = (Ok a, w') → r = Ok a ∧ w' = w.
Proof. unfold lift. by intros [= -> ->]. Qed.

Lemma load_vec_inv l w v w' :
  load_vec l w = (Ok v, w') → store w !! l = Some (Vec v) ∧ w' = w.
Proof.
  unfold load_vec. destruct (store w !! l) as [[?|?]|]; try done.
  by intros [= -> ->].
Qed.

Lemma load_mat_inv l w m w' :
  load_mat l w = (Ok m, w') → store w !! l = Some (Mat m) ∧ w' = w.
Proof.
  unfold load_mat. destruct (store w !! l) as [[?|?]|]; try done.
  by intros [= -> ->].
Qed.

Lemma attr_inv {A} (o : option A) w a w' :
  attr o w = (Ok a, w') → o = Some a ∧ w' = w.
Proof.
  unfold attr, mret, M_ret, raise. destruct o; [|done]. by intros [= -> ->].
Qed.

Lemma get_order_chunk_total (w : World) :
  ∃ c o k, _get_order_chunk w = (Ok c, chunk_world w o k).
Proof.
  destruct w as [h [c o [ps pt pst psp] q er sl nt pc] ro rc].
  unfold _get_order_chunk, mbind, M_bind, get_self. simpl.
  destruct o as [o|]; simpl; repeat (case_bool_decide; simpl);
    unfold chunk_world; simpl; eauto.
Qed.

Lemma res_mapM_length {A B} (f : A → res B) l r :
  res_mapM f l = Ok r → length r = length l.
Proof.
  revert r. induction l as [|x l IH]; intros r; simpl.
  - by intros [= <-].
  - destruct (f x); simpl; [|done]. destruct (res_mapM f l); simpl; [|done].
    intros [= <-]. simpl. f_equal. by apply IH.
Qed.

Lemma materialized_lookup_inv us w r w' :
  materialized_lookup_negative_items us w = (Ok r, w') →
  w' = set_rand_calls (S (rand_calls w)) w ∧ length r = length us.
Proof.
  unfold materialized_lookup_negative_items. intros H.
  apply M_bind_inv in H as (s & w1 & [= <- <-] & H).
  apply M_bind_inv in H as (cl & w1 & (_ & ->)%attr_inv & H).
  apply M_bind_inv in H as (cv & w1 & (_ & ->)%load_vec_inv & H).
  apply M_bind_inv in H as (sel & w1 & (_ & ->)%lift_inv & H).
  apply M_bind_inv in H as (ch & w1 & [= <- <-] & H).
  apply M_bind_inv in H as (s' & w1 & [= <- <-] & H).
  apply M_bind_inv in H as (tl & w1 & (_ & ->)%attr_inv & H).
  apply M_bind_inv in H as (tm & w1 & (_ & ->)%load_mat_inv & H).
  apply lift_inv in H as [H ->]. split; [done|].
  unfold take_idx2 in H. case_bool_decide; [|done].
  apply res_mapM_length in H. rewrite H, length_zip. lia.
Qed.

Lemma guard_inv (b : bool) (e : exn) (w w0 : World) :
  (if b then raise e else mret ()) w = (Ok (), w0) → b = false ∧ w0 = w.
Proof. destruct b; [done|]. by intros [= ->]. Qed.

Lemma assert_inv (b : bool) (e : exn) (w w0 : World) :
  (if b then mret () else raise e) w = (Ok (), w0) → b = true ∧ w0 = w.
Proof. destruct b; [|done]. by intros [= ->]. Qed.

(** ** Training batches *)

Lemma get_training_batch_inv (x : Z) (w w' : World) :
  _get_training_batch (H := MaterializedDataConstructor) x w = (Ok (), w') →
  ∃ chunk o k tpu tpi users negs gathered updated,
    let tpc := _train_pos_count (conf (self w)) in
    let idx := (λ j, np_mod j tpc) <$> chunk in
    _get_order_chunk w = (Ok chunk, chunk_world w o k)
    ∧ store w !! _train_pos_users (conf (self w)) = Some (Vec tpu)
    ∧ store w !! _train_pos_items (conf (self w)) = Some (Vec tpi)
    ∧ take_idx tpu idx = Ok users
    ∧ take_idx tpi idx = Ok gathered
    ∧ returned (materialized_lookup_negative_items
                  (mask_select users (negative_flags tpc chunk))
                  (chunk_world w o k)) = Ok negs
    ∧ mask_assign gathered (negative_flags tpc chunk) negs = Ok updated
    ∧ w' = training_world w o k users gathered updated (labels_of tpc chunk).
Proof.
  unfold _get_training_batch. intros H.
  destruct (get_order_chunk_total w) as (chunk & o & k & Hc).
  apply M_bind_inv in H as (chunk' & w1 & Hc' & H).
  rewrite Hc in Hc'. injection Hc' as <- <-.
  apply M_bind_inv in H as (s & w1 & [= <- <-] & H).
  apply M_bind_inv in H as (tpu & w1 & (Htpu & ->)%load_vec_inv & H).
  apply M_bind_inv in H as (users & w1 & (Husers & ->)%lift_inv & H).
  apply M_bind_inv in H as (negs & w1 & Hlook & H).
  pose proof (materialized_lookup_inv _ _ _ _ Hlook) as [-> _].
  apply (f_equal fst) in Hlook.
  apply M_bind_inv in H as (tpi & w1 & (Htpi & ->)%load_vec_inv & H).
  apply M_bind_inv in H as (gathered & w1 & (Hg & ->)%lift_inv & H).
  apply M_bind_inv in H as (items & w1 & [= <- <-] & H).
  apply M_bind_inv in H as (cur & w1 & (Hcur & ->)%load_vec_inv & H).
  apply M_bind_inv in H as (updated & w1 & (Hupd & ->)%lift_inv & H).
  apply M_bind_inv in H as ([] & w1 & [= <-] & H).
  injection H as <-.
  simpl in *. rewrite lookup_app_r, Nat.sub_diag in Hcur by done.
  injection Hcur as <-.
  exists chunk, o, k, tpu, tpi, users, negs, gathered, updated.
  repeat split; done.
Qed.

Lemma mask_fill_length a mask vals : length (mask_fill a mask vals) = length a.
Proof.
  revert mask vals. induction a as [|x a IH]; intros [|[] mask] vals; simpl;
    try done.
  - destruct vals; simpl; by rewrite IH.
  - by rewrite IH.
Qed.

Lemma mask_assign_length a mask vals r :
  mask_assign a mask vals = Ok r → length r = length a.
Proof.
  unfold mask_assign. destruct (broadcast_to _ vals); simpl; [|done].
  intros [= <-]. apply mask_fill_length.
Qed.

Lemma take_idx_length a idx r : take_idx a idx = Ok r → length r = length idx.
Proof. apply res_mapM_length. Qed.

(** C8, as amended: a training batch put on the queue by
    [_get_training_batch] is a triple of arrays of [_train_batch_size]
    entries each (for a batch size between one and the size of an epoch).
    Its indices are what is left of the current permutation, followed, when
    fewer than a batch are left, by the first indices of the next
    permutation: the ragged last batch of an epoch is completed with the
    users, items and labels of those indices and is not padded with zeros. *)
Theorem training_batch_fixed_size (w w' : World) (E b t off : nat) (x : Z) :
  let ps := perm_stream (_shuffle_producer (self w)) in
  let tpc := _train_pos_count (conf (self w)) in
  _train_batch_size (conf (self w)) = Z.of_nat b →
  0 < b ≤ E →
  (∀ k, length (ps k) = E) →
  cursor_at w E t off →
  _get_training_batch (H := MaterializedDataConstructor) x w = (Ok (), w') →
  ∃ users items_loc items labels tpu,
    let batch_indices :=
      take b (drop off (ps t)) ++ take (b - (E - off)) (ps (S t)) in
    _training_queue (self w')
    = _training_queue (self w) ++ [(users, items_loc, labels)]
    ∧ store w' !! items_loc = Some (Vec items)
    ∧ length users = b ∧ length items = b ∧ length labels = b
    ∧ length batch_indices = b
    ∧ store w !! _train_pos_users (conf (self w)) = Some (Vec tpu)
    ∧ take_idx tpu ((λ j, np_mod j tpc) <$> batch_indices) = Ok users
    ∧ labels = labels_of tpc batch_indices
    ∧ ∃ tpi gathered negatives,
        store w !! _train_pos_items (conf (self w)) = Some (Vec tpi)
        ∧ take_idx tpi ((λ j, np_mod j tpc) <$> batch_indices) = Ok gathered
        ∧ returned (materialized_lookup_negative_items
                      (mask_select users (negative_flags tpc batch_indices))
                      (_get_order_chunk w).2) = Ok negatives
        ∧ mask_assign gathered (negative_flags tpc batch_indices) negatives
          = Ok items.
Proof.
  intros ps tpc HB Hb HE Hc H.
  apply get_training_batch_inv in H
    as (chunk & o & k & tpu & tpi & users & negs & gathered & updated
        & Hchunk & Htpu & Htpi & Husers & Hg & Hlook & Hupd & ->).
  destruct (get_order_chunk_step w E b t off HB Hb HE Hc)
    as (o' & k' & t' & off' & Hstep & _ & _).
  rewrite Hchunk in Hstep. injection Hstep as -> Hw.
  assert (chunk_world w o k = (_get_order_chunk w).2) as Hw'
    by (by rewrite Hchunk).
  rewrite Hw' in Hlook. clear Hw Hw' Hchunk.
  assert (off < E) as Hoff.
  { destruct Hc as [(_ & _ & ->)|(_ & _ & ?)]; lia. }
  fold ps tpc in Husers, Hg, Hupd, Hlook |- *.
  assert (take b (drop off (ps t ++ ps (S t)))
          = take b (drop off (ps t)) ++ take (b - (E - off)) (ps (S t)))
    as Hsplit.
  { rewrite drop_app_le by (rewrite HE; lia).
    by rewrite take_app, length_drop, HE. }
  rewrite Hsplit in *.
  assert (length (take b (drop off (ps t)) ++ take (b - (E - off)) (ps (S t)))
          = b) as Hlen.
  { rewrite <- Hsplit, length_take, length_drop, length_app, !HE. lia. }
  exists users, (length (store w)), updated,
    (labels_of tpc (take b (drop off (ps t))
                    ++ take (b - (E - off)) (ps (S t)))), tpu.
  simpl. split; [done|]. split.
  { rewrite list_lookup_insert_eq; [done|]. rewrite length_app. simpl. lia. }
  apply take_idx_length in Husers as Hul. apply take_idx_length in Hg as Hgl.
  apply mask_assign_length in Hupd as Hupl.
  rewrite length_fmap in Hul, Hgl.
  split; [lia|]. split; [lia|].
  split. { unfold labels_of, negative_flags. by rewrite !length_fmap. }
  split; [done|]. split; [done|]. split; [done|]. split; [done|].
  by exists tpi, gathered, negs.
Qed.

(** ** Eval batches *)

Lemma get_eval_batch_inv `{H : NegativeSampler} (N i : Z) (w w' : World)
    (r : eval_batch) :
  _get_eval_batch N i w = (Ok r, w') →
  ∃ epu epi sampled negatives joined w1,
    let c := conf (self w) in
    let low := (i * _eval_users_per_batch c)%Z in
    let high := ((i + 1) * _eval_users_per_batch c)%Z in
    let users := replicate (Z.to_nat (1 + N)) <$> slice low high epu in
    let pad := eval_padding N (_eval_users_per_batch c) (length users) in
    store w !! _eval_pos_users c = Some (Vec epu)
    ∧ store w !! _eval_pos_items c = Some (Vec epi)
    ∧ lookup_negative_items (concat (slice_to (-1) <$> users)) w
      = (Ok sampled, w1)
    ∧ reshape_rows N sampled = Ok negatives
    ∧ prepend_column (slice low high epi) negatives = Ok joined
    ∧ w' = eval_world w1 joined
    ∧ r = (concat (users ++ pad),
           concat ((swap_ends <$> joined) ++ pad),
           concat ((swap_ends <$> mask_duplicates joined) ++ pad)).
Proof.
  unfold _get_eval_batch. intros HH.
  apply M_bind_inv in HH as (s & w0 & [= <- <-] & HH).
  apply M_bind_inv in HH as (epu & w0 & (Hepu & ->)%load_vec_inv & HH).
  apply M_bind_inv in HH as ([] & w0 & (_ & ->)%guard_inv & HH).
  apply M_bind_inv in HH as (epi & w0 & (Hepi & ->)%load_vec_inv & HH).
  apply M_bind_inv in HH as (sampled & w1 & Hlook & HH).
  apply M_bind_inv in HH as (negatives & w0 & (Hneg & ->)%lift_inv & HH).
  apply M_bind_inv in HH as (joined & w0 & (Hj & ->)%lift_inv & HH).
  apply M_bind_inv in HH as (il & w0 & [= <- <-] & HH).
  apply M_bind_inv in HH as (m & w0 & (Hm & ->)%load_mat_inv & HH).
  simpl in Hm. rewrite list_lookup_middle in Hm by done. injection Hm as <-.
  apply M_bind_inv in HH as (dl & w0 & [= <- <-] & HH).
  apply M_bind_inv in HH as (m & w0 & (Hm & ->)%load_mat_inv & HH).
  simpl in Hm. rewrite <- (assoc_L (++)) in Hm. simpl in Hm.
  rewrite list_lookup_middle in Hm by done. injection Hm as <-.
  apply M_bind_inv in HH as ([] & w0 & [= <-] & HH).
  apply M_bind_inv in HH as (d & w0 & (Hd & ->)%load_mat_inv & HH).
  simpl in Hd. rewrite length_app in Hd. simpl in Hd.
  rewrite list_lookup_insert_ne in Hd by lia.
  rewrite list_lookup_middle in Hd by (by rewrite length_app).
  injection Hd as <-.
  apply M_bind_inv in HH as ([] & w0 & [= <-] & HH).
  apply M_bind_inv in HH as (items_v & w0 & (Hiv & ->)%load_mat_inv & HH).
  apply M_bind_inv in HH as (mask_v & w0 & (Hmv & ->)%load_mat_inv & HH).
  simpl in Hiv, Hmv. rewrite length_app in Hiv, Hmv. simpl in Hiv, Hmv.
  rewrite list_lookup_insert_ne in Hiv by lia.
  rewrite list_lookup_insert_eq in Hiv
    by (rewrite !length_app; simpl; lia).
  rewrite list_lookup_insert_eq in Hmv
    by (rewrite length_insert, !length_app; simpl; lia).
  injection Hiv as <-. injection Hmv as <-.
  apply M_bind_inv in HH as ([] & w0 & (_ & ->)%assert_inv & HH).
  exists epu, epi, sampled, negatives, joined, w1. simpl.
  split; [done|]. split; [done|]. split; [done|]. split; [done|].
  split; [done|].
  unfold eval_world, eval_padding.
  rewrite length_fmap in HH. rewrite !length_fmap.
  case_bool_decide; injection HH as <- <-.
  - split; [|done]. destruct w1. unfold set_store. simpl.
    by rewrite !length_app, Nat.add_1_r.
  - rewrite !app_nil_r. split; [|done]. destruct w1. unfold set_store. simpl.
    by rewrite !length_app, Nat.add_1_r.
Qed.

Lemma chunks_rows (rows n : nat) (a : list Z) :
  length a = rows * n →
  length (chunks rows n a) = rows
  ∧ Forall (λ r, length r = n) (chunks rows n a).
Proof.
  revert a. induction rows as [|rows IH]; intros a Ha; simpl; [done|].
  destruct (IH (drop n a)) as [Hl Hf]. { rewrite length_drop. lia. }
  split; [by rewrite Hl|]. constructor; [|done]. rewrite length_take. lia.
Qed.

Lemma reshape_rows_inv (n : Z) (a : list Z) (m : list (list Z)) :
  reshape_rows n a = Ok m →
  (0 < n)%Z ∧ Forall (λ r, length r = Z.to_nat n) m.
Proof.
  unfold reshape_rows. case_bool_decide as Hn; [done|].
  case_bool_decide as Hm; [done|]. intros [= <-]. split; [lia|].
  apply chunks_rows.
  assert (Z.of_nat (length a) `mod` n = 0)%Z as Hmod by lia.
  apply Z.mod_divide in Hmod as [q Hq]; [|lia].
  assert (length a = Z.to_nat q * Z.to_nat n) as -> by nia.
  rewrite Nat.div_mul by lia. done.
Qed.

Lemma prepend_column_inv column m joined :
  prepend_column column m = Ok joined →
  length column = length m ∧ joined = zip_with cons column m.
Proof.
  unfold prepend_column. case_bool_decide as Hlen; [|done]. by intros [= <-].
Qed.

Lemma prepend_column_lookup column m joined r p :
  prepend_column column m = Ok joined →
  column !! r = Some p →
  ∃ ns, m !! r = Some ns ∧ joined !! r = Some (p :: ns).
Proof.
  intros [Hlen ->]%prepend_column_inv Hp.
  destruct (lookup_lt_is_Some_2 m r) as [ns Hns].
  { rewrite <- Hlen. by eapply lookup_lt_Some. }
  exists ns. split; [done|]. rewrite lookup_zip_with, Hp. simpl. by rewrite Hns.
Qed.

Lemma concat_row (m : list (list Z)) (W r : nat) (row : list Z) :
  Forall (λ x, length x = W) m → m !! r = Some row →
  take W (drop (r * W) (concat m)) = row.
Proof.
  intros Hm. revert r. induction Hm as [|x m Hx Hm IH]; intros r Hr; [done|].
  destruct r as [|r].
  - injection Hr as ->. rewrite Nat.mul_0_l, drop_0. simpl.
    by rewrite take_app_length'.
  - replace (S r * W) with (W + r * W) by lia. simpl.
    rewrite drop_app_add' by done. by apply IH.
Qed.

Lemma concat_uniform_length (m : list (list Z)) (W : nat) :
  Forall (λ x, length x = W) m → length (concat m) = length m * W.
Proof.
  induction 1 as [|x m Hx Hm IH]; [done|]. simpl.
  rewrite length_app, IH, Hx. lia.
Qed.

Lemma concat_row_app (m pad : list (list Z)) (W r : nat) (row : list Z) :
  Forall (λ x, length x = W) m → m !! r = Some row →
  take W (drop (r * W) (concat (m ++ pad))) = row.
Proof.
  intros Hm Hr. rewrite concat_app, take_drop_app_le.
  - by apply concat_row.
  - rewrite (concat_uniform_length m W Hm).
    apply lookup_lt_Some in Hr. nia.
Qed.

Lemma swap_ends_length (row : list Z) : length (swap_ends row) = length row.
Proof.
  unfold swap_ends. destruct (row !! 0), (last row); try done.
  by rewrite !length_insert.
Qed.

(** The row after the exchange, entry by entry. *)
Lemma swap_ends_lookup (row : list Z) (c : nat) :
  c < length row →
  swap_ends row !! c
  = if decide (c = pred (length row)) then row !! 0
    else if decide (c = 0) then last row else row !! c.
Proof.
  intros Hc. unfold swap_ends.
  destruct (row !! 0) as [a|] eqn:Ha.
  2:{ apply lookup_ge_None in Ha. lia. }
  destruct (last row) as [z|] eqn:Hz.
  2:{ apply last_None in Hz. subst. simpl in Hc. lia. }
  rewrite !list_lookup_insert, length_insert.
  repeat case_decide; try done; lia.
Qed.

Lemma mask_duplicates_row_length (seen row : list Z) :
  length (mask_duplicates_row seen row) = length row.
Proof.
  revert seen. induction row as [|x row IH]; intros seen; simpl; [done|].
  by rewrite IH.
Qed.

(** The flag of an entry says whether its value occurs to its left. *)
Lemma mask_duplicates_row_lookup (seen row : list Z) (c : nat) (x : Z) :
  row !! c = Some x →
  mask_duplicates_row seen row !! c
  = Some (if bool_decide (x ∈ seen ∨ x ∈ take c row) then 1 else 0)%Z.
Proof.
  revert seen c. induction row as [|y row IH]; intros seen c Hx; [done|].
  destruct c as [|c]; simpl in *.
  - injection Hx as ->. f_equal.
    erewrite (bool_decide_ext (x ∈ seen)); [done|].
    rewrite elem_of_nil. tauto.
  - rewrite (IH _ _ Hx). f_equal.
    erewrite bool_decide_ext; [done|]. rewrite !elem_of_cons. tauto.
Qed.

(** C4, as amended: in an eval batch returned by [_get_eval_batch], each
    row that is not padding has [1 + NUM_EVAL_NEGATIVES] columns, its last
    column is the held-out positive of the row, and the duplicate flag of
    that column is 0, since the flags are computed while the positive is
    still the first column.  Sampled negatives may equal the positive: every
    other column that holds the positive is flagged 1, so the last column is
    the only unflagged column that equals the positive. *)
Theorem eval_batch_positive_last `{H : NegativeSampler} (N i : Z)
    (w w' : World) (users items mask epi : list Z) (r : nat) (pos : Z) :
  let c := conf (self w) in
  let W := Z.to_nat (1 + N) in
  let row_items := take W (drop (r * W) items) in
  let row_mask := take W (drop (r * W) mask) in
  _get_eval_batch N i w = (Ok (users, items, mask), w') →
  store w !! _eval_pos_items c = Some (Vec epi) →
  slice (i * _eval_users_per_batch c) ((i + 1) * _eval_users_per_batch c) epi
    !! r = Some pos →
  (0 < N)%Z
  ∧ length row_items = W ∧ length row_mask = W
  ∧ last row_items = Some pos
  ∧ last row_mask = Some 0%Z
  ∧ ∀ k, row_items !! k = Some pos →
         (row_mask !! k = Some 0%Z ↔ k = pred W)
         ∧ (k ≠ pred W → row_mask !! k = Some 1%Z).
Proof.
  intros c W row_items row_mask HH Hepi Hpos.
  apply get_eval_batch_inv in HH
    as (epu & epi' & sampled & negatives & joined & w1
        & _ & Hepi' & _ & Hneg & Hj & _ & Hr).
  fold c in Hepi', Hj, Hr. rewrite Hepi in Hepi'.
  injection Hepi' as <-. injection Hr as _ -> ->.
  apply reshape_rows_inv in Hneg as [HN Hrows].
  destruct (prepend_column_lookup _ _ _ _ _ Hj Hpos) as (ns & Hns & Hjr).
  assert (length ns = Z.to_nat N) as Hnsl.
  { by eapply (proj1 (Forall_lookup _ _) Hrows). }
  assert (length (pos :: ns) = W) as HrowW.
  { simpl. rewrite Hnsl. unfold W. lia. }
  assert (Forall (λ x, length x = W) joined) as HjW.
  { apply prepend_column_inv in Hj as [_ ->]. apply Forall_lookup. intros k x.
    rewrite lookup_zip_with. intros Hx.
    apply bind_Some in Hx as (p' & _ & Hx).
    apply bind_Some in Hx as (ns' & Hk & [= <-]). simpl.
    rewrite (proj1 (Forall_lookup _ _) Hrows _ _ Hk). unfold W. lia. }
  assert (row_items = swap_ends (pos :: ns)) as Hri.
  { apply concat_row_app.
    - apply Forall_fmap. eapply Forall_impl; [exact HjW|].
      intros x Hx. simpl. by rewrite swap_ends_length.
    - by rewrite list_lookup_fmap, Hjr. }
  assert (row_mask = swap_ends (mask_duplicates_row [] (pos :: ns))) as Hrm.
  { apply concat_row_app.
    - apply Forall_fmap. unfold mask_duplicates. apply Forall_fmap.
      eapply Forall_impl; [exact HjW|].
      intros x Hx. simpl. by rewrite swap_ends_length, mask_duplicates_row_length.
    - unfold mask_duplicates. by rewrite !list_lookup_fmap, Hjr. }
  clearbody row_items row_mask. subst row_items row_mask.
  assert (0 < W) as HW0 by (unfold W; lia).
  split; [done|].
  split. { by rewrite swap_ends_length. }
  split. { by rewrite swap_ends_length, mask_duplicates_row_length. }
  split.
  { rewrite last_lookup, swap_ends_length, swap_ends_lookup by lia.
    by rewrite decide_True. }
  split.
  { rewrite last_lookup, swap_ends_length, mask_duplicates_row_length.
    rewrite swap_ends_lookup by (rewrite mask_duplicates_row_length; lia).
    by rewrite mask_duplicates_row_length, decide_True. }
  intros k Hk.
  assert (k < W) as HkW.
  { apply lookup_lt_Some in Hk. by rewrite swap_ends_length, HrowW in Hk. }
  destruct (decide (k = pred W)) as [->|Hne].
  { split; [|done]. split; [done|]. intros _.
    rewrite swap_ends_lookup by (rewrite mask_duplicates_row_length; lia).
    by rewrite mask_duplicates_row_length, HrowW, decide_True. }
  assert (swap_ends (mask_duplicates_row [] (pos :: ns)) !! k = Some 1%Z) as H1.
  { rewrite swap_ends_lookup in Hk |- * by
      (rewrite ?mask_duplicates_row_length; lia).
    rewrite mask_duplicates_row_length, HrowW in *.
    rewrite decide_False in Hk |- * by done.
    destruct (decide (k = 0)) as [->|Hk0].
    - rewrite last_lookup in Hk |- *.
      rewrite mask_duplicates_row_length, HrowW in *.
      rewrite (mask_duplicates_row_lookup _ _ _ _ Hk).
      rewrite bool_decide_eq_true_2; [done|]. right.
      apply elem_of_take. exists 0. split; [done|lia].
    - rewrite (mask_duplicates_row_lookup _ _ _ _ Hk).
      rewrite bool_decide_eq_true_2; [done|]. right.
      apply elem_of_take. exists 0. split; [done|lia]. }
  split; [|done]. rewrite H1. split; [done|]. by intros ->.
Qed.

(** ** The arrays are read only *)

Lemma kept_below_refl n w : kept_below n w w.
Proof. by repeat split. Qed.

Lemma kept_below_trans n w1 w2 w3 :
  kept_below n w1 w2 → kept_below n w2 w3 → kept_below n w1 w3.
Proof.
  intros (Hc & Ht & Hp & Hl & Hs) (Hc' & Ht' & Hp' & Hl' & Hs').
  repeat split; try congruence; try lia.
  intros l Hn. by rewrite Hs', Hs.
Qed.

Lemma frames_bind {A B} n (m : M A) (f : A → M B) (Q : A → Prop)
    (R : B → Prop) :
  frames n m Q → (∀ a, Q a → frames n (f a) R) → frames n (m ≫= f) R.
Proof.
  intros Hm Hf w Hn. unfold mbind, M_bind.
  destruct (Hm w Hn) as [Hk HQ]. destruct (m w) as [[a|e] w1]; simpl in *.
  - destruct (Hf a (HQ a eq_refl) w1) as [Hk' HR].
    { destruct Hk as (_ & _ & _ & ? & _). lia. }
    split; [by eapply kept_below_trans|done].
  - split; [done|]. by intros.
Qed.

Lemma frames_same {A} n (m : M A) :
  (∀ w, (m w).2 = w) → frames n m (λ _, True).
Proof. intros Hm w _. rewrite Hm. split; [apply kept_below_refl|done]. Qed.

Lemma frames_ret {A} n (a : A) : frames n (mret a) (λ _, True).
Proof. by apply frames_same. Qed.
Lemma frames_raise {A} n e : frames n (raise (A := A) e) (λ _, True).
Proof. by apply frames_same. Qed.
Lemma frames_lift {A} n (r : res A) : frames n (lift r) (λ _, True).
Proof. by apply frames_same. Qed.
Lemma frames_get_self n : frames n get_self (λ _, True).
Proof. by apply frames_same. Qed.
Lemma frames_attr {A} n (o : option A) : frames n (attr o) (λ _, True).
Proof. apply frames_same. by destruct o. Qed.
Lemma frames_load_vec n l : frames n (load_vec l) (λ _, True).
Proof.
  apply frames_same. intros w. unfold load_vec.
  by destruct (store w !! l) as [[]|].
Qed.
Lemma frames_load_mat n l : frames n (load_mat l) (λ _, True).
Proof.
  apply frames_same. intros w. unfold load_mat.
  by destruct (store w !! l) as [[]|].
Qed.
Lemma frames_if {A} n (b : bool) (m1 m2 : M A) Q :
  frames n m1 Q → frames n m2 Q → frames n (if b then m1 else m2) Q.
Proof. by destruct b. Qed.

(** A new buffer lies above every buffer there was. *)
Lemma frames_new_array n a : frames n (new_array a) (λ l, n ≤ l).
Proof.
  intros w Hn. unfold new_array, kept_below. simpl.
  split; [|by intros ? [= <-]].
  split; [done|]. split; [done|]. split; [done|]. split.
  - rewrite length_app. lia.
  - intros l Hl. by rewrite lookup_app_l by lia.
Qed.

(** A write in place is harmless when it goes to a new buffer. *)
Lemma frames_store_array n l a :
  n ≤ l → frames n (store_array l a) (λ _, True).
Proof.
  intros Hl w Hn. unfold store_array, kept_below. simpl. split; [|done].
  split; [done|]. split; [done|]. split; [done|]. split.
  - by rewrite length_insert.
  - intros k Hk. by rewrite list_lookup_insert_ne by lia.
Qed.

Lemma frames_rand n counts :
  frames n (slightly_biased_randint counts) (λ _, True).
Proof. intros w Hn. simpl. by repeat split. Qed.

Lemma frames_queue_put n b : frames n (queue_put b) (λ _, True).
Proof. intros w Hn. simpl. by repeat split. Qed.

Lemma frames_get_order_chunk n : frames n _get_order_chunk (λ _, True).
Proof.
  intros w Hn. destruct (get_order_chunk_total w) as (c & o & k & ->).
  simpl. by repeat split.
Qed.

Local Ltac frames_prim :=
  first [ apply frames_ret | apply frames_raise | apply frames_lift
        | apply frames_get_self | apply frames_attr | apply frames_load_vec
        | apply frames_load_mat | apply frames_new_array
        | apply frames_rand | apply frames_queue_put
        | apply frames_get_order_chunk
        | apply frames_store_array; lia
        | apply frames_if; frames_prim ].
Local Ltac frames_steps :=
  repeat first [ frames_prim
               | eapply frames_bind; [frames_prim|]; intros ? ?; cbv beta in * ].

Lemma frames_materialized_lookup n us :
  frames n (materialized_lookup_negative_items us) (λ _, True).
Proof. unfold materialized_lookup_negative_items. frames_steps. Qed.

Lemma frames_get_training_batch n x :
  frames n (_get_training_batch (H := MaterializedDataConstructor) x)
         (λ _, True).
Proof.
  unfold _get_training_batch. simpl.
  pose proof (frames_materialized_lookup n) as Hlook.
  frames_steps.
  eapply frames_bind; [apply Hlook|]. intros ? ?. frames_steps.
Qed.

Lemma frames_get_eval_batch N n i :
  frames n (_get_eval_batch N (H := MaterializedDataConstructor) i)
         (λ _, True).
Proof.
  unfold _get_eval_batch. simpl.
  pose proof (frames_materialized_lookup n) as Hlook.
  frames_steps.
  eapply frames_bind; [apply Hlook|]. intros ? ?. frames_steps.
Qed.

(** C9: [_get_training_batch], [_get_eval_batch] and
    [lookup_negative_items] leave every buffer that exists before the call
    as it is, among them the four interaction arrays, the negative table
    and the counts, and the object keeps naming the same buffers, whether
    the call returns or raises; the writes in place go to buffers created
    during the call. *)
Theorem batch_construction_keeps_arrays (N : Z) (op : batch_op) (w : World) :
  arrays_kept w (run_batch_op N op w).2.
Proof.
  assert (frames (length (store w)) (run_batch_op N op) (λ _, True)) as Hf.
  { destruct op; simpl.
    - apply frames_get_training_batch.
    - eapply frames_bind; [apply frames_get_eval_batch|].
      intros ? ?. apply frames_ret.
    - eapply frames_bind; [apply frames_materialized_lookup|].
      intros ? ?. apply frames_ret. }
  destruct (Hf w (le_n _)) as [(Hc & Ht & Hp & _ & Hs) _].
  repeat split; try done. intros l a Hl. rewrite Hs; [done|].
  by eapply lookup_lt_Some.
Qed.

(** ** The statements at the small instances *)

Lemma training_batch_fixed_size_witness :
  let w := world_after
             (_get_training_batch (H := MaterializedDataConstructor) 0
                                  small_ready) in
  let w' := world_after
              (_get_training_batch (H := MaterializedDataConstructor) 1 w) in
  let ps := perm_stream (_shuffle_producer (self w)) in
  let tpc := _train_pos_count (conf (self w)) in
  ∃ users items_loc items labels tpu,
    let batch_indices :=
      take 4 (drop 4 (ps 0)) ++ take (4 - (6 - 4)) (ps 1) in
    _training_queue (self w')
    = _training_queue (self w) ++ [(users, items_loc, labels)]
    ∧ store w' !! items_loc = Some (Vec items)
    ∧ length users = 4 ∧ length items = 4 ∧ length labels = 4
    ∧ length batch_indices = 4
    ∧ store w !! _train_pos_users (conf (self w)) = Some (Vec tpu)
    ∧ take_idx tpu ((λ j, np_mod j tpc) <$> batch_indices) = Ok users
    ∧ labels = labels_of tpc batch_indices
    ∧ ∃ tpi gathered negatives,
        store w !! _train_pos_items (conf (self w)) = Some (Vec tpi)
        ∧ take_idx tpi ((λ j, np_mod j tpc) <$> batch_indices) = Ok gathered
        ∧ returned (materialized_lookup_negative_items
                      (mask_select users (negative_flags tpc batch_indices))
                      (_get_order_chunk w).2) = Ok negatives
        ∧ mask_assign gathered (negative_flags tpc batch_indices) negatives
          = Ok items.
Proof.
  intros w w'.
  apply (training_batch_fixed_size w w' 6 4 0 4 1);
    [ reflexivity
    | lia
    | intros k; simpl; unfold small_perms; destruct (Nat.even k); reflexivity
    | right; split; [reflexivity | split; [reflexivity | lia]]
    | vm_compute; reflexivity ].
Defined.

(** C8 as stated fails twice.  With epochs of three indices and batches of
    two, the second batch is the ragged last one of its epoch; its second
    entry is user 0 with item 1 and label 1, the first index of the next
    permutation, and not a padding of zeros.  With epochs of three indices
    and batches of five, the second batch has four entries. *)
Lemma ragged_batch_takes_next_epoch :
  (_elements_in_epoch (conf (self ragged_world)) = 3%Z
   ∧ _train_batch_size (conf (self ragged_world)) = 2%Z
   ∧ queued (world_after
               (mapM (_get_training_batch (H := MaterializedDataConstructor))
                     [0; 1]%Z ragged_world))
     = [([0; 1], Some (Vec [1; 2]), [1; 1]);
        ([0; 0], Some (Vec [0; 1]), [1; 1])]%Z)
  ∧ (_elements_in_epoch (conf (self short_epoch_ready)) = 3%Z
     ∧ _train_batch_size (conf (self short_epoch_ready)) = 5%Z
     ∧ queued (world_after
                 (mapM (_get_training_batch
                          (H := MaterializedDataConstructor))
                       [0; 1]%Z short_epoch_ready))
       = [([0; 0; 1; 0; 0], Some (Vec [0; 1; 2; 0; 1]), [1; 1; 1; 1; 1]);
          ([1; 0; 0; 1], Some (Vec [2; 0; 1; 2]), [1; 1; 1; 1])]%Z).
Proof. repeat split; reflexivity. Qed.

Lemma eval_batch_positive_last_witness :
  let W := Z.to_nat (1 + 2) in
  let row_items := take W (drop (0 * W) [2; 2; 2; 2; 2; 1]%Z) in
  let row_mask := take W (drop (0 * W) [1; 1; 0; 1; 0; 0]%Z) in
  (0 < 2)%Z
  ∧ length row_items = W ∧ length row_mask = W
  ∧ last row_items = Some 2%Z
  ∧ last row_mask = Some 0%Z
  ∧ ∀ k, row_items !! k = Some 2%Z →
         (row_mask !! k = Some 0%Z ↔ k = pred W)
         ∧ (k ≠ pred W → row_mask !! k = Some 1%Z).
Proof.
  apply (eval_batch_positive_last (H := MaterializedDataConstructor)
           2 0 small_ready
           (world_after
              (_get_eval_batch 2 (H := MaterializedDataConstructor) 0
                               small_ready))
           [0; 0; 0; 1; 1; 1]%Z [2; 2; 2; 2; 2; 1]%Z [1; 1; 0; 1; 0; 0]%Z
           [2; 1]%Z 0 2%Z);
    [vm_compute; reflexivity | reflexivity | reflexivity].
Defined.

(** C4 as stated fails: user 0 has the held-out positive 2, and both
    sampled negatives of the row are item 2 as well, so three columns of
    the row equal the positive, not one. *)
Lemma eval_row_repeats_positive :
  store small_ready !! _eval_pos_items (conf (self small_ready))
  = Some (Vec [2; 1]%Z)
  ∧ returned (_get_eval_batch 2 (H := MaterializedDataConstructor) 0
                              small_ready)
    = Ok ([0; 0; 0; 1; 1; 1], [2; 2; 2; 2; 2; 1], [1; 1; 0; 1; 0; 0])%Z.
Proof. split; reflexivity. Qed.

(** ** The negative table of the materialized variant *)

(** C1 fails at two users, three items and the interactions (0,0), (0,1),
    (1,2): the last bound of [index_bounds] is [_num_users] = 2 instead of
    the number of interactions, so the slice of user 1 is empty; its count
    is 3 and its row holds all three items, although item 2 is a positive
    of user 1 and [3 + 1] is not [_num_items]. *)
Theorem construct_lookup_last_user_wrong :
  _negative_table (self small_ready) = Some 4
  ∧ _per_user_neg_count (self small_ready) = Some 5
  ∧ store small_ready !! 4
    = Some (Mat [[2; 65535; 65535]; [0; 1; 2]]%Z)
  ∧ store small_ready !! 5 = Some (Vec [1; 3]%Z)
  ∧ positives_of [0; 0; 1]%Z [0; 1; 2]%Z 1 = [2]%Z
  ∧ (3 + Z.of_nat (length (positives_of [0; 0; 1] [0; 1; 2] 1))
     ≠ _num_items (conf (self small_ready)))%Z.
Proof. repeat split; try reflexivity. vm_compute. discriminate. Qed.

(** C2 fails at the same input: the count of user 1 is 3, the generator
    draws the index 2, which is below 3, and the item returned for user 1
    is its positive 2. *)
Theorem lookup_returns_positive_of_last_user :
  (∀ n i c, (0 < c)%Z →
     (0 ≤ rand_oracle small_ready n i c < c)%Z)
  ∧ store small_ready !! 5 = Some (Vec [1; 3]%Z)
  ∧ returned (materialized_lookup_negative_items [1]%Z small_ready)
    = Ok [2]%Z
  ∧ 2%Z ∈ positives_of [0; 0; 1]%Z [0; 1; 2]%Z 1.
Proof.
  split. { intros n i c Hc. simpl. unfold last_index. lia. }
  split; [reflexivity|]. split; [reflexivity|].
  simpl. apply elem_of_cons. by left.
Qed.

(** ** [run] does not read the stop flag *)

(** C7 fails with [maximum_number_epochs] = 3 and [stop_loop] called after
    the first training epoch: the flag is set, and [run] goes on to build
    the eval epoch and two more training epochs, six training batches in
    all. *)
Theorem run_ignores_stop_flag :
  let m := schedule 2 (H := MaterializedDataConstructor)
             [Constructor; Constructor; Constructor; Caller;
              Constructor; Constructor; Constructor]
             (started (H := MaterializedDataConstructor) small_world) in
  log m = [Began ShuffleStart; Began ConstructLookupVariables;
           Began ConstructTrainingEpoch; StopLoopCalled;
           Began ConstructEvalEpoch; Began ConstructTrainingEpoch;
           Began ConstructTrainingEpoch]
  ∧ _stop_loop (self (world m)) = true
  ∧ pending m = []
  ∧ length (_training_queue (self (world m))) = 6.
Proof. repeat split; reflexivity. Qed.

(** * Further properties of the code *)

(** ** Batch counts and the sizes fixed at construction *)

Local Close Scope nat_scope.

Lemma count_batches_spec (example_count batch_size batches_per_step : Z) :
  0 < batch_size → 0 < batches_per_step →
  ∃ n, _count_batches example_count batch_size batches_per_step = Ok n
       ∧ (batches_per_step | n)
       ∧ example_count ≤ n * batch_size
       ∧ ∀ m, (batches_per_step | m) → example_count ≤ m * batch_size → n ≤ m.
Proof.
  intros Hb Hs. eexists. split.
  { unfold _count_batches, floordiv.
    rewrite !bool_decide_eq_false_2 by lia. simpl.
    by rewrite !round_up_div by lia. }
  pose proof (ceil_div_spec example_count batch_size Hb) as He.
  pose proof (ceil_div_spec (ceil_div example_count batch_size)
                batches_per_step Hs) as Hc.
  split; [by apply Z.divide_factor_r|]. split; [nia|].
  intros m [k ->] Hm.
  assert (ceil_div example_count batch_size ≤ k * batches_per_step)
    by (by apply ceil_div_least).
  assert (ceil_div (ceil_div example_count batch_size) batches_per_step ≤ k)
    by (by apply ceil_div_least).
  nia.
Qed.

(** X1: with a positive batch size and a positive number of batches per
    step, [_count_batches] returns the least multiple of
    [batches_per_step] whose batches hold [example_count] examples. *)
Theorem count_batches_least_multiple
    (example_count batch_size batches_per_step : Z) :
  0 < batch_size → 0 < batches_per_step →
  ∃ n, _count_batches example_count batch_size batches_per_step = Ok n
       ∧ (batches_per_step | n)
       ∧ example_count ≤ n * batch_size
       ∧ ∀ m, (batches_per_step | m) → example_count ≤ m * batch_size → n ≤ m.
Proof. apply count_batches_spec. Qed.

Lemma count_batches_least_multiple_witness :
  ∃ n, _count_batches 10 4 2 = Ok n
       ∧ (2 | n) ∧ 10 ≤ n * 4
       ∧ ∀ m, (2 | m) → 10 ≤ m * 4 → n ≤ m.
Proof. apply (count_batches_least_multiple 10 4 2); lia. Defined.

(** X2: [_count_batches] raises exactly when [batch_size] or
    [batches_per_step] is zero, and what it raises is ZeroDivisionError. *)
Theorem count_batches_raises_iff_zero (example_count batch_size batches_per_step : Z) :
  ((∃ x, _count_batches example_count batch_size batches_per_step = Raise x)
   ↔ batch_size = 0 ∨ batches_per_step = 0)
  ∧ ∀ x, _count_batches example_count batch_size batches_per_step = Raise x →
         x = ZeroDivisionError.
Proof.
  unfold _count_batches, floordiv. split; [split|].
  - intros [x Hx].
    destruct (decide (batch_size = 0)); [by left|].
    destruct (decide (batches_per_step = 0)); [by right|].
    by rewrite !bool_decide_eq_false_2 in Hx by done.
  - intros [-> | ->].
    + rewrite (bool_decide_eq_true_2 (0 = 0)) by done. simpl. eauto.
    + destruct (bool_decide (batch_size = 0)); simpl; [eauto|].
      eauto.
  - intros x.
    destruct (bool_decide (batch_size = 0)); simpl; [by intros [= <-]|].
    destruct (bool_decide (batches_per_step = 0)); simpl; [|done].
    by intros [= <-].
Qed.

(** X3: the sizes a successful constructor fixes, for positive batch sizes
    and step counts and [NUM_EVAL_NEGATIVES >= 0]: an eval batch is a
    positive whole number of users with [1 + NUM_EVAL_NEGATIVES] entries
    each, the training batches of an epoch hold the elements of an epoch,
    the eval batches hold every user, and both batch counts are multiples
    of their batches per step. *)
Theorem init_sizes_cover
    (N : Z) (h : list ndarray) (perms : nat → list Z)
    (rand : nat → nat → Z → Z) (max_epochs num_users num_items : Z)
    (tpu tpi : loc) (tbs bpts ntn : Z) (epu epi : loc) (ebs bpes : Z)
    (w : World) :
  0 ≤ N → 0 < tbs → 0 < bpts → 0 < ebs → 0 < bpes →
  (__init__ N h perms rand max_epochs num_users num_items tpu tpi
            tbs bpts ntn epu epi ebs bpes).2 = Ok w →
  let c := conf (self w) in
  _eval_users_per_batch c * (1 + N) = _eval_batch_size c
  ∧ 0 < _eval_users_per_batch c
  ∧ _elements_in_epoch c ≤ _train_batches_per_epoch c * _train_batch_size c
  ∧ (_batches_per_train_step c | _train_batches_per_epoch c)
  ∧ _num_users c ≤ _eval_batches_per_epoch c * _eval_users_per_batch c
  ∧ (bpes | _eval_batches_per_epoch c).
Proof.
  intros HN Htbs Hbpts Hebs Hbpes. unfold __init__.
  destruct (h !! tpu) as [[users|]|]; try done.
  destruct (h !! tpi) as [[items|]|]; try done.
  case_bool_decide; [|done].
  destruct (count_batches_spec
              ((1 + ntn) * Z.of_nat (length users)) tbs bpts Htbs Hbpts)
    as (tb & -> & Hdiv & Hcov & _).
  unfold pymod. rewrite (bool_decide_eq_false_2 (1 + N = 0)) by lia.
  case_bool_decide as Hmod; [done|].
  destruct (count_batches_spec
              (num_users * (1 + N)) ebs bpes Hebs Hbpes)
    as (eb & -> & Hdiv' & Hcov' & _).
  simpl. intros [= <-]. simpl.
  assert (ebs `mod` (1 + N) = 0) as Hm by lia.
  pose proof (Z.div_mod ebs (1 + N) ltac:(lia)) as Hdm.
  rewrite Hm in Hdm.
  split; [lia|]. split; [nia|]. split; [done|]. split; [done|].
  split; [|done]. nia.
Qed.

Local Open Scope nat_scope.

(** ** Arrays fetched from the producer *)

Lemma order_chunks_cursor_set (l : list nat) (w : World) :
  l ≠ [] ∨ is_Some (_current_epoch_order (self w)) →
  is_Some (_current_epoch_order
             (self (mapM (λ _, _get_order_chunk) l w).2)).
Proof.
  revert w. induction l as [|x l IH]; intros w Hw.
  - destruct Hw as [?|?]; done.
  - simpl. unfold mbind, M_bind.
    destruct (get_order_chunk_total w) as (c & o & k & ->).
    specialize (IH (chunk_world w o k) (or_intror (mk_is_Some _ _ eq_refl))).
    destruct (mapM _ l (chunk_world w o k)) as [[cs|e] w1]; simpl in *; done.
Qed.

(** X4: on a fresh object with [1 <= train_batch_size <= E] and arrays of
    [E] indices from the producer, [n >= 1] calls of [_get_order_chunk]
    have fetched [1 + n * train_batch_size / E] arrays: the next array is
    fetched as soon as the current one is used up, before any of it is
    needed. *)
Theorem order_chunks_permutations_taken (w : World) (E b n : nat) :
  let ps := perm_stream (_shuffle_producer (self w)) in
  _current_epoch_order (self w) = None →
  perm_taken (_shuffle_producer (self w)) = 0 →
  _train_batch_size (conf (self w)) = Z.of_nat b →
  0 < b ≤ E →
  (∀ k, length (ps k) = E) →
  0 < n →
  perm_taken (_shuffle_producer (self (order_chunks n w).2))
  = S (n * b / E).
Proof.
  intros ps Ho Hk HB Hb HE Hn.
  destruct (order_chunks_from (seq 0 n) w E b 0 0 HB Hb HE)
    as (chunks & w' & t' & off' & Hrun & Hc & Hpos & _);
    [by left|].
  pose proof (order_chunks_cursor_set (seq 0 n) w) as Hset.
  unfold order_chunks. rewrite Hrun in Hset |- *. simpl in *.
  rewrite length_seq in Hpos.
  destruct Hc as [(Hnone & _)|(_ & -> & Hoff)].
  { destruct Hset as [? Hs]; [left; destruct n; [lia|done]|]. congruence. }
  f_equal. apply (Nat.div_unique _ _ _ off'); lia.
Qed.

Lemma order_chunks_permutations_taken_witness :
  perm_taken (_shuffle_producer (self (order_chunks 3 small_world).2))
  = S (3 * 4 / 6).
Proof.
  apply (order_chunks_permutations_taken small_world 6 4 3);
    [ reflexivity | reflexivity | reflexivity | lia
    | intros k; simpl; unfold small_perms; destruct (Nat.even k); reflexivity
    | lia ].
Defined.

(** ** What the eval side leaves alone *)

Lemma keeps_bind {A B X} (f : World → X) (m : M A) (k : A → M B) :
  keeps f m → (∀ a, keeps f (k a)) → keeps f (m ≫= k).
Proof.
  intros Hm Hk w. unfold mbind, M_bind. specialize (Hm w).
  destruct (m w) as [[a|e] w1]; simpl in *; [|done].
  by rewrite Hk.
Qed.

Lemma keeps_weaken {A X Y} (g : X → Y) (f : World → X) (m : M A) :
  keeps f m → keeps (λ w, g (f w)) m.
Proof. intros Hm w. by rewrite Hm. Qed.

Lemma keeps_same {A X} (f : World → X) (m : M A) :
  (∀ w, (m w).2 = w) → keeps f m.
Proof. intros Hm w. by rewrite Hm. Qed.

Lemma keeps_mapM {A B X} (f : World → X) (k : A → M B) (l : list A) :
  (∀ a, keeps f (k a)) → keeps f (mapM k l).
Proof.
  intros Hk. induction l as [|x l IH]; [done|]. simpl.
  apply keeps_bind; [done|]. intros y.
  apply keeps_bind; [done|]. by intros ys.
Qed.

Lemma keeps_if {A X} (f : World → X) (b : bool) (m1 m2 : M A) :
  keeps f m1 → keeps f m2 → keeps f (if b then m1 else m2).
Proof. by destruct b. Qed.

Lemma same_load_vec l w : (load_vec l w).2 = w.
Proof. unfold load_vec. by destruct (store w !! l) as [[]|]. Qed.
Lemma same_load_mat l w : (load_mat l w).2 = w.
Proof. unfold load_mat. by destruct (store w !! l) as [[]|]. Qed.
Lemma same_attr {A} (o : option A) w : (attr o w).2 = w.
Proof. by destruct o. Qed.

Local Ltac keeps_prim :=
  first [ apply keeps_same; first [ done | apply same_load_vec
                                  | apply same_load_mat | apply same_attr ]
        | by intros ?
        | apply keeps_if; keeps_prim
        | apply keeps_mapM; intros ? ].
Local Ltac keeps_steps :=
  repeat first [ keeps_prim
               | apply keeps_bind; [try keeps_prim|intros ?] ].

Lemma keeps_fill_user_row ib fs i :
  keeps (λ w, (control w, _eval_results (self w))) (fill_user_row ib fs i).
Proof. unfold fill_user_row. keeps_steps. Qed.

Lemma keeps_construct_lookup_variables :
  keeps (λ w, (control w, _eval_results (self w)))
        materialized_construct_lookup_variables.
Proof.
  unfold materialized_construct_lookup_variables.
  pose proof keeps_fill_user_row.
  keeps_steps.
Qed.

Lemma keeps_materialized_lookup us :
  keeps (λ w, (control w, _eval_results (self w)))
        (materialized_lookup_negative_items us).
Proof. unfold materialized_lookup_negative_items. keeps_steps. Qed.

Lemma keeps_get_eval_batch N i :
  keeps (λ w, (control w, _eval_results (self w)))
        (_get_eval_batch N (H := MaterializedDataConstructor) i).
Proof.
  unfold _get_eval_batch. simpl. pose proof keeps_materialized_lookup.
  keeps_steps.
Qed.

Lemma keeps_construct_eval_epoch N :
  keeps control (_construct_eval_epoch N (H := MaterializedDataConstructor)).
Proof.
  unfold _construct_eval_epoch.
  apply keeps_bind; [by apply keeps_same|]. intros s.
  apply keeps_bind.
  - apply keeps_mapM. intros i.
    apply (keeps_weaken fst _ _ (keeps_get_eval_batch N i)).
  - by intros r w.
Qed.

(** ** The shape and the rows of an eval batch *)

Lemma slice_length_le {A} (lo hi : Z) (a : list A) :
  (0 ≤ lo)%Z → (0 ≤ hi - lo)%Z →
  length (slice lo hi a) ≤ Z.to_nat (hi - lo).
Proof.
  intros Hlo Hd. unfold slice, slice_bound.
  rewrite !bool_decide_eq_false_2 by lia.
  rewrite length_drop, length_take. lia.
Qed.

Lemma eval_padding_rows (N upb : Z) (rows : nat) :
  (0 ≤ upb)%Z → rows ≤ Z.to_nat upb →
  rows + length (eval_padding N upb rows) = Z.to_nat upb.
Proof.
  intros Hu Hr. unfold eval_padding. case_bool_decide; simpl.
  - rewrite length_replicate. lia.
  - lia.
Qed.

Lemma eval_padding_uniform (N upb : Z) (rows : nat) :
  Forall (λ x, length x = Z.to_nat (1 + N)) (eval_padding N upb rows).
Proof.
  unfold eval_padding. case_bool_decide; [|done].
  apply Forall_replicate. by rewrite length_replicate.
Qed.

Lemma concat_replicate_zeros (k W : nat) :
  concat (replicate k (replicate W 0%Z)) = replicate (k * W) 0%Z.
Proof.
  induction k as [|k IH]; [done|]. simpl. by rewrite IH, replicate_add.
Qed.

Lemma eval_padding_zeros (N upb : Z) (rows : nat) :
  concat (eval_padding N upb rows)
  = replicate (length (eval_padding N upb rows) * Z.to_nat (1 + N)) 0%Z.
Proof.
  unfold eval_padding. case_bool_decide; [|done].
  by rewrite concat_replicate_zeros, length_replicate.
Qed.

Lemma joined_uniform N sampled negatives column joined :
  reshape_rows N sampled = Ok negatives →
  prepend_column column negatives = Ok joined →
  length joined = length column
  ∧ Forall (λ x, length x = Z.to_nat (1 + N)) joined.
Proof.
  intros [HN Hrows]%reshape_rows_inv [Hlen ->]%prepend_column_inv.
  split. { rewrite length_zip_with. lia. }
  apply Forall_lookup. intros k x. rewrite lookup_zip_with. intros Hx.
  apply bind_Some in Hx as (p & _ & Hx).
  apply bind_Some in Hx as (ns & Hk & [= <-]). simpl.
  rewrite (proj1 (Forall_lookup _ _) Hrows _ _ Hk). lia.
Qed.

(** The assertion on the shapes: as many rows of items as of users. *)
Lemma get_eval_batch_rows `{H : NegativeSampler} (N i : Z) (w w' : World)
    (r : eval_batch) (epu epi : list Z) :
  let c := conf (self w) in
  let low := (i * _eval_users_per_batch c)%Z in
  let high := ((i + 1) * _eval_users_per_batch c)%Z in
  _get_eval_batch N i w = (Ok r, w') →
  store w !! _eval_pos_users c = Some (Vec epu) →
  store w !! _eval_pos_items c = Some (Vec epi) →
  length (slice low high epi) = length (slice low high epu).
Proof.
  intros c low high HH Hepu0 Hepi0. subst c low high.
  unfold _get_eval_batch in HH.
  apply M_bind_inv in HH as (s & w0 & [= <- <-] & HH).
  apply M_bind_inv in HH as (epu' & w0 & (Hepu & ->)%load_vec_inv & HH).
  apply M_bind_inv in HH as ([] & w0 & (_ & ->)%guard_inv & HH).
  apply M_bind_inv in HH as (epi' & w0 & (Hepi & ->)%load_vec_inv & HH).
  rewrite Hepu0 in Hepu. rewrite Hepi0 in Hepi.
  injection Hepu as <-. injection Hepi as <-.
  apply M_bind_inv in HH as (sampled & w1 & Hlook & HH).
  apply M_bind_inv in HH as (negatives & w0 & (Hneg & ->)%lift_inv & HH).
  apply M_bind_inv in HH as (joined & w0 & (Hj & ->)%lift_inv & HH).
  apply M_bind_inv in HH as (il & w0 & [= <- <-] & HH).
  apply M_bind_inv in HH as (m & w0 & (Hm & ->)%load_mat_inv & HH).
  simpl in Hm. rewrite list_lookup_middle in Hm by done. injection Hm as <-.
  apply M_bind_inv in HH as (dl & w0 & [= <- <-] & HH).
  apply M_bind_inv in HH as (m & w0 & (Hm & ->)%load_mat_inv & HH).
  simpl in Hm. rewrite <- (assoc_L (++)) in Hm. simpl in Hm.
  rewrite list_lookup_middle in Hm by done. injection Hm as <-.
  apply M_bind_inv in HH as ([] & w0 & [= <-] & HH).
  apply M_bind_inv in HH as (d & w0 & (Hd & ->)%load_mat_inv & HH).
  apply M_bind_inv in HH as ([] & w0 & [= <-] & HH).
  apply M_bind_inv in HH as (items_v & w0 & (Hiv & ->)%load_mat_inv & HH).
  apply M_bind_inv in HH as (mask_v & w0 & (Hmv & ->)%load_mat_inv & HH).
  simpl in Hiv. rewrite length_app in Hiv. simpl in Hiv.
  rewrite list_lookup_insert_ne in Hiv by lia.
  rewrite list_lookup_insert_eq in Hiv
    by (rewrite !length_app; simpl; lia).
  injection Hiv as <-.
  apply M_bind_inv in HH as ([] & w0 & (Ha & _)%assert_inv & HH).
  apply bool_decide_eq_true in Ha as [Ha _].
  apply (f_equal length) in Ha. rewrite !length_fmap in Ha.
  apply prepend_column_inv in Hj as [Hcol ->].
  rewrite length_zip_with in Ha. lia.
Qed.

(** The shape of an eval batch. *)
Lemma eval_batch_shape `{H : NegativeSampler} (N i : Z) (w w' : World)
    (users items mask epu epi : list Z) :
  let c := conf (self w) in
  let upb := _eval_users_per_batch c in
  let W := Z.to_nat (1 + N) in
  let rows := slice (i * upb) ((i + 1) * upb) epu in
  _get_eval_batch N i w = (Ok (users, items, mask), w') →
  store w !! _eval_pos_users c = Some (Vec epu) →
  store w !! _eval_pos_items c = Some (Vec epi) →
  ∃ pad : nat,
    ((0 ≤ i)%Z → (0 ≤ upb)%Z → length rows + pad = Z.to_nat upb)
    ∧ users = concat (replicate W <$> rows) ++ replicate (pad * W) 0%Z
    ∧ length items = (length rows + pad) * W
    ∧ length mask = (length rows + pad) * W
    ∧ drop (length rows * W) items = replicate (pad * W) 0%Z
    ∧ drop (length rows * W) mask = replicate (pad * W) 0%Z.
Proof.
  intros c upb W rows HH Hepu Hepi.
  pose proof (get_eval_batch_rows N i w w' _ epu epi HH Hepu Hepi) as Hrows.
  apply get_eval_batch_inv in HH
    as (epu' & epi' & sampled & negatives & joined & w1
        & Hepu' & Hepi' & _ & Hneg & Hj & _ & Hr).
  fold c upb in Hepu', Hepi', Hj, Hr, Hrows.
  rewrite Hepu in Hepu'. injection Hepu' as <-.
  rewrite Hepi in Hepi'. injection Hepi' as <-.
  fold rows in Hr, Hrows. rewrite length_fmap in Hr.
  destruct (joined_uniform _ _ _ _ _ Hneg Hj) as [Hjl HjW].
  rewrite Hrows in Hjl.
  set (pad := eval_padding N upb (length rows)) in *.
  injection Hr as -> -> ->.
  exists (length pad).
  assert (Forall (λ x, length x = W) (swap_ends <$> joined)) as HsW.
  { apply Forall_fmap. eapply Forall_impl; [exact HjW|].
    intros x Hx. simpl. by rewrite swap_ends_length. }
  assert (Forall (λ x, length x = W) (swap_ends <$> mask_duplicates joined))
    as HmW.
  { apply Forall_fmap. unfold mask_duplicates. apply Forall_fmap.
    eapply Forall_impl; [exact HjW|]. intros x Hx. simpl.
    by rewrite swap_ends_length, mask_duplicates_row_length. }
  pose proof (eval_padding_uniform N upb (length rows)) as HpW. fold pad W in HpW.
  pose proof (eval_padding_zeros N upb (length rows)) as Hpz. fold pad W in Hpz.
  split.
  { intros Hi Hu. apply eval_padding_rows; [done|].
    etrans; [apply slice_length_le; nia|]. apply Nat.eq_le_incl. f_equal. lia. }
  split. { by rewrite concat_app, Hpz. }
  split.
  { rewrite (concat_uniform_length _ W) by (by apply Forall_app).
    by rewrite length_app, length_fmap, Hjl. }
  split.
  { rewrite (concat_uniform_length _ W) by (by apply Forall_app).
    unfold mask_duplicates. by rewrite length_app, !length_fmap, Hjl. }
  split.
  - rewrite concat_app, drop_app_length'; [done|].
    by rewrite (concat_uniform_length _ W), length_fmap, Hjl.
  - rewrite concat_app, drop_app_length'; [done|].
    rewrite (concat_uniform_length _ W) by done. unfold mask_duplicates.
    by rewrite !length_fmap, Hjl.
Qed.

(** X7: every batch [_get_eval_batch] returns has
    [_eval_users_per_batch * (1 + NUM_EVAL_NEGATIVES)] users, items and
    flags, whatever the sampler; the rows of the users of the slice come
    first, each user repeated over its row, and the rest of all three
    arrays is zero padding. *)
Theorem eval_batch_fixed_size `{H : NegativeSampler} (N i : Z) (w w' : World)
    (users items mask epu epi : list Z) :
  let c := conf (self w) in
  let upb := _eval_users_per_batch c in
  let W := Z.to_nat (1 + N) in
  let rows := slice (i * upb) ((i + 1) * upb) epu in
  (0 ≤ i)%Z → (0 ≤ upb)%Z →
  _get_eval_batch N i w = (Ok (users, items, mask), w') →
  store w !! _eval_pos_users c = Some (Vec epu) →
  store w !! _eval_pos_items c = Some (Vec epi) →
  length rows ≤ Z.to_nat upb
  ∧ length users = Z.to_nat upb * W
  ∧ length items = Z.to_nat upb * W
  ∧ length mask = Z.to_nat upb * W
  ∧ take (length rows * W) users = concat (replicate W <$> rows)
  ∧ drop (length rows * W) users
    = replicate ((Z.to_nat upb - length rows) * W) 0%Z
  ∧ drop (length rows * W) items
    = replicate ((Z.to_nat upb - length rows) * W) 0%Z
  ∧ drop (length rows * W) mask
    = replicate ((Z.to_nat upb - length rows) * W) 0%Z.
Proof.
  intros c upb W rows Hi Hu HH Hepu Hepi.
  destruct (eval_batch_shape N i w w' users items mask epu epi HH Hepu Hepi)
    as (pad & Hpad & -> & Hil & Hml & Hiz & Hmz).
  fold c upb W rows in Hpad, Hil, Hml, Hiz, Hmz |- *.
  specialize (Hpad Hi Hu).
  assert (length (concat (replicate W <$> rows)) = length rows * W) as Hc.
  { rewrite (concat_uniform_length _ W), length_fmap; [done|].
    apply Forall_fmap, Forall_forall. intros u _. simpl.
    by rewrite length_replicate. }
  replace (Z.to_nat upb - length rows) with pad by lia.
  rewrite <- Hpad.
  split; [lia|]. split. { rewrite length_app, Hc, length_replicate. lia. }
  split; [done|]. split; [done|].
  split. { by rewrite take_app_length'. }
  split. { by rewrite drop_app_length'. }
  done.
Qed.

Lemma chunks_lookup (rows n : nat) (a : list Z) (r : nat) :
  r < rows → chunks rows n a !! r = Some (take n (drop (r * n) a)).
Proof.
  revert a r. induction rows as [|rows IH]; intros a r Hr; [lia|].
  destruct r as [|r]; simpl; [done|].
  rewrite IH by lia. by rewrite drop_drop.
Qed.

Lemma swap_ends_snoc (x z : Z) (m : list Z) :
  swap_ends (x :: m ++ [z]) = z :: m ++ [x].
Proof.
  unfold swap_ends.
  change (x :: m ++ [z]) with ((x :: m) ++ [z]).
  rewrite last_snoc. simpl. rewrite length_app. simpl.
  replace (length m + 1) with (S (length m)) by lia. simpl. f_equal.
  rewrite insert_app_r_alt by lia. by rewrite Nat.sub_diag.
Qed.

(** A row is empty, a single entry, or has a first and a last entry. *)
Lemma row_ends (row : list Z) :
  row = [] ∨ (∃ x, row = [x]) ∨ ∃ x m z, row = x :: m ++ [z].
Proof.
  destruct row as [|x row]; [by left|]. right.
  destruct (decide (row = [])) as [->|Hne]; [left; eauto|].
  right. apply last_is_Some in Hne as [z Hz].
  apply last_Some in Hz as [m ->]. eauto.
Qed.

Lemma swap_ends_Permutation (row : list Z) : swap_ends row ≡ₚ row.
Proof.
  destruct (row_ends row) as [->|[[x ->]|(x & m & z & ->)]]; [done|done|].
  rewrite swap_ends_snoc.
  rewrite (Permutation_app_comm m [x]), (Permutation_app_comm m [z]).
  simpl. apply perm_swap.
Qed.

(** The same exchange on two rows of one length exchanges their pairs. *)
Lemma swap_ends_zip (a b : list Z) :
  length a = length b → zip (swap_ends a) (swap_ends b) ≡ₚ zip a b.
Proof.
  intros Hlen.
  destruct (row_ends a) as [->|[[x ->]|(x & m & z & ->)]];
    destruct (row_ends b) as [->|[[x' ->]|(x' & m' & z' & ->)]];
    simpl in Hlen; rewrite ?length_app in Hlen; simpl in Hlen;
    try done; try lia.
  rewrite !swap_ends_snoc. simpl.
  rewrite !zip_with_app by lia. simpl.
  rewrite (Permutation_app_comm _ [(x, x')]),
          (Permutation_app_comm _ [(z, z')]).
  simpl. apply perm_swap.
Qed.

(** Flagging the duplicates keeps one copy of every item that was not seen
    before the row. *)
Lemma mask_duplicates_row_keeps_one (seen row : list Z) :
  let kept := unflagged row (mask_duplicates_row seen row) in
  NoDup kept
  ∧ (∀ x, x ∈ kept → (x ∉ seen) ∧ (x ∈ row))
  ∧ (∀ x, x ∈ row → (x ∈ seen) ∨ (x ∈ kept)).
Proof.
  revert seen. induction row as [|x row IH]; intros seen; simpl.
  { split; [constructor|]. split; intros x Hx; by apply elem_of_nil in Hx. }
  destruct (IH (x :: seen)) as (Hnd & Hin & Hall).
  unfold unflagged in *. simpl. case_bool_decide as Hx.
  - rewrite filter_cons_False by done.
    split; [done|]. split.
    + intros y Hy. destruct (Hin y Hy) as [Hs Hr].
      rewrite elem_of_cons in *. tauto.
    + intros y. rewrite elem_of_cons. intros [->|Hy]; [by left|].
      destruct (Hall y Hy) as [Hs|Hk]; [|by right].
      apply elem_of_cons in Hs as [->|Hs]; by left.
  - rewrite filter_cons_True by done. simpl.
    split; [|split].
    + constructor; [|done]. intros Hk. destruct (Hin x Hk) as [Hs _].
      apply Hs, elem_of_cons. by left.
    + intros y. rewrite !elem_of_cons. intros [->|Hy]; [tauto|].
      destruct (Hin y Hy) as [Hs Hr]. rewrite elem_of_cons in Hs. tauto.
    + intros y. rewrite !elem_of_cons. intros [->|Hy]; [tauto|].
      destruct (Hall y Hy) as [Hs|Hk]; [|tauto].
      apply elem_of_cons in Hs. tauto.
Qed.

Lemma mask_duplicates_row_flags (seen row : list Z) :
  Forall (λ f : Z, f = 0%Z ∨ f = 1%Z) (mask_duplicates_row seen row).
Proof.
  revert seen. induction row as [|x row IH]; intros seen; simpl; [done|].
  constructor; [case_bool_decide; auto | apply IH].
Qed.

(** The rows of an eval batch that are not padding. *)
Lemma eval_rows_inv `{H : NegativeSampler} (N i : Z) (w w' : World)
    (users items mask epu epi : list Z) (r : nat) (pos : Z) :
  let c := conf (self w) in
  let upb := _eval_users_per_batch c in
  let W := Z.to_nat (1 + N) in
  let rows := slice (i * upb) ((i + 1) * upb) epu in
  _get_eval_batch N i w = (Ok (users, items, mask), w') →
  store w !! _eval_pos_users c = Some (Vec epu) →
  store w !! _eval_pos_items c = Some (Vec epi) →
  slice (i * upb) ((i + 1) * upb) epi !! r = Some pos →
  ∃ sampled,
    (0 < N)%Z
    ∧ (lookup_negative_items (concat (replicate (Z.to_nat N) <$> rows)) w).1
      = Ok sampled
    ∧ length sampled = length rows * Z.to_nat N
    ∧ let ns := take (Z.to_nat N) (drop (r * Z.to_nat N) sampled) in
      length ns = Z.to_nat N
      ∧ take W (drop (r * W) items) = swap_ends (pos :: ns)
      ∧ take W (drop (r * W) mask)
        = swap_ends (mask_duplicates_row [] (pos :: ns)).
Proof.
  intros c upb W rows HH Hepu Hepi Hpos.
  pose proof (get_eval_batch_rows N i w w' _ epu epi HH Hepu Hepi) as Hrows.
  apply get_eval_batch_inv in HH
    as (epu' & epi' & sampled & negatives & joined & w1
        & Hepu' & Hepi' & Hlook & Hneg & Hj & _ & Hr).
  fold c upb in Hepu', Hepi', Hj, Hr, Hrows, Hlook.
  rewrite Hepu in Hepu'. injection Hepu' as <-.
  rewrite Hepi in Hepi'. injection Hepi' as <-.
  fold rows in Hr, Hrows, Hlook. injection Hr as _ -> ->.
  destruct (joined_uniform _ _ _ _ _ Hneg Hj) as [Hjl HjW].
  pose proof (prepend_column_inv _ _ _ Hj) as [Hcol _].
  pose proof Hneg as [HN Huni]%reshape_rows_inv.
  assert (W = S (Z.to_nat N)) as HW by (unfold W; lia).
  assert (concat (slice_to (-1) <$> (replicate W <$> rows))
          = concat (replicate (Z.to_nat N) <$> rows)) as Hnu.
  { f_equal. rewrite <- list_fmap_compose. apply list_fmap_ext.
    intros k x _. simpl. unfold slice_to, slice_bound.
    rewrite bool_decide_eq_true_2 by lia.
    rewrite length_replicate, take_replicate. f_equal. lia. }
  unfold W in Hnu. rewrite Hnu in Hlook.
  assert (length sampled = length rows * Z.to_nat N) as Hsl.
  { unfold reshape_rows in Hneg.
    rewrite bool_decide_eq_false_2 in Hneg by lia.
    case_bool_decide as Hm; [done|]. injection Hneg as <-.
    assert (Z.of_nat (length sampled) `mod` N = 0)%Z as Hmod by lia.
    apply Z.mod_divide in Hmod as [q Hq]; [|lia].
    assert (length sampled = Z.to_nat q * Z.to_nat N) as Hsq by nia.
    destruct (chunks_rows (Z.to_nat q) (Z.to_nat N) sampled Hsq) as [Hcl _].
    rewrite Hsq, Nat.div_mul in Hcol by lia. rewrite Hcl in Hcol.
    rewrite Hsq. f_equal. lia. }
  assert (r < length rows) as Hrr.
  { rewrite <- Hrows. by eapply lookup_lt_Some. }
  exists sampled. split; [done|]. split; [by rewrite Hlook|]. split; [done|].
  set (ns := take (Z.to_nat N) (drop (r * Z.to_nat N) sampled)).
  assert (negatives !! r = Some ns) as Hns.
  { unfold reshape_rows in Hneg.
    rewrite bool_decide_eq_false_2 in Hneg by lia.
    case_bool_decide as Hm; [done|]. injection Hneg as <-.
    apply chunks_lookup. rewrite Hsl, Nat.div_mul by lia. done. }
  assert (joined !! r = Some (pos :: ns)) as Hjr.
  { destruct (prepend_column_lookup _ _ _ _ _ Hj Hpos) as (ns' & Hns' & ?).
    congruence. }
  assert (length ns = Z.to_nat N) as Hnl.
  { by eapply (proj1 (Forall_lookup _ _) Huni). }
  simpl. split; [done|]. split.
  - apply concat_row_app.
    + apply Forall_fmap. eapply Forall_impl; [exact HjW|].
      intros x Hx. simpl. by rewrite swap_ends_length.
    + by rewrite list_lookup_fmap, Hjr.
  - apply concat_row_app.
    + apply Forall_fmap. unfold mask_duplicates. apply Forall_fmap.
      eapply Forall_impl; [exact HjW|]. intros x Hx. simpl.
      by rewrite swap_ends_length, mask_duplicates_row_length.
    + unfold mask_duplicates. by rewrite !list_lookup_fmap, Hjr.
Qed.

(** X8: in a row of an eval batch that is not padding, the user column is
    constant and the items are the held-out positive of that user together
    with the [NUM_EVAL_NEGATIVES] items sampled for that row, in some
    order; the sampler is asked once, for every row of the batch. *)
Theorem eval_row_candidates `{H : NegativeSampler} (N i : Z) (w w' : World)
    (users items mask epu epi : list Z) (r : nat) (u pos : Z) :
  let c := conf (self w) in
  let upb := _eval_users_per_batch c in
  let W := Z.to_nat (1 + N) in
  let rows := slice (i * upb) ((i + 1) * upb) epu in
  _get_eval_batch N i w = (Ok (users, items, mask), w') →
  store w !! _eval_pos_users c = Some (Vec epu) →
  store w !! _eval_pos_items c = Some (Vec epi) →
  rows !! r = Some u →
  slice (i * upb) ((i + 1) * upb) epi !! r = Some pos →
  ∃ sampled,
    (lookup_negative_items (concat (replicate (Z.to_nat N) <$> rows)) w).1
    = Ok sampled
    ∧ length sampled = length rows * Z.to_nat N
    ∧ take W (drop (r * W) users) = replicate W u
    ∧ take W (drop (r * W) items)
      ≡ₚ pos :: take (Z.to_nat N) (drop (r * Z.to_nat N) sampled).
Proof.
  intros c upb W rows HH Hepu Hepi Hu Hpos.
  destruct (eval_rows_inv N i w w' users items mask epu epi r pos
              HH Hepu Hepi Hpos)
    as (sampled & _ & Hlook & Hsl & _ & Hitems & _).
  destruct (eval_batch_shape N i w w' users items mask epu epi HH Hepu Hepi)
    as (pad & _ & Husers & _).
  fold c upb W rows in Hlook, Hsl, Hitems, Husers.
  exists sampled. split; [done|]. split; [done|]. split.
  - rewrite Husers.
    rewrite <- (concat_replicate_zeros pad W), <- concat_app.
    apply concat_row_app.
    + apply Forall_fmap, Forall_forall. intros x _. simpl.
      by rewrite length_replicate.
    + by rewrite list_lookup_fmap, Hu.
  - rewrite Hitems. apply swap_ends_Permutation.
Qed.

(** X9: in a row of an eval batch that is not padding the flags are 0 or
    1, the items whose flag is 0 are pairwise different, and every item of
    the row is among them: each candidate is counted once. *)
Theorem eval_row_unflagged_once `{H : NegativeSampler} (N i : Z)
    (w w' : World) (users items mask epu epi : list Z) (r : nat) (pos : Z) :
  let c := conf (self w) in
  let upb := _eval_users_per_batch c in
  let W := Z.to_nat (1 + N) in
  let row_items := take W (drop (r * W) items) in
  let row_mask := take W (drop (r * W) mask) in
  _get_eval_batch N i w = (Ok (users, items, mask), w') →
  store w !! _eval_pos_users c = Some (Vec epu) →
  store w !! _eval_pos_items c = Some (Vec epi) →
  slice (i * upb) ((i + 1) * upb) epi !! r = Some pos →
  Forall (λ f : Z, f = 0%Z ∨ f = 1%Z) row_mask
  ∧ NoDup (unflagged row_items row_mask)
  ∧ ∀ x, x ∈ unflagged row_items row_mask ↔ x ∈ row_items.
Proof.
  intros c upb W row_items row_mask HH Hepu Hepi Hpos.
  destruct (eval_rows_inv N i w w' users items mask epu epi r pos
              HH Hepu Hepi Hpos)
    as (sampled & _ & _ & _ & _ & Hitems & Hmask).
  fold c upb W row_items in Hitems. fold c upb W row_mask in Hmask.
  set (a := pos :: take (Z.to_nat N) (drop (r * Z.to_nat N) sampled)) in *.
  destruct (mask_duplicates_row_keeps_one [] a) as (Hnd & Hin & Hall).
  assert (unflagged row_items row_mask
          ≡ₚ unflagged a (mask_duplicates_row [] a)) as Hperm.
  { unfold unflagged. rewrite Hitems, Hmask.
    by rewrite swap_ends_zip by (by rewrite mask_duplicates_row_length). }
  split; [|split].
  - rewrite Hmask, swap_ends_Permutation. apply mask_duplicates_row_flags.
  - by rewrite Hperm.
  - intros x. rewrite Hperm, Hitems, swap_ends_Permutation. split.
    + intros Hx. by apply Hin.
    + intros Hx. destruct (Hall x Hx) as [Hs|Hk]; [|done].
      by apply elem_of_nil in Hs.
Qed.

(** ** A training epoch on the queue *)

Lemma steady_refl w : steady w w.
Proof. repeat split; try done. by intros l a. Qed.

Lemma steady_trans w1 w2 w3 : steady w1 w2 → steady w2 w3 → steady w1 w3.
Proof.
  intros (?&?&?&?&?&?&?&?&Hs) (?&?&?&?&?&?&?&?&Hs').
  repeat split; try congruence. intros l a Hl. by apply Hs', Hs.
Qed.

Lemma batch_sized_extends w w' b batch :
  store_extends w w' → batch_sized w b batch → batch_sized w' b batch.
Proof.
  intros Hs (? & ? & items & Hi & ?). repeat split; try done.
  exists items. split; [by apply Hs|done].
Qed.

(** One training batch: one more entry on the queue, the cursor a batch
    further. *)
Lemma get_training_batch_step (w w' : World) (E b t off : nat) (x : Z) :
  let ps := perm_stream (_shuffle_producer (self w)) in
  _train_batch_size (conf (self w)) = Z.of_nat b →
  0 < b ≤ E →
  (∀ k, length (ps k) = E) →
  cursor_at w E t off →
  _get_training_batch (H := MaterializedDataConstructor) x w = (Ok (), w') →
  ∃ batch t' off',
    _training_queue (self w') = _training_queue (self w) ++ [batch]
    ∧ batch_sized w' b batch
    ∧ cursor_at w' E t' off'
    ∧ t' * E + off' = t * E + off + b
    ∧ steady w w'.
Proof.
  intros ps HB Hb HE Hc HH. subst ps.
  apply get_training_batch_inv in HH
    as (chunk & o & k & tpu & tpi & users & negs & gathered & updated
        & Hchunk & Htpu & Htpi & Husers & Hg & Hlook & Hupd & ->).
  destruct (get_order_chunk_step w E b t off HB Hb HE Hc)
    as (o' & k' & t' & off' & Hstep & Hc' & Hpos).
  rewrite Hchunk in Hstep. injection Hstep as -> <- <-.
  apply take_idx_length in Husers as Hul. apply take_idx_length in Hg as Hgl.
  apply mask_assign_length in Hupd as Hupl.
  rewrite length_fmap in Hul, Hgl.
  set (ps := perm_stream (_shuffle_producer (self w))) in *.
  assert (length (take b (drop off (ps t ++ ps (S t)))) = b) as Hlen.
  { assert (off < E) by (destruct Hc as [(_ & _ & ->)|(_ & _ & ?)]; lia).
    rewrite length_take, length_drop, length_app, !HE. lia. }
  eexists _, t', off'. split; [reflexivity|].
  split.
  { split; [simpl; lia|]. split.
    { simpl. unfold labels_of, negative_flags. by rewrite !length_fmap. }
    exists updated. split; [|lia]. simpl.
    rewrite list_lookup_insert_eq; [done|]. rewrite length_app. simpl. lia. }
  split; [done|]. split; [done|].
  repeat split; try done. intros l a Hl. simpl.
  pose proof (lookup_lt_Some _ _ _ Hl).
  rewrite list_lookup_insert_ne by lia. by rewrite lookup_app_l.
Qed.

Lemma training_batches_queue (l : list Z) (w w' : World) (E b t off : nat)
    (rs : list ()) :
  let ps := perm_stream (_shuffle_producer (self w)) in
  _train_batch_size (conf (self w)) = Z.of_nat b →
  0 < b ≤ E →
  (∀ k, length (ps k) = E) →
  cursor_at w E t off →
  mapM (_get_training_batch (H := MaterializedDataConstructor)) l w
  = (Ok rs, w') →
  ∃ new t' off',
    _training_queue (self w') = _training_queue (self w) ++ new
    ∧ length new = length l
    ∧ Forall (batch_sized w' b) new
    ∧ cursor_at w' E t' off'
    ∧ t' * E + off' = t * E + off + length l * b
    ∧ steady w w'.
Proof.
  intros ps. subst ps. revert w t off rs.
  induction l as [|x l IH]; intros w t off rs HB Hb HE Hc HH.
  - injection HH as <- <-. exists [], t, off.
    rewrite app_nil_r. simpl.
    split; [done|]. split; [done|]. split; [done|]. split; [done|].
    split; [lia|apply steady_refl].
  - simpl in HH.
    apply M_bind_inv in HH as ([] & w1 & H1 & HH).
    apply M_bind_inv in HH as (rs' & w2 & H2 & HH).
    injection HH as <- <-.
    destruct (get_training_batch_step w w1 E b t off x HB Hb HE Hc H1)
      as (batch & t1 & off1 & Hq1 & Hb1 & Hc1 & Hp1 & Hs1).
    pose proof Hs1 as (Hconf & Hps & _).
    rewrite <- Hconf in HB. rewrite <- Hps in HE.
    destruct (IH w1 t1 off1 rs' HB Hb HE Hc1 H2)
      as (new & t' & off' & Hq & Hl & Hall & Hc' & Hp & Hs).
    exists (batch :: new), t', off'.
    split. { by rewrite Hq, Hq1, <- (assoc_L (++)). }
    split; [simpl; lia|].
    split. { constructor; [|done]. eapply batch_sized_extends; [|done].
             apply Hs. }
    split; [done|]. split; [simpl; lia|]. by eapply steady_trans.
Qed.

Lemma construct_training_epoch_inv (w w' : World) (E b t off : nat) :
  let ps := perm_stream (_shuffle_producer (self w)) in
  let n := Z.to_nat (_train_batches_per_epoch (conf (self w))) in
  _train_batch_size (conf (self w)) = Z.of_nat b →
  0 < b ≤ E →
  (∀ k, length (ps k) = E) →
  cursor_at w E t off →
  _construct_training_epoch (H := MaterializedDataConstructor) w
  = (Ok (), w') →
  ∃ new t' off',
    _training_queue (self w') = _training_queue (self w) ++ new
    ∧ length new = n
    ∧ Forall (batch_sized w' b) new
    ∧ cursor_at w' E t' off'
    ∧ t' * E + off' = t * E + off + n * b
    ∧ steady w w'.
Proof.
  intros ps n HB Hb HE Hc HH. unfold _construct_training_epoch in HH.
  apply M_bind_inv in HH as (s & w0 & [= <- <-] & HH).
  apply M_bind_inv in HH as (rs & w1 & Hrun & [= <-]).
  destruct (training_batches_queue _ w w1 E b t off rs HB Hb HE Hc Hrun)
    as (new & t' & off' & Hq & Hl & Hall & Hc' & Hp & Hs).
  unfold range in Hl, Hp. rewrite length_fmap, length_seq in Hl, Hp.
  by exists new, t', off'.
Qed.

(** X5: a call of [_construct_training_epoch] that returns, in the
    materialized variant, appends [_train_batches_per_epoch] batches to the
    queue and leaves what was queued in place; each new batch has
    [train_batch_size] users, items and labels; the cursor into the
    producer's arrays has advanced by that many indices per batch; the
    sizes, the flags, the eval results, the table and every buffer that
    existed are as before. *)
Theorem construct_training_epoch_queues (w w' : World) (E b t off : nat) :
  let ps := perm_stream (_shuffle_producer (self w)) in
  let n := Z.to_nat (_train_batches_per_epoch (conf (self w))) in
  _train_batch_size (conf (self w)) = Z.of_nat b →
  0 < b ≤ E →
  (∀ k, length (ps k) = E) →
  cursor_at w E t off →
  _construct_training_epoch (H := MaterializedDataConstructor) w
  = (Ok (), w') →
  ∃ new t' off',
    _training_queue (self w') = _training_queue (self w) ++ new
    ∧ length new = n
    ∧ Forall (batch_sized w' b) new
    ∧ cursor_at w' E t' off'
    ∧ t' * E + off' = t * E + off + n * b
    ∧ steady w w'.
Proof. apply construct_training_epoch_inv. Qed.

(** The generator takes the oldest batches of the queue, in their order. *)
Lemma yield_from_queue_spec (rounds : list Z) (w : World) :
  let q := _training_queue (self w) in
  let n := length rounds in
  yield_from_queue rounds w
  = if decide (n ≤ length q)
    then (Ok (Finished (take n q)),
          set_self (with_training_queue (drop n q) (self w)) w)
    else (Ok (Waiting q), set_self (with_training_queue [] (self w)) w).
Proof.
  revert w. induction rounds as [|x rounds IH]; intros w.
  { cbn [length yield_from_queue]. destruct (decide _) as [_|Hn]; [|lia].
    by destruct w as [h []]. }
  cbn [length yield_from_queue]. unfold mbind, M_bind, queue_get.
  destruct (_training_queue (self w)) as [|batch q] eqn:Hq.
  { cbn [length]. destruct (decide _) as [Hn|_]; [lia|].
    destruct w as [h []]. simpl in *. by subst. }
  rewrite IH. cbn [length]. simpl.
  destruct (decide (length rounds ≤ length q)),
    (decide (S (length rounds) ≤ S (length q))); try lia; done.
Qed.

(** ** An eval epoch *)

Lemma kept_below_extends w w' :
  kept_below (length (store w)) w w' → store_extends w w'.
Proof.
  intros (_ & _ & _ & _ & Hk) l a Hl.
  rewrite Hk; [done|]. by apply lookup_lt_Some in Hl.
Qed.

Lemma control_steady w w' :
  control w' = control w →
  _eval_results (self w') = _eval_results (self w) →
  kept_below (length (store w)) w w' →
  steady w w'.
Proof.
  intros [= Hc Ho Hp Hq Hs] He Hk.
  pose proof (kept_below_extends _ _ Hk).
  destruct Hk as (? & ? & ? & _).
  unfold steady. rewrite Hp. by repeat split.
Qed.

Lemma get_eval_batch_steady N i w :
  let w' := (_get_eval_batch N (H := MaterializedDataConstructor) i w).2 in
  control w' = control w ∧ steady w w'.
Proof.
  intros w'. subst w'.
  pose proof (keeps_get_eval_batch N i w) as Hk0.
  pose proof (f_equal fst Hk0) as Hc. pose proof (f_equal snd Hk0) as He.
  simpl in Hc, He.
  pose proof (frames_get_eval_batch N (length (store w)) i w (le_n _))
    as [Hk _].
  split; [done|]. by apply control_steady.
Qed.

(** The batches of an eval epoch, one after the other: each is what
    [_get_eval_batch] returns in a world with the same sizes and the same
    buffers. *)
Lemma eval_batches_inv N (l : list Z) (w w' : World)
    (results : list eval_batch) :
  mapM (_get_eval_batch N (H := MaterializedDataConstructor)) l w
  = (Ok results, w') →
  control w' = control w
  ∧ steady w w'
  ∧ Forall2 (λ i batch, ∃ wk wk',
      steady w wk
      ∧ _get_eval_batch N (H := MaterializedDataConstructor) i wk
        = (Ok batch, wk')) l results.
Proof.
  revert w results. induction l as [|i l IH]; intros w results HH.
  - injection HH as <- <-. split; [done|]. split; [apply steady_refl|].
    constructor.
  - simpl in HH.
    apply M_bind_inv in HH as (batch & w1 & H1 & HH).
    apply M_bind_inv in HH as (rs & w2 & H2 & HH).
    injection HH as <- <-.
    destruct (get_eval_batch_steady N i w) as [Hc1 Hs1].
    rewrite H1 in Hc1, Hs1. simpl in Hc1, Hs1.
    destruct (IH w1 rs H2) as (Hc2 & Hs2 & Hall).
    split; [congruence|]. split; [by eapply steady_trans|].
    constructor.
    + exists w, w1. split; [apply steady_refl|done].
    + eapply Forall2_impl; [exact Hall|].
      intros j b (wk & wk' & Hsk & Hk). exists wk, wk'.
      split; [by eapply steady_trans|done].
Qed.

Lemma slice_lookup {A} (lo hi : nat) (a : list A) (r : nat) :
  lo + r < hi →
  slice (Z.of_nat lo) (Z.of_nat hi) a !! r = a !! (lo + r).
Proof.
  intros Hr. unfold slice, slice_bound.
  rewrite !bool_decide_eq_false_2 by lia. rewrite !Nat2Z.id.
  rewrite lookup_drop.
  destruct (decide (lo + r < length a)) as [Hl|Hl].
  - rewrite (Nat.min_r _ lo) by lia. rewrite lookup_take_lt; [done|]. lia.
  - rewrite (lookup_ge_None_2 a) by lia. apply lookup_ge_None_2.
    rewrite length_take. lia.
Qed.

Lemma replicate_rows_lookup (W : nat) (rows : list Z) (r : nat) (u : Z)
    (rest : list Z) :
  rows !! r = Some u →
  take W (drop (r * W) (concat (replicate W <$> rows) ++ rest))
  = replicate W u.
Proof.
  intros Hr. apply list_elem_of_split_length in Hr as (l1 & l2 & -> & ->).
  rewrite fmap_app, concat_app, fmap_cons. simpl.
  rewrite <- !(assoc_L (++)).
  rewrite drop_app_length'.
  2:{ rewrite (concat_uniform_length _ W), length_fmap; [done|].
      apply Forall_fmap, Forall_forall. intros ? _. simpl.
      by rewrite length_replicate. }
  rewrite take_app_length'; [done|]. by rewrite length_replicate.
Qed.

Lemma eval_batch_of_epoch N (w wk wk' : World) (k : nat)
    (users items mask epu epi : list Z) :
  let c := conf (self w) in
  let upb := Z.to_nat (_eval_users_per_batch c) in
  let W := Z.to_nat (1 + N) in
  let rows := slice (Z.of_nat (k * upb)) (Z.of_nat ((k + 1) * upb)) epu in
  (0 ≤ _eval_users_per_batch c)%Z →
  store w !! _eval_pos_users c = Some (Vec epu) →
  store w !! _eval_pos_items c = Some (Vec epi) →
  steady w wk →
  _get_eval_batch N (H := MaterializedDataConstructor) (Z.of_nat k) wk
  = (Ok (users, items, mask), wk') →
  length users = upb * W ∧ length items = upb * W ∧ length mask = upb * W
  ∧ ∃ pad, users = concat (replicate W <$> rows) ++ replicate (pad * W) 0%Z.
Proof.
  intros c upb W rows Hu Hepu Hepi Hs HH.
  destruct Hs as (Hconf & _ & _ & _ & _ & _ & _ & _ & Hext).
  apply Hext in Hepu, Hepi. fold c in Hconf. rewrite <- Hconf in Hepu, Hepi.
  destruct (eval_batch_shape N _ wk wk' users items mask epu epi HH Hepu Hepi)
    as (pad & Hpad & Husers & Hil & Hml & _).
  rewrite Hconf in Hpad, Husers, Hil, Hml.
  replace (Z.of_nat k * _eval_users_per_batch c)%Z
    with (Z.of_nat (k * upb)) in * by (unfold upb; lia).
  replace ((Z.of_nat k + 1) * _eval_users_per_batch c)%Z
    with (Z.of_nat ((k + 1) * upb)) in * by (unfold upb; lia).
  fold W rows in Hpad, Husers, Hil, Hml.
  specialize (Hpad ltac:(lia) Hu). fold upb in Hpad.
  rewrite Hpad in Hil, Hml.
  split; [|split; [done|split; [done|by exists pad]]].
  rewrite Husers, length_app, length_replicate.
  rewrite (concat_uniform_length _ W), length_fmap.
  - rewrite <- Hpad. lia.
  - apply Forall_fmap, Forall_forall. intros ? _. simpl.
    by rewrite length_replicate.
Qed.

(** X10: a call of [_construct_eval_epoch] that returns, in the
    materialized variant, sets [_eval_results] to
    [_eval_batches_per_epoch] batches of the fixed size, which
    [eval_generator] then yields in that order; the queue, the cursor, the
    producer, the sizes and the stop flag are untouched and no buffer is
    changed.  When the batches have room for the eval users, user [j] is
    found in batch [j / _eval_users_per_batch], row
    [j mod _eval_users_per_batch]. *)
Theorem construct_eval_epoch_covers_users N (w w' : World) (epu epi : list Z) :
  let c := conf (self w) in
  let upb := Z.to_nat (_eval_users_per_batch c) in
  let W := Z.to_nat (1 + N) in
  let n := Z.to_nat (_eval_batches_per_epoch c) in
  (0 < _eval_users_per_batch c)%Z →
  store w !! _eval_pos_users c = Some (Vec epu) →
  store w !! _eval_pos_items c = Some (Vec epi) →
  length epu ≤ n * upb →
  _construct_eval_epoch N (H := MaterializedDataConstructor) w = (Ok (), w') →
  ∃ results,
    _eval_results (self w') = Some results
    ∧ length results = n
    ∧ control w' = control w
    ∧ store_extends w w'
    ∧ eval_generator w' = (Ok (Finished results), w')
    ∧ Forall (λ batch : eval_batch,
        length batch.1.1 = upb * W ∧ length batch.1.2 = upb * W
        ∧ length batch.2 = upb * W) results
    ∧ ∀ j u, epu !! j = Some u →
        ∃ users items mask,
          results !! (j / upb) = Some (users, items, mask)
          ∧ take W (drop (j `mod` upb * W) users) = replicate W u.
Proof.
  intros c upb W n Hu Hepu Hepi Hcover HH.
  unfold _construct_eval_epoch in HH.
  apply M_bind_inv in HH as (s & w0 & [= <- <-] & HH).
  apply M_bind_inv in HH as (results & w1 & Hrun & [= <-]).
  apply eval_batches_inv in Hrun as (Hc & Hs & Hall).
  fold c n in Hall.
  pose proof (Forall2_length _ _ _ Hall) as Hlen.
  unfold range in Hlen. rewrite length_fmap, length_seq in Hlen.
  assert (∀ k batch, results !! k = Some batch →
    length batch.1.1 = upb * W ∧ length batch.1.2 = upb * W
    ∧ length batch.2 = upb * W
    ∧ ∃ pad, batch.1.1
        = concat (replicate W <$>
            slice (Z.of_nat (k * upb)) (Z.of_nat ((k + 1) * upb)) epu)
          ++ replicate (pad * W) 0%Z) as Hbatch.
  { intros k [[users items] mask] Hk.
    destruct (Forall2_lookup_r _ _ _ _ _ Hall Hk)
      as (i & Hi & wk & wk' & Hsk & Hget).
    unfold range in Hi. apply list_lookup_fmap_Some_1 in Hi as (k' & -> & Hseq).
    apply lookup_seq in Hseq as [-> _]. simpl in Hget.
    assert (0 ≤ _eval_users_per_batch (conf (self w)))%Z as Hu'
      by (subst c; lia).
    exact (eval_batch_of_epoch N w wk wk' k users items mask epu epi
             Hu' Hepu Hepi Hsk Hget). }
  exists results. split; [done|]. split; [lia|]. split; [exact Hc|].
  split. { destruct Hs as (_ & _ & _ & _ & _ & _ & _ & _ & Hext).
           intros l a Hl. by apply Hext. }
  split; [done|].
  split.
  { apply Forall_lookup. intros k batch Hk.
    destruct (Hbatch k batch Hk) as (? & ? & ? & _). done. }
  intros j u Hj.
  assert (0 < upb) as Hupb by (unfold upb; lia).
  pose proof (lookup_lt_Some _ _ _ Hj) as Hjl.
  assert (j / upb < n) as Hk.
  { apply Nat.Div0.div_lt_upper_bound. lia. }
  destruct (lookup_lt_is_Some_2 results (j / upb)) as [[[users items] mask] Hr];
    [lia|].
  exists users, items, mask. split; [done|].
  destruct (Hbatch _ _ Hr) as (_ & _ & _ & pad & Husers). simpl in Husers.
  rewrite Husers. apply replicate_rows_lookup.
  pose proof (Nat.div_mod_eq j upb). pose proof (Nat.mod_upper_bound j upb).
  rewrite slice_lookup by lia.
  rewrite <- Hj. f_equal. lia.
Qed.

(** ** The whole of [run] *)

Lemma training_batches_cursor_set (l : list Z) (w w' : World) (rs : list ()) :
  mapM (_get_training_batch (H := MaterializedDataConstructor)) l w
  = (Ok rs, w') →
  l ≠ [] ∨ is_Some (_current_epoch_order (self w)) →
  is_Some (_current_epoch_order (self w')).
Proof.
  revert w rs. induction l as [|x l IH]; intros w rs HH Hw.
  - injection HH as <- <-. by destruct Hw.
  - simpl in HH.
    apply M_bind_inv in HH as ([] & w1 & H1 & HH).
    apply M_bind_inv in HH as (rs' & w2 & H2 & HH).
    injection HH as <- <-.
    apply (IH w1 rs' H2). right.
    apply get_training_batch_inv in H1
      as (chunk & o & k & tpu & tpi & users & negs & gathered & updated
          & _ & _ & _ & _ & _ & _ & _ & ->).
    by eexists.
Qed.

Lemma cursor_at_control (w w' : World) (E t off : nat) :
  control w' = control w → cursor_at w E t off → cursor_at w' E t off.
Proof. intros [= Hc Ho Hp Hq Hs]. unfold cursor_at. by rewrite Ho, Hp. Qed.

(** The training epochs that follow the first one in [run]. *)
Lemma training_epochs_queue N (l : list Z) (w w' : World) (E b t off : nat)
    (rs : list ()) :
  let ps := perm_stream (_shuffle_producer (self w)) in
  let n := Z.to_nat (_train_batches_per_epoch (conf (self w))) in
  _train_batch_size (conf (self w)) = Z.of_nat b →
  0 < b ≤ E →
  (∀ k, length (ps k) = E) →
  cursor_at w E t off →
  mapM (exec N (H := MaterializedDataConstructor))
       ((λ _, ConstructTrainingEpoch) <$> l) w = (Ok rs, w') →
  ∃ new t' off',
    _training_queue (self w') = _training_queue (self w) ++ new
    ∧ length new = length l * n
    ∧ Forall (batch_sized w' b) new
    ∧ cursor_at w' E t' off'
    ∧ t' * E + off' = t * E + off + length l * n * b
    ∧ steady w w'
    ∧ (is_Some (_current_epoch_order (self w)) →
       is_Some (_current_epoch_order (self w'))).
Proof.
  intros ps n. subst ps n. revert w t off rs.
  induction l as [|x l IH]; intros w t off rs HB Hb HE Hc HH.
  - injection HH as <- <-. exists [], t, off.
    rewrite app_nil_r. simpl.
    split; [done|]. split; [done|]. split; [done|]. split; [done|].
    split; [lia|]. split; [apply steady_refl|done].
  - rewrite fmap_cons in HH. cbn [mapM] in HH.
    apply M_bind_inv in HH as ([] & w1 & H1 & HH).
    apply M_bind_inv in HH as (rs' & w2 & H2 & HH).
    injection HH as <- <-. cbn [exec] in H1.
    destruct (construct_training_epoch_inv w w1 E b t off HB Hb HE Hc H1)
      as (new1 & t1 & off1 & Hq1 & Hl1 & Hall1 & Hc1 & Hp1 & Hs1).
    pose proof Hs1 as (Hconf & Hps & _).
    rewrite <- Hconf in HB. rewrite <- Hps in HE.
    destruct (IH w1 t1 off1 rs' HB Hb HE Hc1 H2)
      as (new & t' & off' & Hq & Hl & Hall & Hc' & Hp & Hs & Hset).
    rewrite Hconf in Hl, Hp.
    exists (new1 ++ new), t', off'.
    split. { by rewrite Hq, Hq1, <- (assoc_L (++)). }
    split. { rewrite length_app. simpl. lia. }
    split. { apply Forall_app. split; [|done].
             eapply Forall_impl; [exact Hall1|]. intros batch.
             apply batch_sized_extends, Hs. }
    split; [done|]. split; [simpl; lia|].
    split; [by eapply steady_trans|].
    intros Hsome. apply Hset.
    unfold _construct_training_epoch in H1.
    apply M_bind_inv in H1 as (s & w0 & [= <- <-] & H1).
    apply M_bind_inv in H1 as (rs1 & w0 & Hrun & [= <-]).
    eapply training_batches_cursor_set; [exact Hrun|by right].
Qed.

Lemma construct_training_epoch_cursor_set (w w' : World) :
  _construct_training_epoch (H := MaterializedDataConstructor) w
  = (Ok (), w') →
  0 < Z.to_nat (_train_batches_per_epoch (conf (self w))) →
  is_Some (_current_epoch_order (self w')).
Proof.
  intros H1 Hn. unfold _construct_training_epoch in H1.
  apply M_bind_inv in H1 as (s & w0 & [= <- <-] & H1).
  apply M_bind_inv in H1 as (rs1 & w0 & Hrun & [= <-]).
  eapply training_batches_cursor_set; [exact Hrun|left].
  unfold range. destruct (Z.to_nat _); [lia|done].
Qed.

(** [_construct_eval_epoch] without assumptions on the buffers. *)
Lemma construct_eval_epoch_basic N (w w' : World) :
  _construct_eval_epoch N (H := MaterializedDataConstructor) w = (Ok (), w') →
  ∃ results,
    _eval_results (self w') = Some results
    ∧ length results = Z.to_nat (_eval_batches_per_epoch (conf (self w)))
    ∧ control w' = control w
    ∧ store_extends w w'.
Proof.
  intros HH. unfold _construct_eval_epoch in HH.
  apply M_bind_inv in HH as (s & w0 & [= <- <-] & HH).
  apply M_bind_inv in HH as (results & w1 & Hrun & [= <-]).
  apply eval_batches_inv in Hrun as (Hc & Hs & Hall).
  apply Forall2_length in Hall.
  unfold range in Hall. rewrite length_fmap, length_seq in Hall.
  exists results. split; [done|]. split; [done|]. split; [exact Hc|].
  destruct Hs as (_ & _ & _ & _ & _ & _ & _ & _ & Hext).
  intros l a Hl. by apply Hext.
Qed.

Lemma run_inv N (w w' : World) (E b : nat) :
  let ps := perm_stream (_shuffle_producer (self w)) in
  let c := conf (self w) in
  let n := Z.to_nat (_train_batches_per_epoch c) in
  let epochs := S (Z.to_nat (_maximum_number_epochs c - 1)) in
  _current_epoch_order (self w) = None →
  perm_taken (_shuffle_producer (self w)) = 0 →
  _train_batch_size c = Z.of_nat b →
  0 < b ≤ E →
  (∀ k, length (ps k) = E) →
  run N (H := MaterializedDataConstructor) w = (Ok (), w') →
  ∃ new results,
    _training_queue (self w') = _training_queue (self w) ++ new
    ∧ length new = epochs * n
    ∧ Forall (batch_sized w' b) new
    ∧ _eval_results (self w') = Some results
    ∧ length results = Z.to_nat (_eval_batches_per_epoch c)
    ∧ conf (self w') = c
    ∧ perm_started (_shuffle_producer (self w')) = true
    ∧ perm_stopped (_shuffle_producer (self w'))
      = perm_stopped (_shuffle_producer (self w))
    ∧ _stop_loop (self w') = _stop_loop (self w)
    ∧ (0 < n →
       perm_taken (_shuffle_producer (self w')) = S (epochs * n * b / E)).
Proof.
  intros ps c n epochs Ho Hk HB Hb HE HH. subst ps c n epochs.
  unfold run in HH.
  apply M_bind_inv in HH as (s & w0 & [= <- <-] & HH).
  apply M_bind_inv in HH as (rs & wz & HH & [= <-]).
  unfold run_calls in HH. cbn [app mapM] in HH.
  apply M_bind_inv in HH as ([] & w1 & H1 & HH). cbn [exec] in H1.
  injection H1 as <-.
  apply M_bind_inv in HH as (rs1 & wy & HH & [= <- <-]).
  apply M_bind_inv in HH as ([] & w2 & H2 & HH). cbn [exec] in H2.
  apply M_bind_inv in HH as (rs2 & wx & HH & [= <- <-]).
  apply M_bind_inv in HH as ([] & w3 & H3 & HH). cbn [exec] in H3.
  apply M_bind_inv in HH as (rs3 & wv & HH & [= <- <-]).
  apply M_bind_inv in HH as ([] & w4 & H4 & HH). cbn [exec] in H4.
  apply M_bind_inv in HH as (rs4 & w5 & HH & [= <- <-]).
  set (w1 := set_self _ w) in *.
  pose proof (keeps_construct_lookup_variables w1) as Hk2.
  cbn [construct_lookup_variables MaterializedDataConstructor] in H2.
  rewrite H2 in Hk2. simpl in Hk2.
  pose proof (f_equal fst Hk2) as Hc2. pose proof (f_equal snd Hk2) as He2.
  simpl in Hc2, He2. clear Hk2.
  injection Hc2 as Hconf2 Ho2 Hp2 Hq2 Hs2.
  assert (cursor_at w2 E 0 0) as Hcur2.
  { left. rewrite Ho2, Hp2. simpl. by rewrite Ho, Hk. }
  rewrite <- Hconf2 in HB.
  assert (∀ k, length (perm_stream (_shuffle_producer (self w2)) k) = E)
    as HE2 by (by rewrite Hp2).
  destruct (construct_training_epoch_inv w2 w3 E b 0 0 HB Hb HE2 Hcur2 H3)
    as (new1 & t3 & off3 & Hq3 & Hl3 & Hall3 & Hc3 & Hp3 & Hs3).
  destruct (construct_eval_epoch_basic N w3 w4 H4)
    as (results & Hres & Hrl & Hc4 & Hext4).
  pose proof (cursor_at_control _ _ _ _ _ Hc4 Hc3) as Hcur4.
  injection Hc4 as Hconf4 Ho4 Hp4 Hq4 Hs4.
  pose proof Hs3 as (Hconf3 & Hps3 & Hst3 & Hsp3 & _ & Hsl3 & _).
  assert (_train_batch_size (conf (self w4)) = Z.of_nat b) as HB4
    by (by rewrite Hconf4, Hconf3).
  assert (∀ k, length (perm_stream (_shuffle_producer (self w4)) k) = E)
    as HE4 by (by rewrite Hp4, Hps3).
  destruct (training_epochs_queue N _ w4 w5 E b t3 off3 rs4 HB4 Hb HE4 Hcur4 HH)
    as (new & t' & off' & Hq & Hl & Hall & Hc' & Hp & Hs & Hset).
  unfold range in Hl, Hp. rewrite length_fmap, length_seq in Hl, Hp.
  pose proof Hs as (Hconf5 & Hps5 & Hst5 & Hsp5 & He5 & Hsl5 & _ & _ & Hext5).
  rewrite Hconf4, Hconf3, Hconf2 in Hl, Hp. rewrite Hconf2 in Hl3, Hp3.
  rewrite Hconf3, Hconf2 in Hrl.
  exists (new1 ++ new), results.
  split. { rewrite Hq, Hq4, Hq3, Hq2. simpl. by rewrite <- (assoc_L (++)). }
  split. { rewrite length_app. simpl in *. lia. }
  split. { apply Forall_app. split; [|done].
           eapply Forall_impl; [exact Hall3|]. intros batch Hbatch.
           eapply batch_sized_extends; [|exact Hbatch].
           intros l a Hla. by apply Hext5, Hext4. }
  split; [congruence|]. split; [done|].
  split. { by rewrite Hconf5, Hconf4, Hconf3, Hconf2. }
  split. { by rewrite Hst5, Hp4, Hst3, Hp2. }
  split. { by rewrite Hsp5, Hp4, Hsp3, Hp2. }
  split. { by rewrite Hsl5, Hs4, Hsl3, Hs2. }
  intros Hn.
  assert (is_Some (_current_epoch_order (self w5))) as Hsome.
  { apply Hset. rewrite Ho4.
    apply (construct_training_epoch_cursor_set w2 w3 H3).
    by rewrite Hconf2. }
  destruct Hc' as [(Hnone & _)|(_ & -> & Hoff)].
  { destruct Hsome as [? Hsome]. congruence. }
  f_equal. apply (Nat.div_unique _ _ _ off'); simpl in *; lia.
Qed.

(** ** The base class, and too many items *)

Lemma base_get_training_batch (x : Z) (w : World) :
  ∃ e o k, _get_training_batch (H := BaseDataConstructor) x w
           = (Raise e, chunk_world w o k).
Proof.
  unfold _get_training_batch. cbn zeta.
  unfold mbind at 1. unfold M_bind at 1.
  destruct (get_order_chunk_total w) as (chunk & o & k & ->).
  unfold mbind, M_bind, get_self, load_vec, lift. simpl.
  destruct (store w !! _) as [[tpu|?]|]; simpl; eauto.
  destruct (take_idx tpu _) as [users|e]; simpl; eauto.
Qed.

Lemma base_get_eval_batch N (i : Z) (w : World) :
  ∃ e, _get_eval_batch N (H := BaseDataConstructor) i w = (Raise e, w).
Proof.
  unfold _get_eval_batch. cbn zeta.
  unfold mbind, M_bind, get_self, load_vec. simpl.
  destruct (store w !! _) as [[epu|?]|]; simpl; eauto.
  destruct (bool_decide _); simpl; eauto.
  destruct (store w !! _) as [[epi|?]|]; simpl; eauto.
Qed.

(** X13: on [BaseDataConstructor] itself [run] raises NotImplementedError
    right after starting the producer, with nothing queued and no eval
    results; [_get_training_batch] and [_get_eval_batch] raise for every
    argument, and queue nothing. *)
Theorem base_class_builds_nothing N (w : World) :
  let r := run N (H := BaseDataConstructor) w in
  (r.1 = Raise NotImplementedError
   ∧ perm_started (_shuffle_producer (self r.2)) = true
   ∧ _training_queue (self r.2) = _training_queue (self w)
   ∧ _eval_results (self r.2) = _eval_results (self w)
   ∧ store r.2 = store w)
  ∧ (∀ x, let r := _get_training_batch (H := BaseDataConstructor) x w in
       (∃ e, r.1 = Raise e)
       ∧ _training_queue (self r.2) = _training_queue (self w)
       ∧ store r.2 = store w)
  ∧ (∀ i, let r := _get_eval_batch N (H := BaseDataConstructor) i w in
       (∃ e, r.1 = Raise e) ∧ r.2 = w).
Proof.
  split; [done|]. split.
  - intros x. destruct (base_get_training_batch x w) as (e & o & k & ->).
    simpl. eauto.
  - intros i. destruct (base_get_eval_batch N i w) as (e & ->).
    simpl. eauto.
Qed.

(** X14: with [num_items >= 65535], the maximum of [uint16],
    [construct_lookup_variables] raises AssertionError; the table has been
    allocated and filled with 65535 by then and [_negative_table] is set,
    [_per_user_neg_count] is not. *)
Theorem construct_lookup_rejects_many_items (w : World) (tpu : list Z) :
  let c := conf (self w) in
  let r := materialized_construct_lookup_variables w in
  store w !! _train_pos_users c = Some (Vec tpu) →
  (0 ≤ _num_users c)%Z →
  (uint16_max ≤ _num_items c)%Z →
  r.1 = Raise AssertionError
  ∧ _negative_table (self r.2) = Some (length (store w))
  ∧ _per_user_neg_count (self r.2) = _per_user_neg_count (self w)
  ∧ store r.2
    = store w ++ [Mat (replicate (Z.to_nat (_num_users c))
                         (replicate (Z.to_nat (_num_items c)) uint16_max))].
Proof.
  intros c r Htpu Hnu Hni. subst r.
  unfold materialized_construct_lookup_variables.
  unfold mbind, M_bind, get_self, load_vec. cbn beta iota zeta. fold c.
  rewrite Htpu.
  rewrite bool_decide_eq_false_2 by (unfold uint16_max in Hni; lia).
  unfold mret, M_ret, new_array, modify_self. cbn beta iota zeta.
  cbn [self set_store set_self].
  rewrite bool_decide_eq_false_2 by (fold c; lia).
  unfold raise. simpl. done.
Qed.

(** ** The loop over the users in [construct_lookup_variables] *)

Lemma res_bind_inv {A B} (m : res A) (f : A → res B) (b : B) :
  m ≫= f = Ok b → ∃ a, m = Ok a ∧ f a = Ok b.
Proof. destruct m as [a|e]; [eauto|done]. Qed.

Lemma norm_index_nat (n i : nat) :
  i < n → norm_index n (Z.of_nat i) = Ok i.
Proof.
  intros Hi. unfold norm_index. rewrite bool_decide_eq_true_2 by lia.
  by rewrite Nat2Z.id.
Qed.

Lemma getitem_nat (a : list Z) (i : nat) (x : Z) :
  a !! i = Some x → getitem a (Z.of_nat i) = Ok x.
Proof.
  intros Hi. unfold getitem. rewrite norm_index_nat; simpl.
  - by rewrite Hi.
  - by apply lookup_lt_Some in Hi.
Qed.

Lemma store_array_lookup (st : list ndarray) (l : loc) (a b : ndarray) :
  st !! l = Some a → <[l := b]> st !! l = Some b.
Proof.
  intros Hl. apply list_lookup_insert_eq. by apply lookup_lt_Some in Hl.
Qed.

(** One round of the loop, read backwards. *)
Lemma fill_user_row_inv (ib fs : list Z) (i : Z) (w w' : World) :
  fill_user_row ib fs i w = (Ok (), w') →
  let c := conf (self w) in
  ∃ lo hi tpi negatives cl counts k tl table r row vals,
    getitem ib i = Ok lo
    ∧ getitem ib (i + 1) = Ok hi
    ∧ store w !! _train_pos_items c = Some (Vec tpi)
    ∧ np_delete fs (slice lo hi tpi) = Ok negatives
    ∧ _per_user_neg_count (self w) = Some cl
    ∧ store w !! cl = Some (Vec counts)
    ∧ norm_index (length counts) i = Ok k
    ∧ let count := (_num_items c - Z.of_nat (length (slice lo hi tpi)))%Z in
      let st1 := <[cl := Vec (<[k := count]> counts)]> (store w) in
      _negative_table (self w) = Some tl
      ∧ st1 !! tl = Some (Mat table)
      ∧ norm_index (length table) i = Ok r
      ∧ table !! r = Some row
      ∧ broadcast_to (slice_bound (length row) count) negatives = Ok vals
      ∧ w' = set_store
               (<[tl := Mat (<[r := vals
                                  ++ drop (slice_bound (length row) count) row]>
                               table)]> st1) w.
Proof.
  unfold fill_user_row. intros H. cbn zeta.
  apply M_bind_inv in H as (s & w1 & [= <- <-] & H).
  apply M_bind_inv in H as (lo & w1 & (Hlo & ->)%lift_inv & H).
  apply M_bind_inv in H as (hi & w1 & (Hhi & ->)%lift_inv & H).
  apply M_bind_inv in H as (tpi & w1 & (Htpi & ->)%load_vec_inv & H).
  apply M_bind_inv in H as (negs & w1 & (Hneg & ->)%lift_inv & H).
  apply M_bind_inv in H as (cl & w1 & (Hcl & ->)%attr_inv & H).
  apply M_bind_inv in H as (counts & w1 & (Hcounts & ->)%load_vec_inv & H).
  apply M_bind_inv in H as (k & w1 & (Hk & ->)%lift_inv & H).
  apply M_bind_inv in H as ([] & w1 & [= <-] & H).
  apply M_bind_inv in H as (counts' & w1 & (Hcounts' & ->)%load_vec_inv & H).
  simpl in Hcounts'. rewrite (store_array_lookup _ _ _ _ Hcounts) in Hcounts'.
  injection Hcounts' as <-.
  apply M_bind_inv in H as (count_i & w1 & (Hci & ->)%lift_inv & H).
  assert (k < length counts) as Hkl.
  { unfold norm_index in Hk. repeat case_bool_decide; simplify_eq; lia. }
  unfold getitem in Hci. rewrite length_insert, Hk in Hci. simpl in Hci.
  rewrite list_lookup_insert_eq in Hci by done. injection Hci as <-.
  apply M_bind_inv in H as (tl & w1 & (Htl & ->)%attr_inv & H).
  apply M_bind_inv in H as (table & w1 & (Htable & ->)%load_mat_inv & H).
  apply M_bind_inv in H as (r & w1 & (Hr & ->)%lift_inv & H).
  apply M_bind_inv in H as (row & w1 & (Hrow & ->)%lift_inv & H).
  apply M_bind_inv in H as (vals & w1 & (Hvals & ->)%lift_inv & H).
  injection H as <-.
  destruct (table !! r) as [row'|] eqn:Hrow'; [|done]. injection Hrow as ->.
  exists lo, hi, tpi, negs, cl, counts, k, tl, table, r, row, vals.
  simpl in *. by repeat split.
Qed.

Lemma two_lookup_0 {A} (pre : list A) (a b : A) :
  (pre ++ [a; b]) !! length pre = Some a.
Proof. by apply list_lookup_middle. Qed.
Lemma two_lookup_1 {A} (pre : list A) (a b : A) :
  (pre ++ [a; b]) !! S (length pre) = Some b.
Proof.
  rewrite lookup_app_r by lia.
  by replace (S (length pre) - length pre) with 1 by lia.
Qed.
Lemma two_insert_0 {A} (pre : list A) (a b x : A) :
  <[length pre := x]> (pre ++ [a; b]) = pre ++ [x; b].
Proof. rewrite insert_app_r_alt by lia. by rewrite Nat.sub_diag. Qed.
Lemma two_insert_1 {A} (pre : list A) (a b x : A) :
  <[S (length pre) := x]> (pre ++ [a; b]) = pre ++ [a; x].
Proof.
  rewrite insert_app_r_alt by lia.
  by replace (S (length pre) - length pre) with 1 by lia.
Qed.

(** The loop over the users: the rounds done so far have written their
    rows and counts, the others are as allocated. *)
Lemma fill_rows_inv (ib tpi : list Z) (nu : nat) (m : nat) :
  ∀ (i : nat) (w w' : World) (rs : list ()) (pre : list ndarray)
    (table : list (list Z)) (counts : list Z),
  let c := conf (self w) in
  let ni := _num_items c in
  i + m = nu →
  store w = pre ++ [Mat table; Vec counts] →
  _negative_table (self w) = Some (length pre) →
  _per_user_neg_count (self w) = Some (S (length pre)) →
  pre !! _train_pos_items c = Some (Vec tpi) →
  length table = nu → length counts = nu →
  (∀ r, i ≤ r < nu →
     table !! r = Some (replicate (Z.to_nat ni) uint16_max)
     ∧ counts !! r = Some 0%Z) →
  (∀ r, r < i → ∃ cnt row,
     user_row ni ib tpi (Z.of_nat r) = Ok (cnt, row)
     ∧ table !! r = Some row ∧ counts !! r = Some cnt) →
  mapM (fill_user_row ib (range ni)) (Z.of_nat <$> seq i m) w = (Ok rs, w') →
  ∃ table' counts',
    w' = set_store (pre ++ [Mat table'; Vec counts']) w
    ∧ length table' = nu ∧ length counts' = nu
    ∧ ∀ r, r < nu → ∃ cnt row,
        user_row ni ib tpi (Z.of_nat r) = Ok (cnt, row)
        ∧ table' !! r = Some row ∧ counts' !! r = Some cnt.
Proof.
  induction m as [|m IH];
    intros i w w' rs pre table counts c ni Him Hst Htl Hcl Htpi Hlt Hlc
           Hrest Hdone HH.
  - injection HH as <- <-. exists table, counts.
    split. { destruct w as [st s ro rc]. simpl in *. by subst. }
    split; [done|]. split; [done|]. intros r Hr. apply Hdone. lia.
  - simpl in HH.
    apply M_bind_inv in HH as ([] & w1 & H1 & HH).
    apply M_bind_inv in HH as (rs' & w2 & H2 & HH).
    injection HH as <- <-.
    apply fill_user_row_inv in H1
      as (lo & hi & tpi0 & negs & cl & counts0 & k & tl & table0 & r0 & row
          & vals & Hlo & Hhi & Htpi0 & Hneg & Hcl0 & Hcounts0 & Hk & Htl0
          & Htable0 & Hr0 & Hrow & Hvals & ->).
    fold c ni in Htpi0, Hneg, Hvals, Htable0 |- *.
    rewrite Hcl in Hcl0. injection Hcl0 as <-.
    rewrite Htl in Htl0. injection Htl0 as <-.
    rewrite Hst in Htpi0, Hcounts0, Htable0, H2.
    rewrite (lookup_app_l_Some _ _ _ _ Htpi) in Htpi0. injection Htpi0 as <-.
    rewrite two_lookup_1 in Hcounts0. injection Hcounts0 as <-.
    rewrite two_insert_1, two_lookup_0 in Htable0. injection Htable0 as <-.
    rewrite two_insert_1, two_insert_0 in H2.
    rewrite Hlc, norm_index_nat in Hk by lia. injection Hk as <-.
    rewrite Hlt, norm_index_nat in Hr0 by lia. injection Hr0 as <-.
    destruct (Hrest i ltac:(lia)) as [Hrow_i Hcount_i].
    rewrite Hrow_i in Hrow. injection Hrow as <-.
    rewrite length_replicate in Hvals.
    rewrite length_replicate, drop_replicate in H2.
    set (count := (ni - Z.of_nat (length (slice lo hi tpi)))%Z) in *.
    set (stop := slice_bound (Z.to_nat ni) count) in *.
    set (table1 := <[i := vals ++ replicate (Z.to_nat ni - stop) uint16_max]>
                     table).
    set (counts1 := <[i := count]> counts).
    set (w1 := set_store (pre ++ [Mat table1; Vec counts1]) w) in *.
    destruct (IH (S i) w1 w2 rs' pre table1 counts1) as
      (table' & counts' & -> & Hlt' & Hlc' & Hall); try done.
    + lia.
    + unfold table1. by rewrite length_insert.
    + unfold counts1. by rewrite length_insert.
    + intros r Hr. unfold table1, counts1.
      rewrite !list_lookup_insert_ne by lia. apply Hrest. lia.
    + intros r Hr. destruct (decide (r = i)) as [->|Hne].
      * exists count, (vals ++ replicate (Z.to_nat ni - stop) uint16_max).
        split.
        { change (_num_items (conf (self w1))) with ni.
          unfold user_row, mbind, res_bind.
          rewrite Hlo. cbv beta iota. rewrite Hhi. cbv beta iota zeta.
          rewrite Hneg. cbv beta iota.
          fold count stop. by rewrite Hvals. }
        unfold table1, counts1.
        rewrite !list_lookup_insert_eq by lia. done.
      * unfold table1, counts1. rewrite !list_lookup_insert_ne by lia.
        apply Hdone. lia.
    + exists table', counts'. by repeat split.
Qed.

(** ** What [np.delete] leaves of the items *)

Lemma res_mapM_Forall2 {A B} (f : A → res B) (l : list A) (r : list B) :
  res_mapM f l = Ok r → Forall2 (λ a b, f a = Ok b) l r.
Proof.
  revert r. induction l as [|a l IH]; intros r Hr; simpl in Hr.
  - injection Hr as <-. constructor.
  - apply res_bind_inv in Hr as (b & Hb & Hr).
    apply res_bind_inv in Hr as (bs & Hbs & Hr).
    injection Hr as <-. constructor; [done|by apply IH].
Qed.

Lemma getitem_nat_inv (a : list Z) (i : nat) (x : Z) :
  getitem a (Z.of_nat i) = Ok x → a !! i = Some x.
Proof.
  unfold getitem, norm_index. intros H.
  case_bool_decide as H1.
  - simpl in H. rewrite Nat2Z.id in H.
    by destruct (a !! i) as [y|]; simplify_eq.
  - case_bool_decide as H2; [lia|done].
Qed.

Lemma drop_positions_filter (ks : list nat) (k n : nat) :
  drop_positions k ks (Z.of_nat <$> seq k n)
  = Z.of_nat <$> filter (λ j, j ∉ ks) (seq k n).
Proof.
  revert k. induction n as [|n IH]; intros k; [done|]. simpl.
  case_bool_decide as Hk.
  - rewrite filter_cons_False by (intros Hn; by apply Hn). apply IH.
  - rewrite filter_cons_True by done. simpl. f_equal. apply IH.
Qed.

Lemma filter_positions (ks : list nat) (positives : list Z) (k n : nat) :
  (∀ j, j ∈ ks ↔ Z.of_nat j ∈ positives) →
  Z.of_nat <$> filter (λ j, j ∉ ks) (seq k n)
  = filter (λ x, x ∉ positives) (Z.of_nat <$> seq k n).
Proof.
  intros Hks. revert k. induction n as [|n IH]; intros k; [done|]. simpl.
  destruct (decide (k ∈ ks)) as [Hk|Hk].
  - rewrite filter_cons_False by (intros Hn; by apply Hn).
    rewrite filter_cons_False; [apply IH|].
    intros Hn. by apply Hn, Hks.
  - rewrite filter_cons_True by done.
    rewrite filter_cons_True; [simpl; f_equal; apply IH|].
    intros Hn. by apply Hk, Hks.
Qed.

Lemma complement_length (ks : list nat) (n : nat) :
  NoDup ks → (∀ k, k ∈ ks → k < n) →
  length (filter (λ j, j ∉ ks) (seq 0 n)) + length ks = n.
Proof.
  intros Hnd Hlt.
  assert (filter (λ j, j ∈ ks) (seq 0 n) ≡ₚ ks) as Hin.
  { apply NoDup_Permutation; [apply NoDup_filter, NoDup_seq|done|].
    intros x. rewrite list_elem_of_filter, elem_of_seq.
    split; [by intros [? _]|]. intros Hx. split; [done|].
    specialize (Hlt x Hx). lia. }
  pose proof (filter_app_complement (λ j, j ∈ ks) (seq 0 n)) as Hp.
  apply Permutation_length in Hp, Hin.
  rewrite length_app, length_seq in Hp. lia.
Qed.

(** What [np.delete] leaves of [arange(num_items)]. *)
Lemma np_delete_range (ni : Z) (positives negatives : list Z) :
  np_delete (range ni) positives = Ok negatives →
  ∃ ks, Forall2 (λ p k, norm_index (Z.to_nat ni) p = Ok k) positives ks
        ∧ negatives
          = Z.of_nat <$> filter (λ j, j ∉ ks) (seq 0 (Z.to_nat ni)).
Proof.
  unfold np_delete. intros H.
  apply res_bind_inv in H as (ks & Hks & [= <-]).
  apply res_mapM_Forall2 in Hks. exists ks.
  unfold range in Hks |- *. rewrite length_fmap, length_seq in Hks.
  split; [done|]. apply drop_positions_filter.
Qed.

Lemma np_delete_sound (ni : Z) (positives negatives : list Z) (x : Z) :
  np_delete (range ni) positives = Ok negatives →
  x ∈ negatives → (0 ≤ x < ni)%Z ∧ x ∉ positives.
Proof.
  intros (ks & Hks & ->)%np_delete_range Hx.
  apply list_elem_of_fmap in Hx as (j & -> & Hj).
  apply list_elem_of_filter in Hj as [Hj Hseq].
  apply elem_of_seq in Hseq. split; [lia|]. intros Hin.
  apply Hj. apply list_elem_of_lookup in Hin as (p & Hp).
  destruct (Forall2_lookup_l _ _ _ _ _ Hks Hp) as (k & Hk & Hnorm).
  apply list_elem_of_lookup. exists p.
  rewrite norm_index_nat in Hnorm by lia. by injection Hnorm as <-.
Qed.

Lemma np_delete_complete (ni : Z) (positives negatives : list Z) :
  np_delete (range ni) positives = Ok negatives →
  Forall (λ p, 0 ≤ p)%Z positives →
  negatives = filter (λ x, x ∉ positives) (range ni)
  ∧ (NoDup positives →
     length negatives + length positives = Z.to_nat ni).
Proof.
  intros (ks & Hks & ->)%np_delete_range Hpos.
  assert (ks = Z.to_nat <$> positives) as ->.
  { clear -Hks Hpos. induction Hks as [|p k ps ks Hp _ IH]; [done|].
    apply Forall_cons in Hpos as [Hp0 Hpos]. simpl. f_equal; [|by apply IH].
    unfold norm_index in Hp. case_bool_decide; [by simplify_eq|].
    case_bool_decide; [lia|done]. }
  assert (∀ k, k ∈ Z.to_nat <$> positives → k < Z.to_nat ni) as Hlt.
  { intros k (p & -> & Hp)%list_elem_of_fmap.
    apply list_elem_of_lookup in Hp as (i & Hi).
    destruct (Forall2_lookup_l _ _ _ _ _ Hks Hi) as (k & Hk & Hnorm).
    rewrite Forall_forall in Hpos.
    specialize (Hpos p ltac:(by eapply list_elem_of_lookup_2)).
    unfold norm_index in Hnorm. case_bool_decide; [lia|].
    case_bool_decide; [lia|done]. }
  split.
  - apply filter_positions. intros j. rewrite list_elem_of_fmap.
    rewrite Forall_forall in Hpos. split.
    + intros (p & -> & Hp). specialize (Hpos p Hp).
      by rewrite Z2Nat.id.
    + intros Hj. exists (Z.of_nat j). by rewrite Nat2Z.id.
  - intros Hnd. rewrite length_fmap.
    rewrite <- (complement_length (Z.to_nat <$> positives) (Z.to_nat ni))
      at 2; [by rewrite length_fmap| |done].
    apply NoDup_fmap_2_strong; [|done].
    rewrite Forall_forall in Hpos.
    intros p q Hp Hq Heq. specialize (Hpos p Hp) as Hp0.
    specialize (Hpos q Hq) as Hq0. lia.
Qed.

Lemma broadcast_to_inv (k : nat) (vals out : list Z) :
  broadcast_to k vals = Ok out →
  length out = k ∧ (∀ x, x ∈ out → x ∈ vals)
  ∧ (length vals = k → out = vals).
Proof.
  unfold broadcast_to. case_bool_decide as Hl.
  - intros [= <-]. done.
  - destruct vals as [|v [|? ?]]; try done. intros [= <-].
    split; [by rewrite length_replicate|]. split; [|done].
    intros x (-> & _)%elem_of_replicate. apply elem_of_cons. by left.
Qed.

Lemma slice_bound_le (n : nat) (b : Z) : slice_bound n b ≤ n.
Proof. unfold slice_bound. case_bool_decide; lia. Qed.

(** What a round of the loop writes for one user. *)
Lemma user_row_inv (ni : Z) (ib tpi : list Z) (r : nat) (cnt : Z)
    (row : list Z) :
  (0 ≤ ni)%Z →
  user_row ni ib tpi (Z.of_nat r) = Ok (cnt, row) →
  ∃ lo hi,
    ib !! r = Some lo ∧ ib !! S r = Some hi
    ∧ let positives := slice lo hi tpi in
      let stop := slice_bound (Z.to_nat ni) cnt in
      cnt = (ni - Z.of_nat (length positives))%Z
      ∧ length row = Z.to_nat ni
      ∧ (∀ x, x ∈ take stop row → (0 ≤ x < ni)%Z ∧ x ∉ positives)
      ∧ drop stop row = replicate (Z.to_nat ni - stop) uint16_max
      ∧ (Forall (λ p, 0 ≤ p)%Z positives → NoDup positives →
         (0 ≤ cnt)%Z
         ∧ take stop row = filter (λ x, x ∉ positives) (range ni)).
Proof.
  unfold user_row. intros Hni H.
  apply res_bind_inv in H as (lo & Hlo & H).
  apply res_bind_inv in H as (hi & Hhi & H). cbv zeta in H.
  apply res_bind_inv in H as (negs & Hnegs & H).
  apply res_bind_inv in H as (vals & Hvals & H).
  injection H as <- <-.
  apply getitem_nat_inv in Hlo.
  replace (Z.of_nat r + 1)%Z with (Z.of_nat (S r)) in Hhi by lia.
  apply getitem_nat_inv in Hhi.
  exists lo, hi. split; [done|]. split; [done|]. cbv zeta.
  set (positives := slice lo hi tpi) in *.
  set (cnt := (ni - Z.of_nat (length positives))%Z) in *.
  set (stop := slice_bound (Z.to_nat ni) cnt) in *.
  pose proof (slice_bound_le (Z.to_nat ni) cnt) as Hstop. fold stop in Hstop.
  apply broadcast_to_inv in Hvals as (Hvl & Hvin & Hsame).
  split; [done|].
  split. { rewrite length_app, length_replicate. lia. }
  split.
  { intros x Hx. rewrite take_app_length' in Hx by done.
    apply (np_delete_sound ni positives negs x Hnegs). by apply Hvin. }
  split. { by rewrite drop_app_length'. }
  intros Hpos Hnd.
  destruct (np_delete_complete ni positives negs Hnegs Hpos) as [Heq Hlen].
  specialize (Hlen Hnd).
  assert (0 ≤ cnt)%Z as Hcnt by (unfold cnt; lia).
  split; [done|].
  rewrite take_app_length' by done. rewrite <- Heq. apply Hsame.
  unfold stop, slice_bound. rewrite bool_decide_eq_false_2 by lia.
  unfold cnt. lia.
Qed.

Lemma construct_lookup_inv (w w' : World) (tpu tpi : list Z) :
  let c := conf (self w) in
  let nu := Z.to_nat (_num_users c) in
  store w !! _train_pos_users c = Some (Vec tpu) →
  store w !! _train_pos_items c = Some (Vec tpi) →
  materialized_construct_lookup_variables w = (Ok (), w') →
  ∃ table counts,
    w' = set_store (store w ++ [Mat table; Vec counts])
           (set_self (with_per_user_neg_count (Some (S (length (store w))))
                        (with_negative_table (Some (length (store w)))
                                             (self w))) w)
    ∧ (0 ≤ _num_users c)%Z
    ∧ (0 ≤ _num_items c < uint16_max)%Z
    ∧ length table = nu ∧ length counts = nu
    ∧ ∀ r, r < nu → ∃ cnt row,
        user_row (_num_items c) (index_bounds (_num_users c) tpu) tpi
                 (Z.of_nat r) = Ok (cnt, row)
        ∧ table !! r = Some row ∧ counts !! r = Some cnt.
Proof.
  intros c nu Htpu Htpi H. unfold materialized_construct_lookup_variables in H.
  apply M_bind_inv in H as (s & w1 & [= <- <-] & H). cbv zeta in H.
  apply M_bind_inv in H as (tpu0 & w1 & (Htpu0 & ->)%load_vec_inv & H).
  fold c in Htpu0, H. rewrite Htpu in Htpu0. injection Htpu0 as <-.
  apply M_bind_inv in H as ([] & w1 & (Hneg & ->)%guard_inv & H).
  apply bool_decide_eq_false in Hneg.
  apply M_bind_inv in H as (tl & w1 & [= <- <-] & H).
  apply M_bind_inv in H as ([] & w1 & [= <-] & H).
  apply M_bind_inv in H as ([] & w1 & (Hlt & ->)%assert_inv & H).
  apply bool_decide_eq_true in Hlt.
  apply M_bind_inv in H as (cl & w1 & [= <- <-] & H).
  apply M_bind_inv in H as ([] & w1 & [= <-] & H).
  apply M_bind_inv in H as (rs & w1 & H & [= <-]).
  fold (index_bounds (_num_users c) tpu) in H. unfold range at 2 in H.
  set (table0 := replicate (Z.to_nat (_num_users c))
                   (replicate (Z.to_nat (_num_items c)) (0 + uint16_max)%Z))
    in *.
  set (counts0 := replicate (Z.to_nat (_num_users c)) 0%Z) in *.
  match type of H with mapM _ _ ?wx = _ => set (w4 := wx) in * end.
  assert (store w4 = store w ++ [Mat table0; Vec counts0]) as Hst.
  { simpl. by rewrite <- (assoc_L (++)). }
  assert (_negative_table (self w4) = Some (length (store w))) as Htl.
  { done. }
  assert (_per_user_neg_count (self w4) = Some (S (length (store w)))) as Hcl.
  { simpl. rewrite length_app. simpl. f_equal. lia. }
  destruct (fill_rows_inv (index_bounds (_num_users c) tpu) tpi nu nu 0
              w4 w1 rs (store w) table0 counts0)
    as (table' & counts' & -> & Hl1 & Hl2 & Hall); try done.
  - apply length_replicate.
  - apply length_replicate.
  - intros r Hr. unfold table0, counts0.
    rewrite !lookup_replicate_2 by (fold nu; lia). done.
  - intros r Hr. lia.
  - exists table', counts'. split.
    { unfold w4. simpl. rewrite length_app. simpl.
      by rewrite Nat.add_1_r. }
    split; [lia|]. split; [lia|]. done.
Qed.

(** ** The negative table, row by row *)

Lemma user_slice_eq (ib tpi : list Z) (r : nat) (lo hi : Z) :
  ib !! r = Some lo → ib !! S r = Some hi →
  user_slice ib tpi r = slice lo hi tpi.
Proof. unfold user_slice. by intros -> ->. Qed.

(** X15: a call of [construct_lookup_variables] that returns has allocated
    two buffers, a table of [num_users] rows of [num_items] entries and
    [num_users] counts, and changed no other buffer; [num_items] is below
    65535.  For user [r], with the slice of the item column between the
    bounds [r] and [r + 1] of [index_bounds]: the count is [num_items]
    minus the length of the slice, the entries of the row up to the count
    are items that are not in the slice, and the rest of the row is
    65535. *)
Theorem construct_lookup_builds_table (w w' : World) (tpu tpi : list Z) :
  let c := conf (self w) in
  let nu := Z.to_nat (_num_users c) in
  let ni := _num_items c in
  let ib := index_bounds (_num_users c) tpu in
  store w !! _train_pos_users c = Some (Vec tpu) →
  store w !! _train_pos_items c = Some (Vec tpi) →
  materialized_construct_lookup_variables w = (Ok (), w') →
  ∃ table counts,
    _negative_table (self w') = Some (length (store w))
    ∧ _per_user_neg_count (self w') = Some (S (length (store w)))
    ∧ store w' = store w ++ [Mat table; Vec counts]
    ∧ length table = nu ∧ length counts = nu
    ∧ (0 ≤ ni < uint16_max)%Z
    ∧ ∀ r row cnt, table !! r = Some row → counts !! r = Some cnt →
        let positives := user_slice ib tpi r in
        let stop := slice_bound (Z.to_nat ni) cnt in
        cnt = (ni - Z.of_nat (length positives))%Z
        ∧ length row = Z.to_nat ni
        ∧ (∀ x, x ∈ take stop row → (0 ≤ x < ni)%Z ∧ x ∉ positives)
        ∧ drop stop row = replicate (Z.to_nat ni - stop) uint16_max.
Proof.
  intros c nu ni ib Htpu Htpi H.
  destruct (construct_lookup_inv w w' tpu tpi Htpu Htpi H)
    as (table & counts & -> & Hnu & Hni & Hlt & Hlc & Hall).
  exists table, counts. split; [done|]. split; [done|]. split; [done|].
  split; [done|]. split; [done|]. split; [done|].
  intros r row cnt Hrow Hcnt.
  assert (r < nu) as Hr.
  { apply lookup_lt_Some in Hrow. unfold nu, c in *. lia. }
  destruct (Hall r Hr) as (cnt' & row' & Hur & Hrow' & Hcnt').
  rewrite Hrow in Hrow'. rewrite Hcnt in Hcnt'.
  injection Hrow' as <-. injection Hcnt' as <-.
  apply user_row_inv in Hur as (lo & hi & Hlo & Hhi & Hc & Hl & Hs & Hd & _);
    [|lia].
  fold ib in Hlo, Hhi. cbv zeta.
  rewrite (user_slice_eq ib tpi r lo hi Hlo Hhi). done.
Qed.

Lemma construct_lookup_row_of_slice (w w' : World) (tpu tpi : list Z)
    (r : nat) :
  let c := conf (self w) in
  let ni := _num_items c in
  let positives := user_slice (index_bounds (_num_users c) tpu) tpi r in
  store w !! _train_pos_users c = Some (Vec tpu) →
  store w !! _train_pos_items c = Some (Vec tpi) →
  materialized_construct_lookup_variables w = (Ok (), w') →
  r < Z.to_nat (_num_users c) →
  Forall (λ p, 0 ≤ p)%Z positives →
  NoDup positives →
  ∃ table counts,
    store w' = store w ++ [Mat table; Vec counts]
    ∧ counts !! r = Some (ni - Z.of_nat (length positives))%Z
    ∧ table !! r
      = Some (filter (λ x, x ∉ positives) (range ni)
              ++ replicate (length positives) uint16_max)
    ∧ length positives ≤ Z.to_nat ni.
Proof.
  intros c ni positives Htpu Htpi H Hr Hpos Hnd.
  destruct (construct_lookup_inv w w' tpu tpi Htpu Htpi H)
    as (table & counts & -> & Hnu & Hni & Hlt & Hlc & Hall).
  exists table, counts. split; [done|].
  destruct (Hall r Hr) as (cnt & row & Hur & Hrow & Hcnt).
  apply user_row_inv in Hur
    as (lo & hi & Hlo & Hhi & Hc & Hl & _ & Hd & Hfull); [|lia].
  cbv zeta in Hfull, Hc, Hd.
  rewrite <- (user_slice_eq _ tpi r lo hi Hlo Hhi) in Hfull, Hc.
  fold c positives ni in Hfull, Hc, Hd, Hl.
  destruct (Hfull Hpos Hnd) as [Hc0 Htake].
  assert (slice_bound (Z.to_nat ni) cnt = Z.to_nat cnt) as Hstop.
  { unfold slice_bound. rewrite bool_decide_eq_false_2 by lia. lia. }
  rewrite Hstop in Htake, Hd.
  split; [by rewrite Hcnt, Hc|]. split; [|lia].
  rewrite Hrow. f_equal.
  rewrite <- (take_drop (Z.to_nat cnt) row), Htake, Hd. do 2 f_equal. lia.
Qed.

(** X16: when the slice of user [r] holds item ids that are not negative
    and pairwise different, the row of [r] is the items that are not in
    the slice, in increasing order, followed by one 65535 for each item of
    the slice, and the count of [r] is the number of the former. *)
Theorem construct_lookup_row_complement (w w' : World) (tpu tpi : list Z)
    (r : nat) :
  let c := conf (self w) in
  let ni := _num_items c in
  let positives := user_slice (index_bounds (_num_users c) tpu) tpi r in
  store w !! _train_pos_users c = Some (Vec tpu) →
  store w !! _train_pos_items c = Some (Vec tpi) →
  materialized_construct_lookup_variables w = (Ok (), w') →
  r < Z.to_nat (_num_users c) →
  Forall (λ p, 0 ≤ p)%Z positives →
  NoDup positives →
  ∃ table counts,
    store w' = store w ++ [Mat table; Vec counts]
    ∧ counts !! r = Some (ni - Z.of_nat (length positives))%Z
    ∧ table !! r
      = Some (filter (λ x, x ∉ positives) (range ni)
              ++ replicate (length positives) uint16_max)
    ∧ length positives ≤ Z.to_nat ni.
Proof. apply construct_lookup_row_of_slice. Qed.

Lemma res_mapM_total {A B} (f : A → res B) (l : list A) :
  Forall (λ a, ∃ b, f a = Ok b) l → ∃ r, res_mapM f l = Ok r.
Proof.
  induction 1 as [|a l [b Hb] _ [r Hr]]; [by exists []|].
  exists (b :: r). simpl. by rewrite Hb, Hr.
Qed.

Lemma load_vec_ok (l : loc) (w : World) (v : list Z) :
  store w !! l = Some (Vec v) → load_vec l w = (Ok v, w).
Proof. unfold load_vec. by intros ->. Qed.
Lemma load_mat_ok (l : loc) (w : World) (m : list (list Z)) :
  store w !! l = Some (Mat m) → load_mat l w = (Ok m, w).
Proof. unfold load_mat. by intros ->. Qed.

Lemma lookup_sampled (w w' w2 : World) (tpu tpi us : list Z) :
  let c := conf (self w) in
  let ni := _num_items c in
  let ib := index_bounds (_num_users c) tpu in
  store w !! _train_pos_users c = Some (Vec tpu) →
  store w !! _train_pos_items c = Some (Vec tpi) →
  materialized_construct_lookup_variables w = (Ok (), w') →
  steady w' w2 →
  (∀ n i k, (0 < k)%Z → (0 ≤ rand_oracle w2 n i k < k)%Z) →
  Forall (λ u, (0 ≤ u < _num_users c)%Z
               ∧ length (user_slice ib tpi (Z.to_nat u)) < Z.to_nat ni) us →
  ∃ items,
    materialized_lookup_negative_items us w2
    = (Ok items, set_rand_calls (S (rand_calls w2)) w2)
    ∧ Forall2 (λ u x, (0 ≤ x < ni)%Z
                      ∧ x ∉ user_slice ib tpi (Z.to_nat u)) us items.
Proof.
  intros c ni ib Htpu Htpi H Hs Hrand Hus. subst ni ib c.
  set (ib := index_bounds (_num_users (conf (self w))) tpu) in *.
  set (ni := _num_items (conf (self w))) in *.
  destruct (construct_lookup_inv w w' tpu tpi Htpu Htpi H)
    as (table & counts & -> & Hnu & Hni & Hlt & Hlc & Hall).
  destruct Hs as (_ & _ & _ & _ & _ & _ & Htl & Hcl & Hext).
  simpl in Htl, Hcl.
  assert (store w2 !! length (store w) = Some (Mat table)) as Htable.
  { apply Hext. simpl. apply two_lookup_0. }
  assert (store w2 !! S (length (store w)) = Some (Vec counts)) as Hcounts.
  { apply Hext. simpl. apply two_lookup_1. }
  (* the counts of the users asked for *)
  assert (∀ u, u ∈ us → ∃ cnt row,
            getitem counts u = Ok cnt ∧ (0 < cnt ≤ ni)%Z
            ∧ table !! Z.to_nat u = Some row
            ∧ norm_index (length table) u = Ok (Z.to_nat u)
            ∧ length row = Z.to_nat ni
            ∧ ∀ x, x ∈ take (Z.to_nat cnt) row →
                (0 ≤ x < ni)%Z ∧ x ∉ user_slice ib tpi (Z.to_nat u))
    as Huser.
  { intros u Hu. rewrite Forall_forall in Hus.
    destruct (Hus u Hu) as [Hu0 Hlen].
    destruct (Hall (Z.to_nat u) ltac:(lia)) as (cnt & row & Hur & Hrow & Hcnt).
    apply user_row_inv in Hur
      as (lo & hi & Hlo & Hhi & Hc & Hl & Hsound & _); [|lia].
    cbv zeta in Hc, Hsound.
    rewrite <- (user_slice_eq _ tpi _ lo hi Hlo Hhi) in Hc, Hsound.
    fold ib ni in Hc, Hsound, Hl. unfold ni in *.
    exists cnt, row.
    assert (0 < cnt ≤ _num_items (conf (self w)))%Z as Hc0 by lia.
    split. { rewrite <- (Z2Nat.id u) by lia. by apply getitem_nat. }
    split; [done|]. split; [done|].
    split. { rewrite <- (Z2Nat.id u) at 1 by lia. apply norm_index_nat.
             lia. }
    split; [done|]. intros x Hx. apply Hsound.
    replace (slice_bound _ cnt) with (Z.to_nat cnt); [done|].
    unfold slice_bound. rewrite bool_decide_eq_false_2 by lia. lia. }
  destruct (res_mapM_total (getitem counts) us) as [selected Hsel].
  { apply Forall_forall. intros u Hu.
    destruct (Huser u Hu) as (cnt & _ & ? & _). by exists cnt. }
  pose proof (res_mapM_Forall2 _ _ _ Hsel) as Hsel2.
  set (choice := imap (rand_oracle w2 (rand_calls w2)) selected).
  assert (length choice = length us) as Hcl2.
  { unfold choice. rewrite length_imap. by apply res_mapM_length in Hsel. }
  assert (∀ i u ch, us !! i = Some u → choice !! i = Some ch →
            ∃ x, getitem2 table (u, ch) = Ok x
                 ∧ (0 ≤ x < ni)%Z ∧ x ∉ user_slice ib tpi (Z.to_nat u))
    as Hpick.
  { intros i u ch Hu Hch. unfold choice in Hch.
    rewrite list_lookup_imap in Hch.
    destruct (Forall2_lookup_l _ _ _ _ _ Hsel2 Hu) as (sel & Hsi & Hget).
    rewrite Hsi in Hch. injection Hch as <-.
    destruct (Huser u ltac:(by eapply list_elem_of_lookup_2))
      as (cnt & row & Hcnt & Hc0 & Hrow & Hnorm & Hl & Hsound).
    rewrite Hget in Hcnt. injection Hcnt as ->.
    pose proof (Hrand (rand_calls w2) i cnt ltac:(lia)) as Hch.
    set (ch := rand_oracle w2 (rand_calls w2) i cnt) in *.
    destruct (lookup_lt_is_Some_2 row (Z.to_nat ch)) as [x Hx]; [lia|].
    exists x. split.
    { unfold getitem2. simpl. rewrite Hnorm. simpl. rewrite Hrow.
      rewrite <- (Z2Nat.id ch) by lia. by apply getitem_nat. }
    apply Hsound. apply list_elem_of_lookup. exists (Z.to_nat ch).
    rewrite lookup_take_lt by lia. done. }
  destruct (res_mapM_total (getitem2 table) (zip us choice)) as [items Hitems].
  { apply Forall_lookup. intros i [u ch] Hi.
    apply lookup_zip_with_Some in Hi as (u' & ch' & [= <- <-] & Hu & Hch).
    destruct (Hpick i u ch Hu Hch) as (x & Hx & _). by exists x. }
  exists items. split.
  - unfold materialized_lookup_negative_items, mbind, M_bind, get_self.
    rewrite Hcl. unfold attr, mret, M_ret.
    rewrite (load_vec_ok _ _ _ Hcounts).
    unfold lift, take_idx. rewrite Hsel.
    unfold slightly_biased_randint. fold choice.
    cbn [self set_rand_calls]. rewrite Htl.
    rewrite (load_mat_ok _ (set_rand_calls _ w2) table Htable).
    unfold take_idx2. rewrite bool_decide_eq_true_2 by done.
    by rewrite Hitems.
  - pose proof (res_mapM_Forall2 _ _ _ Hitems) as Hit2.
    apply Forall2_same_length_lookup. split.
    { apply res_mapM_length in Hitems. rewrite Hitems, length_zip_with. lia. }
    intros i u x Hu Hx.
    destruct (lookup_lt_is_Some_2 choice i) as [ch Hch].
    { rewrite Hcl2. by apply lookup_lt_Some in Hu. }
    destruct (Hpick i u ch Hu Hch) as (x' & Hx' & Hprop).
    assert (zip us choice !! i = Some (u, ch)) as Hz.
    { apply lookup_zip_with_Some. by exists u, ch. }
    destruct (Forall2_lookup_l _ _ _ _ _ Hit2 Hz) as (x'' & Hx'' & Hget).
    rewrite Hx in Hx''. injection Hx'' as <-.
    rewrite Hget in Hx'. by injection Hx' as <-.
Qed.

(** ** The further statements at the small instances *)

Lemma init_sizes_cover_witness :
  let c := conf (self small_world) in
  (_eval_users_per_batch c * (1 + 2) = _eval_batch_size c
   ∧ 0 < _eval_users_per_batch c
   ∧ _elements_in_epoch c ≤ _train_batches_per_epoch c * _train_batch_size c
   ∧ (_batches_per_train_step c | _train_batches_per_epoch c)
   ∧ _num_users c ≤ _eval_batches_per_epoch c * _eval_users_per_batch c
   ∧ (1 | _eval_batches_per_epoch c))%Z.
Proof.
  apply (init_sizes_cover 2 small_store small_perms last_index
           3 2 3 0%nat 1%nat 4 1 1 2%nat 3%nat 6 1 small_world);
    [lia | lia | lia | lia | lia | reflexivity].
Defined.

Lemma construct_training_epoch_queues_witness :
  let w := small_ready in
  let w' := world_after
              (_construct_training_epoch (H := MaterializedDataConstructor)
                                         w) in
  ∃ new t' off',
    _training_queue (self w') = _training_queue (self w) ++ new
    ∧ length new = Z.to_nat (_train_batches_per_epoch (conf (self w)))
    ∧ Forall (batch_sized w' 4) new
    ∧ cursor_at w' 6 t' off'
    ∧ t' * 6 + off' = 0 * 6 + 0
                      + Z.to_nat (_train_batches_per_epoch (conf (self w))) * 4
    ∧ steady w w'.
Proof.
  apply (construct_training_epoch_queues small_ready
           (world_after
              (_construct_training_epoch (H := MaterializedDataConstructor)
                                         small_ready))
           6 4 0 0);
    [ reflexivity | lia
    | intros k; simpl; unfold small_perms; destruct (Nat.even k); reflexivity
    | left; repeat split; reflexivity
    | vm_compute; reflexivity ].
Defined.

Lemma eval_batch_fixed_size_witness :
  let users := [0; 0; 0; 1; 1; 1]%Z in
  let items := [2; 2; 2; 2; 2; 1]%Z in
  let mask := [1; 1; 0; 1; 0; 0]%Z in
  let rows := slice (0 * 2) ((0 + 1) * 2) [0; 1]%Z in
  let W := Z.to_nat (1 + 2) in
  length rows ≤ Z.to_nat 2
  ∧ length users = Z.to_nat 2 * W
  ∧ length items = Z.to_nat 2 * W
  ∧ length mask = Z.to_nat 2 * W
  ∧ take (length rows * W) users = concat (replicate W <$> rows)
  ∧ drop (length rows * W) users
    = replicate ((Z.to_nat 2 - length rows) * W) 0%Z
  ∧ drop (length rows * W) items
    = replicate ((Z.to_nat 2 - length rows) * W) 0%Z
  ∧ drop (length rows * W) mask
    = replicate ((Z.to_nat 2 - length rows) * W) 0%Z.
Proof.
  apply (eval_batch_fixed_size (H := MaterializedDataConstructor)
           2 0 small_ready
           (world_after
              (_get_eval_batch 2 (H := MaterializedDataConstructor) 0
                               small_ready))
           [0; 0; 0; 1; 1; 1]%Z [2; 2; 2; 2; 2; 1]%Z [1; 1; 0; 1; 0; 0]%Z
           [0; 1]%Z [2; 1]%Z);
    [lia | vm_compute; discriminate | reflexivity | reflexivity | reflexivity].
Defined.

Lemma eval_row_candidates_witness :
  let W := Z.to_nat (1 + 2) in
  let rows := slice (0 * 2) ((0 + 1) * 2) [0; 1]%Z in
  ∃ sampled,
    (materialized_lookup_negative_items
       (concat (replicate (Z.to_nat 2) <$> rows)) small_ready).1
    = Ok sampled
    ∧ length sampled = length rows * Z.to_nat 2
    ∧ take W (drop (1 * W) [0; 0; 0; 1; 1; 1]%Z) = replicate W 1%Z
    ∧ take W (drop (1 * W) [2; 2; 2; 2; 2; 1]%Z)
      ≡ₚ 1%Z :: take (Z.to_nat 2) (drop (1 * Z.to_nat 2) sampled).
Proof.
  apply (eval_row_candidates (H := MaterializedDataConstructor)
           2 0 small_ready
           (world_after
              (_get_eval_batch 2 (H := MaterializedDataConstructor) 0
                               small_ready))
           [0; 0; 0; 1; 1; 1]%Z [2; 2; 2; 2; 2; 1]%Z [1; 1; 0; 1; 0; 0]%Z
           [0; 1]%Z [2; 1]%Z 1 1%Z 1%Z);
    reflexivity.
Defined.

Lemma eval_row_unflagged_once_witness :
  let W := Z.to_nat (1 + 2) in
  let row_items := take W (drop (0 * W) [2; 2; 2; 2; 2; 1]%Z) in
  let row_mask := take W (drop (0 * W) [1; 1; 0; 1; 0; 0]%Z) in
  Forall (λ f : Z, f = 0%Z ∨ f = 1%Z) row_mask
  ∧ NoDup (unflagged row_items row_mask)
  ∧ ∀ x, x ∈ unflagged row_items row_mask ↔ x ∈ row_items.
Proof.
  apply (eval_row_unflagged_once (H := MaterializedDataConstructor)
           2 0 small_ready
           (world_after
              (_get_eval_batch 2 (H := MaterializedDataConstructor) 0
                               small_ready))
           [0; 0; 0; 1; 1; 1]%Z [2; 2; 2; 2; 2; 1]%Z [1; 1; 0; 1; 0; 0]%Z
           [0; 1]%Z [2; 1]%Z 0 2%Z);
    reflexivity.
Defined.

(** ** The generators, the epochs and the lookup *)

(** X6: [training_generator] hands out the [_train_batches_per_epoch]
    oldest batches of the queue, in the order they were queued, and removes
    them; with fewer batches queued it hands out all of them and then
    blocks in [get] on the empty queue.  Nothing else changes. *)
Theorem training_generator_first_in_first_out (w : World) :
  let q := _training_queue (self w) in
  let n := Z.to_nat (_train_batches_per_epoch (conf (self w))) in
  training_generator w
  = if decide (n ≤ length q)
    then (Ok (Finished (take n q)),
          set_self (with_training_queue (drop n q) (self w)) w)
    else (Ok (Waiting q), set_self (with_training_queue [] (self w)) w).
Proof.
  intros q n. unfold training_generator, mbind, M_bind. simpl.
  rewrite yield_from_queue_spec. unfold range.
  by rewrite length_fmap, length_seq.
Qed.

Lemma construct_eval_epoch_covers_users_witness :
  let w := small_ready in
  let w' := world_after
              (_construct_eval_epoch 2 (H := MaterializedDataConstructor) w) in
  ∃ results,
    _eval_results (self w') = Some results
    ∧ length results = 1
    ∧ control w' = control w
    ∧ store_extends w w'
    ∧ eval_generator w' = (Ok (Finished results), w')
    ∧ Forall (λ batch : eval_batch,
        length batch.1.1 = 2 * 3 ∧ length batch.1.2 = 2 * 3
        ∧ length batch.2 = 2 * 3) results
    ∧ ∀ j u, [0; 1]%Z !! j = Some u →
        ∃ users items mask,
          results !! (j / 2) = Some (users, items, mask)
          ∧ take 3 (drop (j `mod` 2 * 3) users) = replicate 3 u.
Proof.
  apply (construct_eval_epoch_covers_users 2 small_ready _ [0; 1]%Z [2; 1]%Z);
    [ vm_compute; reflexivity | reflexivity | reflexivity | simpl; lia
    | reflexivity ].
Defined.

(** X12: a [run] of the materialized variant that returns, on a fresh
    object with [1 <= train_batch_size <= E] and arrays of [E] indices, has
    queued [1 + max (maximum_number_epochs - 1) 0] epochs of
    [_train_batches_per_epoch] batches of [train_batch_size] entries,
    has set the eval results to [_eval_batches_per_epoch] batches, has
    started the producer and has not touched the stop flag; it has fetched
    [1 + epochs * batches * train_batch_size / E] arrays from the
    producer. *)
Theorem run_constructs_all_epochs N (w w' : World) (E b : nat) :
  let ps := perm_stream (_shuffle_producer (self w)) in
  let c := conf (self w) in
  let n := Z.to_nat (_train_batches_per_epoch c) in
  let epochs := S (Z.to_nat (_maximum_number_epochs c - 1)) in
  _current_epoch_order (self w) = None →
  perm_taken (_shuffle_producer (self w)) = 0 →
  _train_batch_size c = Z.of_nat b →
  0 < b ≤ E →
  (∀ k, length (ps k) = E) →
  run N (H := MaterializedDataConstructor) w = (Ok (), w') →
  ∃ new results,
    _training_queue (self w') = _training_queue (self w) ++ new
    ∧ length new = epochs * n
    ∧ Forall (batch_sized w' b) new
    ∧ _eval_results (self w') = Some results
    ∧ length results = Z.to_nat (_eval_batches_per_epoch c)
    ∧ conf (self w') = c
    ∧ perm_started (_shuffle_producer (self w')) = true
    ∧ perm_stopped (_shuffle_producer (self w'))
      = perm_stopped (_shuffle_producer (self w))
    ∧ _stop_loop (self w') = _stop_loop (self w)
    ∧ (0 < n →
       perm_taken (_shuffle_producer (self w')) = S (epochs * n * b / E)).
Proof. apply run_inv. Qed.

Lemma run_constructs_all_epochs_witness :
  let w := small_world in
  let w' := world_after (run 2 (H := MaterializedDataConstructor) w) in
  ∃ new results,
    _training_queue (self w') = _training_queue (self w) ++ new
    ∧ length new = 3 * 2
    ∧ Forall (batch_sized w' 4) new
    ∧ _eval_results (self w') = Some results
    ∧ length results = 1
    ∧ conf (self w') = conf (self w)
    ∧ perm_started (_shuffle_producer (self w')) = true
    ∧ perm_stopped (_shuffle_producer (self w'))
      = perm_stopped (_shuffle_producer (self w))
    ∧ _stop_loop (self w') = _stop_loop (self w)
    ∧ (0 < 2 →
       perm_taken (_shuffle_producer (self w')) = S (3 * 2 * 4 / 6)).
Proof.
  apply (run_constructs_all_epochs 2 small_world
           (world_after (run 2 (H := MaterializedDataConstructor) small_world))
           6 4);
    [ reflexivity | reflexivity | reflexivity | lia
    | intros k; simpl; unfold small_perms; destruct (Nat.even k); reflexivity
    | vm_compute; reflexivity ].
Defined.

Lemma construct_lookup_rejects_many_items_witness :
  let w := many_items_world in
  let r := materialized_construct_lookup_variables w in
  r.1 = Raise AssertionError
  ∧ _negative_table (self r.2) = Some 4
  ∧ _per_user_neg_count (self r.2) = None
  ∧ store r.2
    = small_store
      ++ [Mat (replicate 2 (replicate (Z.to_nat 65535) uint16_max))].
Proof.
  apply (construct_lookup_rejects_many_items many_items_world [0; 0; 1]%Z);
    [ reflexivity | vm_compute; discriminate | vm_compute; discriminate ].
Defined.

Lemma construct_lookup_builds_table_witness :
  let ib := index_bounds 2 [0; 0; 1]%Z in
  ∃ table counts,
    _negative_table (self small_ready) = Some 4
    ∧ _per_user_neg_count (self small_ready) = Some 5
    ∧ store small_ready = small_store ++ [Mat table; Vec counts]
    ∧ length table = 2 ∧ length counts = 2
    ∧ (0 ≤ 3 < uint16_max)%Z
    ∧ ∀ r row cnt, table !! r = Some row → counts !! r = Some cnt →
        let positives := user_slice ib [0; 1; 2]%Z r in
        let stop := slice_bound 3 cnt in
        cnt = (3 - Z.of_nat (length positives))%Z
        ∧ length row = 3
        ∧ (∀ x, x ∈ take stop row → (0 ≤ x < 3)%Z ∧ x ∉ positives)
        ∧ drop stop row = replicate (3 - stop) uint16_max.
Proof.
  apply (construct_lookup_builds_table small_world small_ready
           [0; 0; 1]%Z [0; 1; 2]%Z); reflexivity.
Defined.

Lemma construct_lookup_row_complement_witness :
  let positives := user_slice (index_bounds 2 [0; 0; 1]%Z) [0; 1; 2]%Z 0 in
  ∃ table counts,
    store small_ready = small_store ++ [Mat table; Vec counts]
    ∧ counts !! 0 = Some (3 - Z.of_nat (length positives))%Z
    ∧ table !! 0
      = Some (filter (λ x, x ∉ positives) (range 3)
              ++ replicate (length positives) uint16_max)
    ∧ length positives ≤ 3.
Proof.
  apply (construct_lookup_row_complement small_world small_ready
           [0; 0; 1]%Z [0; 1; 2]%Z 0);
    [ reflexivity | reflexivity | reflexivity | vm_compute; lia
    | apply (bool_decide_unpack _); vm_compute; exact I
    | apply (bool_decide_unpack _); vm_compute; exact I ].
Defined.

(** X17: after [construct_lookup_variables], in any later state with the
    same table, [lookup_negative_items] for users in
    [0, num_users) whose slice is shorter than [num_items], with a
    generator that draws below each count, returns one item per user, each
    in [0, num_items) (never the filler 65535) and not in the slice of its
    user, and consumes one call of the generator. *)
Theorem lookup_avoids_user_slice (w w' w2 : World) (tpu tpi us : list Z) :
  let c := conf (self w) in
  let ni := _num_items c in
  let ib := index_bounds (_num_users c) tpu in
  store w !! _train_pos_users c = Some (Vec tpu) →
  store w !! _train_pos_items c = Some (Vec tpi) →
  materialized_construct_lookup_variables w = (Ok (), w') →
  steady w' w2 →
  (∀ n i k, (0 < k)%Z → (0 ≤ rand_oracle w2 n i k < k)%Z) →
  Forall (λ u, (0 ≤ u < _num_users c)%Z
               ∧ length (user_slice ib tpi (Z.to_nat u)) < Z.to_nat ni) us →
  ∃ items,
    materialized_lookup_negative_items us w2
    = (Ok items, set_rand_calls (S (rand_calls w2)) w2)
    ∧ Forall2 (λ u x, (0 ≤ x < ni)%Z
                      ∧ x ∉ user_slice ib tpi (Z.to_nat u)) us items.
Proof. apply lookup_sampled. Qed.

Lemma lookup_avoids_user_slice_witness :
  let ib := index_bounds 2 [0; 0; 1]%Z in
  ∃ items,
    materialized_lookup_negative_items [0; 1; 0]%Z small_ready
    = (Ok items, set_rand_calls (S (rand_calls small_ready)) small_ready)
    ∧ Forall2 (λ u x, (0 ≤ x < 3)%Z
                      ∧ x ∉ user_slice ib [0; 1; 2]%Z (Z.to_nat u))
              [0; 1; 0]%Z items.
Proof.
  apply (lookup_avoids_user_slice small_world small_ready small_ready
           [0; 0; 1]%Z [0; 1; 2]%Z [0; 1; 0]%Z);
    [ reflexivity | reflexivity | reflexivity
    | repeat split; try reflexivity; intros l a Hl; exact Hl
    | intros n i k Hk; simpl; unfold last_index; lia
    | apply (bool_decide_unpack _); vm_compute; exact I ].
Defined.

(** X11: [construct_lookup_variables], [lookup_negative_items],
    [_get_eval_batch] and [_construct_eval_epoch] of the materialized
    variant never touch the sizes, the cursor, the producer, the training
    queue or the stop flag, whether they return or raise; the first three
    do not touch the eval results either. *)
Theorem eval_side_keeps_training_state N :
  keeps (λ w, (control w, _eval_results (self w)))
        materialized_construct_lookup_variables
  ∧ (∀ us, keeps (λ w, (control w, _eval_results (self w)))
             (materialized_lookup_negative_items us))
  ∧ (∀ i, keeps (λ w, (control w, _eval_results (self w)))
            (_get_eval_batch N (H := MaterializedDataConstructor) i))
  ∧ keeps control (_construct_eval_epoch N (H := MaterializedDataConstructor)).
Proof.
  split; [apply keeps_construct_lookup_variables|].
  split; [apply keeps_materialized_lookup|].
  split; [apply keeps_get_eval_batch|apply keeps_construct_eval_epoch].
Qed.

(** ** The slices of users whose interactions are contiguous *)

Lemma zip_with_take_same {A B C} (f : A → B → C) (a : list A) (b : list B) :
  zip_with f a (take (length a) b) = zip_with f a b.
Proof.
  revert b. induction a as [|x a IH]; intros [|y b]; simpl; try done.
  by rewrite IH.
Qed.

(** The differences of neighbours, as the code computes them. *)
Lemma neighbour_differences (l : list Z) :
  zip_with Z.sub (slice_from 1 l) (slice_to (-1) l)
  = zip_with Z.sub (drop 1 l) l.
Proof.
  change 1%Z with (Z.of_nat 1). rewrite slice_from_of_nat.
  unfold slice_to, slice_bound. rewrite bool_decide_eq_true_2 by lia.
  replace (Z.to_nat (Z.max 0 (Z.of_nat (length l) + -1)))
    with (length (drop 1 l)) by (rewrite length_drop; lia).
  apply zip_with_take_same.
Qed.

(** Inside the run of one user the differences are zero. *)
Lemma differences_same_user (n : nat) (x : Z) (rest : list Z) :
  zip_with Z.sub (replicate n x ++ rest) (x :: replicate n x ++ rest)
  = replicate n 0%Z ++ zip_with Z.sub rest (x :: rest).
Proof.
  induction n as [|n IH]; [done|]. simpl. rewrite Z.sub_diag. f_equal.
  exact IH.
Qed.

Lemma argwhere_from_zeros (k : Z) (n : nat) (d : list Z) :
  argwhere_from k (replicate n 0%Z ++ d)
  = argwhere_from (k + Z.of_nat n) d.
Proof.
  revert k. induction n as [|n IH]; intros k.
  - simpl. by rewrite Z.add_0_r.
  - cbn [replicate app argwhere_from].
    rewrite bool_decide_eq_false_2 by (intros Hn; by apply Hn).
    rewrite IH. f_equal. lia.
Qed.

Lemma inner_bounds_sorted_users (sizes : list nat) :
  Forall (λ n, 0 < n) sizes →
  ∀ k u,
    (λ p, p + 1)%Z
      <$> argwhere_from (Z.of_nat k)
            (zip_with Z.sub (drop 1 (sorted_users u sizes))
                            (sorted_users u sizes))
    = inner_bounds_from k sizes.
Proof.
  induction 1 as [|n sizes Hn Hall IH]; intros k u; [done|].
  destruct n as [|n]; [lia|]. cbn [sorted_users replicate app drop].
  rewrite drop_0, differences_same_user, argwhere_from_zeros.
  destruct Hall as [|n' sizes' Hn' Hall]; [done|].
  destruct n' as [|n']; [lia|].
  specialize (IH (k + S n) (S u)).
  cbn [sorted_users replicate app drop zip_with argwhere_from] in IH |- *.
  rewrite drop_0 in IH.
  rewrite bool_decide_eq_true_2 by lia.
  rewrite fmap_cons.
  change (inner_bounds_from k (S n :: S n' :: sizes'))
    with (Z.of_nat (k + S n)
          :: inner_bounds_from (k + S n) (S n' :: sizes')).
  f_equal; [lia|].
  rewrite <- IH. do 2 f_equal. lia.
Qed.

Lemma index_bounds_sorted_users (nu : Z) (sizes : list nat) :
  Forall (λ n, 0 < n) sizes →
  index_bounds nu (sorted_users 0 sizes)
  = (0%Z :: inner_bounds_from 0 sizes) ++ [nu].
Proof.
  intros Hs. unfold index_bounds, argwhere.
  rewrite neighbour_differences.
  pose proof (inner_bounds_sorted_users sizes Hs 0 0) as Hin.
  change (Z.of_nat 0) with 0%Z in Hin. by rewrite Hin.
Qed.

Lemma inner_bounds_lookup (sizes : list nat) :
  ∀ k r, r < length sizes →
    (Z.of_nat k :: inner_bounds_from k sizes) !! r
    = Some (Z.of_nat (k + sum_list (take r sizes))).
Proof.
  induction sizes as [|n sizes IH]; intros k r Hr; [simpl in Hr; lia|].
  destruct r as [|r]. { simpl. by rewrite Nat.add_0_r. }
  destruct sizes as [|n' sizes]; [simpl in Hr; lia|].
  change ((Z.of_nat k :: inner_bounds_from k (n :: n' :: sizes)) !! S r)
    with ((Z.of_nat (k + n) :: inner_bounds_from (k + n) (n' :: sizes)) !! r).
  rewrite IH by (simpl in *; lia).
  rewrite firstn_cons. simpl. do 2 f_equal. lia.
Qed.

Lemma inner_bounds_length (sizes : list nat) (k : nat) :
  length (Z.of_nat k :: inner_bounds_from k sizes)
  = Nat.max 1 (length sizes).
Proof.
  revert k. induction sizes as [|n sizes IH]; intros k; [done|].
  destruct sizes as [|n' sizes]; [done|].
  change (length (Z.of_nat k :: inner_bounds_from k (n :: n' :: sizes)))
    with (S (length (Z.of_nat (k + n)
                     :: inner_bounds_from (k + n) (n' :: sizes)))).
  rewrite IH. simpl. lia.
Qed.

Lemma first_bounds_lookup (sizes : list nat) (r : nat) :
  r < length sizes →
  (0%Z :: inner_bounds_from 0 sizes) !! r
  = Some (Z.of_nat (sum_list (take r sizes))).
Proof. exact (inner_bounds_lookup sizes 0 r). Qed.

Lemma first_bounds_length (sizes : list nat) :
  length (0%Z :: inner_bounds_from 0 sizes) = Nat.max 1 (length sizes).
Proof. exact (inner_bounds_length sizes 0). Qed.

Lemma positives_of_nil_r (users : list Z) (u : Z) :
  positives_of users [] u = [].
Proof. by destruct users. Qed.

Lemma positives_of_other (n : nat) (v u : Z) (us items : list Z) :
  v ≠ u →
  positives_of (replicate n v ++ us) items u
  = positives_of us (drop n items) u.
Proof.
  intros Hv. revert items. induction n as [|n IH]; intros items; [done|].
  destruct items as [|x items]; simpl.
  - by rewrite positives_of_nil_r.
  - rewrite bool_decide_eq_false_2 by done. apply IH.
Qed.

Lemma positives_of_same (n : nat) (u : Z) (us items : list Z) :
  positives_of (replicate n u ++ us) items u
  = take n items ++ positives_of us (drop n items) u.
Proof.
  revert items. induction n as [|n IH]; intros items; [done|].
  destruct items as [|x items]; simpl.
  - by rewrite positives_of_nil_r.
  - rewrite bool_decide_eq_true_2 by done. by rewrite IH.
Qed.

Lemma positives_of_later_users (sizes : list nat) :
  ∀ v u items, u < v →
    positives_of (sorted_users v sizes) items (Z.of_nat u) = [].
Proof.
  induction sizes as [|n sizes IH]; intros v u items Hu.
  - by destruct items.
  - simpl. rewrite positives_of_other by lia. apply IH. lia.
Qed.

Lemma positives_of_sorted_users (sizes : list nat) :
  ∀ v r s items, sizes !! r = Some s →
    positives_of (sorted_users v sizes) items (Z.of_nat (v + r))
    = take s (drop (sum_list (take r sizes)) items).
Proof.
  induction sizes as [|n sizes IH]; intros v r s items Hr; [done|].
  destruct r as [|r]; simpl in Hr |- *.
  - injection Hr as ->. rewrite Nat.add_0_r, positives_of_same.
    rewrite positives_of_later_users by lia. by rewrite app_nil_r.
  - rewrite positives_of_other by lia.
    replace (v + S r) with (S v + r) by lia.
    rewrite (IH (S v) r s _ Hr). by rewrite drop_drop.
Qed.

Lemma slice_nat {A} (a b : nat) (l : list A) :
  slice (Z.of_nat a) (Z.of_nat b) l = drop a (take b l).
Proof.
  unfold slice, slice_bound. rewrite !bool_decide_eq_false_2 by lia.
  rewrite !Nat2Z.id.
  assert (take (length l `min` b) l = take b l) as ->.
  { destruct (decide (b ≤ length l)).
    - by rewrite Nat.min_r.
    - rewrite Nat.min_l by lia. by rewrite !take_ge by lia. }
  destruct (decide (a ≤ length l)).
  - by rewrite Nat.min_r.
  - rewrite Nat.min_l by lia. rewrite !drop_ge; [done| |];
      rewrite length_take; lia.
Qed.

Lemma sum_list_app (a b : list nat) :
  sum_list (a ++ b) = sum_list a + sum_list b.
Proof. induction a as [|x a IH]; simpl; [done|]. rewrite IH. lia. Qed.

Lemma sorted_users_length (sizes : list nat) (u : nat) :
  length (sorted_users u sizes) = sum_list sizes.
Proof.
  revert u. induction sizes as [|n sizes IH]; intros u; [done|].
  simpl. by rewrite length_app, length_replicate, IH.
Qed.

Lemma sorted_users_slices_eq (sizes : list nat) (tpi : list Z) (nu : Z)
    (r : nat) :
  let tpu := sorted_users 0 sizes in
  let ib := index_bounds nu tpu in
  let start := Z.of_nat (sum_list (take r sizes)) in
  Forall (λ n, 0 < n) sizes →
  (S r < length sizes →
     user_slice ib tpi r = positives_of tpu tpi (Z.of_nat r))
  ∧ (S r = length sizes →
     user_slice ib tpi r = slice start nu tpi
     ∧ positives_of tpu tpi (Z.of_nat r)
       = slice start (Z.of_nat (length tpu)) tpi).
Proof.
  intros tpu ib start Hs. subst tpu ib start.
  rewrite (index_bounds_sorted_users nu sizes Hs).
  pose proof (first_bounds_length sizes) as Hlen.
  split; intros Hr.
  - destruct (lookup_lt_is_Some_2 sizes r ltac:(lia)) as [s Hsr].
    pose proof (positives_of_sorted_users sizes 0 r s tpi Hsr) as Hpos.
    rewrite Nat.add_0_l in Hpos. rewrite Hpos.
    pose proof (first_bounds_lookup sizes r ltac:(lia)) as Hlo.
    pose proof (first_bounds_lookup sizes (S r) ltac:(lia)) as Hhi.
    rewrite (take_S_r _ _ _ Hsr), sum_list_app in Hhi. simpl in Hhi.
    erewrite user_slice_eq;
      [| rewrite lookup_app_l; [exact Hlo|rewrite Hlen; lia]
       | rewrite lookup_app_l; [exact Hhi|rewrite Hlen; lia] ].
    rewrite slice_nat, take_drop_commute. do 2 f_equal. lia.
  - destruct (lookup_lt_is_Some_2 sizes r ltac:(lia)) as [s Hsr].
    pose proof (first_bounds_lookup sizes r ltac:(lia)) as Hlo.
    split.
    + apply user_slice_eq.
      * rewrite lookup_app_l; [exact Hlo|rewrite Hlen; lia].
      * rewrite lookup_app_r by (rewrite Hlen; lia).
        replace (S r - _) with 0 by (rewrite Hlen; lia). done.
    + pose proof (positives_of_sorted_users sizes 0 r s tpi Hsr) as Hpos.
      rewrite Nat.add_0_l in Hpos. rewrite Hpos.
      rewrite slice_nat, take_drop_commute, sorted_users_length.
      do 2 f_equal.
      rewrite <- (take_drop r sizes) at 2.
      rewrite sum_list_app. f_equal.
      rewrite (drop_S _ _ _ Hsr), drop_ge by lia. simpl. lia.
Qed.

(** X18: for a user column that is sorted by user, with users 0, 1, ...
    having at least one interaction each, the slice that the loop of
    [construct_lookup_variables] reads for a user other than the last is
    exactly the items of that user's interactions.  The slice of the last
    user starts where that user's interactions start and ends at position
    [num_users]; the user's interactions end at the length of the
    column. *)
Theorem sorted_users_slices (sizes : list nat) (tpi : list Z) (nu : Z)
    (r : nat) :
  let tpu := sorted_users 0 sizes in
  let ib := index_bounds nu tpu in
  let start := Z.of_nat (sum_list (take r sizes)) in
  Forall (λ n, 0 < n) sizes →
  (S r < length sizes →
     user_slice ib tpi r = positives_of tpu tpi (Z.of_nat r))
  ∧ (S r = length sizes →
     user_slice ib tpi r = slice start nu tpi
     ∧ positives_of tpu tpi (Z.of_nat r)
       = slice start (Z.of_nat (length tpu)) tpi).
Proof. apply sorted_users_slices_eq. Qed.

Lemma sorted_users_slices_witness :
  let tpu := sorted_users 0 [2; 1] in
  let ib := index_bounds 2 tpu in
  let start := Z.of_nat (sum_list (take 1 [2; 1])) in
  (2 < length [2; 1] →
     user_slice ib [0; 1; 2]%Z 1 = positives_of tpu [0; 1; 2]%Z 1)
  ∧ (2 = length [2; 1] →
     user_slice ib [0; 1; 2]%Z 1 = slice start 2 [0; 1; 2]%Z
     ∧ positives_of tpu [0; 1; 2]%Z 1
       = slice start (Z.of_nat (length tpu)) [0; 1; 2]%Z).
Proof.
  apply (sorted_users_slices [2; 1] [0; 1; 2]%Z 2 1).
  apply (bool_decide_unpack _). vm_compute. exact I.
Defined.

(** X19: with such a user column, for a user other than the last whose
    items are not negative and pairwise different, the row of the table is
    the items that are not positives of the user, in increasing order,
    followed by one 65535 for each positive, and the count is the number
    of the former. *)
Theorem construct_lookup_rows_of_sorted_users (w w' : World)
    (sizes : list nat) (tpi : list Z) (r : nat) :
  let c := conf (self w) in
  let ni := _num_items c in
  let tpu := sorted_users 0 sizes in
  let positives := positives_of tpu tpi (Z.of_nat r) in
  store w !! _train_pos_users c = Some (Vec tpu) →
  store w !! _train_pos_items c = Some (Vec tpi) →
  materialized_construct_lookup_variables w = (Ok (), w') →
  Forall (λ n, 0 < n) sizes →
  S r < length sizes →
  r < Z.to_nat (_num_users c) →
  Forall (λ p, 0 ≤ p)%Z positives →
  NoDup positives →
  ∃ table counts,
    store w' = store w ++ [Mat table; Vec counts]
    ∧ counts !! r = Some (ni - Z.of_nat (length positives))%Z
    ∧ table !! r
      = Some (filter (λ x, x ∉ positives) (range ni)
              ++ replicate (length positives) uint16_max)
    ∧ length positives ≤ Z.to_nat ni.
Proof.
  intros c ni tpu positives Htpu Htpi H Hs Hr Hnu Hpos Hnd.
  destruct (sorted_users_slices_eq sizes tpi (_num_users c) r Hs)
    as [Heq _].
  specialize (Heq Hr). fold tpu in Heq.
  subst positives. rewrite <- Heq in Hpos, Hnd |- *.
  by apply (construct_lookup_row_of_slice w w' tpu tpi r).
Qed.

Lemma construct_lookup_rows_of_sorted_users_witness :
  let positives := positives_of (sorted_users 0 [2; 1]) [0; 1; 2]%Z 0 in
  ∃ table counts,
    store small_ready = small_store ++ [Mat table; Vec counts]
    ∧ counts !! 0 = Some (3 - Z.of_nat (length positives))%Z
    ∧ table !! 0
      = Some (filter (λ x, x ∉ positives) (range 3)
              ++ replicate (length positives) uint16_max)
    ∧ length positives ≤ 3.
Proof.
  apply (construct_lookup_rows_of_sorted_users small_world small_ready
           [2; 1] [0; 1; 2]%Z 0);
    [ reflexivity | reflexivity | reflexivity
    | apply (bool_decide_unpack _); vm_compute; exact I
    | simpl; lia | vm_compute; lia
    | apply (bool_decide_unpack _); vm_compute; exact I
    | apply (bool_decide_unpack _); vm_compute; exact I ].
Defined.

(** ** The negatives of a training batch *)

Lemma mask_select_length (us : list Z) (flags : list bool) :
  length us = length flags →
  length (mask_select us flags) = length (filter (λ b, b = true) flags).
Proof.
  revert flags. induction us as [|u us IH]; intros [|[] flags] Hl;
    simpl in Hl; try done.
  - rewrite filter_cons_True by done. cbn [mask_select length]. f_equal.
    apply IH. lia.
  - rewrite filter_cons_False by done. cbn [mask_select]. apply IH. lia.
Qed.

Lemma mask_select_subset (us : list Z) (flags : list bool) (u : Z) :
  u ∈ mask_select us flags → u ∈ us.
Proof.
  revert flags. induction us as [|v us IH]; intros [|[] flags] Hu;
    simpl in Hu; try (by apply elem_of_nil in Hu).
  - apply elem_of_cons in Hu as [->|Hu]; apply elem_of_cons; eauto.
  - apply elem_of_cons. eauto.
Qed.

(** An assignment through a mask, position by position. *)
Lemma mask_fill_lookup (P : Z → Z → Prop) (us : list Z) :
  ∀ (a : list Z) (flags : list bool) (vals : list Z) (j : nat),
    length us = length flags → length a = length flags →
    Forall2 P (mask_select us flags) vals →
    (flags !! j = Some true →
     ∀ u x, us !! j = Some u → mask_fill a flags vals !! j = Some x → P u x)
    ∧ (flags !! j = Some false → mask_fill a flags vals !! j = a !! j).
Proof.
  induction us as [|u us IH]; intros a flags vals j Hlu Hla HP.
  - destruct flags; [|done]. by split.
  - destruct flags as [|b flags]; [done|]. destruct a as [|y a]; [done|].
    simpl in Hlu, Hla. destruct b; simpl in HP |- *.
    + inversion HP as [|? v ? vals' Huv HP']; subst.
      destruct j as [|j]; simpl.
      * split; [|done]. intros _ u' x' [= <-] [= <-]. done.
      * apply (IH a flags vals' j); [lia|lia|done].
    + destruct j as [|j]; simpl.
      * by split.
      * apply (IH a flags vals j); [lia|lia|done].
Qed.

Lemma take_idx_pairs (a b : list Z) (idx us xs : list Z) :
  length a = length b →
  take_idx a idx = Ok us → take_idx b idx = Ok xs →
  ∀ j u x, us !! j = Some u → xs !! j = Some x →
    ∃ k, a !! k = Some u ∧ b !! k = Some x.
Proof.
  intros Hl Hus Hxs j u x Hu Hx.
  apply res_mapM_Forall2 in Hus, Hxs.
  destruct (Forall2_lookup_r _ _ _ _ _ Hus Hu) as (i & Hi & Hgu).
  destruct (Forall2_lookup_r _ _ _ _ _ Hxs Hx) as (i' & Hi' & Hgx).
  rewrite Hi in Hi'. injection Hi' as <-.
  unfold getitem in Hgu, Hgx. rewrite <- Hl in Hgx.
  destruct (norm_index (length a) i) as [k|]; simpl in *; [|done].
  exists k. destruct (a !! k), (b !! k); by simplify_eq.
Qed.

Lemma take_idx_subset (a idx us : list Z) (u : Z) :
  take_idx a idx = Ok us → u ∈ us → u ∈ a.
Proof.
  intros Hus (j & Hj)%list_elem_of_lookup.
  apply res_mapM_Forall2 in Hus.
  destruct (Forall2_lookup_r _ _ _ _ _ Hus Hj) as (i & _ & Hg).
  unfold getitem in Hg.
  destruct (norm_index (length a) i) as [k|]; simpl in *; [|done].
  destruct (a !! k) eqn:Hk; simplify_eq. by eapply list_elem_of_lookup_2.
Qed.

Lemma steady_chunk_world (w1 w : World) (o : list Z) (k : nat) :
  steady w1 w → steady w1 (chunk_world w o k).
Proof.
  intros (?&?&?&?&?&?&?&?&Hs). repeat split; try done.
Qed.

(** X20: in a training batch built after [construct_lookup_variables],
    with the two interaction columns of equal length, every user of the
    user column in [0, num_users) with a slice shorter than [num_items],
    and a generator that draws below each count: an entry with label 1 is
    a (user, item) pair of the interaction columns, and an entry with
    label 0 carries an item in [0, num_items) that is not in the slice
    of the entry's user. *)
Theorem training_batch_negatives_avoid_slice
    (w0 w1 w w' : World) (tpu tpi : list Z) (x : Z) :
  let c := conf (self w0) in
  let ni := _num_items c in
  let ib := index_bounds (_num_users c) tpu in
  store w0 !! _train_pos_users c = Some (Vec tpu) →
  store w0 !! _train_pos_items c = Some (Vec tpi) →
  length tpu = length tpi →
  materialized_construct_lookup_variables w0 = (Ok (), w1) →
  steady w1 w →
  (∀ n i k, (0 < k)%Z → (0 ≤ rand_oracle w n i k < k)%Z) →
  Forall (λ u, (0 ≤ u < _num_users c)%Z
               ∧ length (user_slice ib tpi (Z.to_nat u)) < Z.to_nat ni) tpu →
  _get_training_batch (H := MaterializedDataConstructor) x w = (Ok (), w') →
  ∃ users items_loc items labels,
    _training_queue (self w')
    = _training_queue (self w) ++ [(users, items_loc, labels)]
    ∧ store w' !! items_loc = Some (Vec items)
    ∧ ∀ j u y, users !! j = Some u → items !! j = Some y →
        (labels !! j = Some 0%Z →
         (0 ≤ y < ni)%Z ∧ y ∉ user_slice ib tpi (Z.to_nat u))
        ∧ (labels !! j = Some 1%Z →
           ∃ k, tpu !! k = Some u ∧ tpi !! k = Some y).
Proof.
  intros c ni ib Htpu Htpi Hlen Hcons Hs Hrand Hvalid HH.
  apply get_training_batch_inv in HH
    as (chunk & o & k & tpu' & tpi' & users & negs & gathered & updated
        & _ & Htpu' & Htpi' & Husers & Hg & Hlook & Hupd & ->).
  destruct (construct_lookup_inv w0 w1 tpu tpi Htpu Htpi Hcons)
    as (table & counts & Hw1 & _).
  pose proof Hs as (Hconf & _ & _ & _ & _ & _ & _ & _ & Hext).
  assert (conf (self w) = c) as Hc by (rewrite Hconf, Hw1; done).
  rewrite Hc in Htpu', Htpi', Husers, Hg, Hlook, Hupd |- *.
  assert (store w !! _train_pos_users c = Some (Vec tpu)) as Htpu2.
  { apply Hext. rewrite Hw1. simpl. by apply lookup_app_l_Some. }
  assert (store w !! _train_pos_items c = Some (Vec tpi)) as Htpi2.
  { apply Hext. rewrite Hw1. simpl. by apply lookup_app_l_Some. }
  rewrite Htpu2 in Htpu'. injection Htpu' as <-.
  rewrite Htpi2 in Htpi'. injection Htpi' as <-.
  set (tpc := _train_pos_count c) in *.
  set (flags := negative_flags tpc chunk) in *.
  set (idx := (λ j, np_mod j tpc) <$> chunk) in *.
  apply take_idx_length in Husers as Hul. apply take_idx_length in Hg as Hgl.
  assert (length flags = length chunk) as Hfl
    by (unfold flags, negative_flags; by rewrite length_fmap).
  unfold idx in Hul, Hgl. rewrite length_fmap in Hul, Hgl.
  (* the sampled items *)
  destruct (lookup_sampled w0 w1 (chunk_world w o k) tpu tpi
              (mask_select users flags) Htpu Htpi Hcons
              (steady_chunk_world _ _ o k Hs) Hrand)
    as (negs' & Hlook' & Hneg).
  { apply Forall_forall. intros u Hu. rewrite Forall_forall in Hvalid.
    apply Hvalid. eapply take_idx_subset; [exact Husers|].
    by eapply mask_select_subset. }
  unfold returned in Hlook. rewrite Hlook' in Hlook. simpl in Hlook.
  injection Hlook as ->.
  (* the assignment *)
  unfold mask_assign in Hupd.
  apply res_bind_inv in Hupd as (vs & Hvs & [= <-]).
  apply broadcast_to_inv in Hvs as (_ & _ & Hsame).
  rewrite Hsame in *.
  2:{ rewrite <- (Forall2_length _ _ _ Hneg).
      apply mask_select_length. lia. }
  exists users, (length (store w)), (mask_fill gathered flags negs),
         (labels_of tpc chunk).
  split; [done|]. split.
  { simpl. rewrite list_lookup_insert_eq; [done|].
    rewrite length_app. simpl. lia. }
  intros j u y Hu Hy.
  destruct (mask_fill_lookup _ users gathered flags negs j
              ltac:(lia) ltac:(lia) Hneg) as [Htrue Hfalse].
  unfold labels_of. fold flags. rewrite list_lookup_fmap. split.
  - destruct (flags !! j) as [[]|] eqn:Hf; simpl; try done.
    intros _. by apply (Htrue eq_refl u y).
  - destruct (flags !! j) as [[]|] eqn:Hf; simpl; try done.
    intros _. rewrite (Hfalse eq_refl) in Hy.
    by apply (take_idx_pairs tpu tpi idx users gathered Hlen Husers Hg j).
Qed.

Lemma training_batch_negatives_avoid_slice_witness :
  let w := small_ready in
  let w' := world_after
              (_get_training_batch (H := MaterializedDataConstructor) 0 w) in
  let ib := index_bounds 2 [0; 0; 1]%Z in
  ∃ users items_loc items labels,
    _training_queue (self w')
    = _training_queue (self w) ++ [(users, items_loc, labels)]
    ∧ store w' !! items_loc = Some (Vec items)
    ∧ ∀ j u y, users !! j = Some u → items !! j = Some y →
        (labels !! j = Some 0%Z →
         (0 ≤ y < 3)%Z ∧ y ∉ user_slice ib [0; 1; 2]%Z (Z.to_nat u))
        ∧ (labels !! j = Some 1%Z →
           ∃ k, [0; 0; 1]%Z !! k = Some u ∧ [0; 1; 2]%Z !! k = Some y).
Proof.
  apply (training_batch_negatives_avoid_slice small_world small_ready
           small_ready
           (world_after
              (_get_training_batch (H := MaterializedDataConstructor) 0
                                   small_ready))
           [0; 0; 1]%Z [0; 1; 2]%Z 0%Z);
    [ reflexivity | reflexivity | reflexivity | reflexivity
    | repeat split; try reflexivity; intros l a Hl; exact Hl
    | intros n i k Hk; simpl; unfold last_index; lia
    | apply (bool_decide_unpack _); vm_compute; exact I
    | vm_compute; reflexivity ].
Defined.

(** ** The negatives of an eval row *)

Lemma elem_of_concat_inv {A} (x : A) (ls : list (list A)) :
  x ∈ concat ls → ∃ l, x ∈ l ∧ l ∈ ls.
Proof.
  induction ls as [|l ls IH]; simpl; intros Hx.
  - by apply elem_of_nil in Hx.
  - apply elem_of_app in Hx as [Hx|Hx].
    + exists l. split; [done|]. apply elem_of_cons. by left.
    + destruct (IH Hx) as (l' & ? & ?). exists l'. split; [done|].
      apply elem_of_cons. by right.
Qed.

Lemma Forall2_replicate_rows (Q : Z → Z → Prop) (n : nat) (rows s : list Z)
    (r : nat) (u : Z) :
  Forall2 Q (concat (replicate n <$> rows)) s →
  rows !! r = Some u →
  Forall (Q u) (take n (drop (r * n) s)).
Proof.
  intros HQ Hr.
  apply (Forall2_drop _ _ _ (r * n)), (Forall2_take _ _ _ n) in HQ.
  pose proof (replicate_rows_lookup n rows r u [] Hr) as Hrow.
  rewrite app_nil_r in Hrow. rewrite Hrow in HQ.
  apply Forall_lookup. intros j y Hy.
  pose proof (Forall2_length _ _ _ HQ) as Hl.
  rewrite length_replicate in Hl.
  destruct (Forall2_lookup_r _ _ _ _ _ HQ Hy) as (u' & Hu' & Hq).
  apply lookup_replicate in Hu' as [-> _]. done.
Qed.

(** X21: in an eval batch built after [construct_lookup_variables], under
    the same assumptions on the users of the batch, a row that is not
    padding holds the held-out positive of its user and
    [NUM_EVAL_NEGATIVES] further items, each in [0, num_items) and not in
    the slice of that user. *)
Theorem eval_row_negatives_avoid_slice
    (N i : Z) (w0 w1 w w' : World)
    (tpu tpi epu epi users items mask : list Z) (r : nat) (u pos : Z) :
  let c := conf (self w0) in
  let ni := _num_items c in
  let ib := index_bounds (_num_users c) tpu in
  let upb := _eval_users_per_batch c in
  let W := Z.to_nat (1 + N) in
  let rows := slice (i * upb) ((i + 1) * upb) epu in
  store w0 !! _train_pos_users c = Some (Vec tpu) →
  store w0 !! _train_pos_items c = Some (Vec tpi) →
  store w0 !! _eval_pos_users c = Some (Vec epu) →
  store w0 !! _eval_pos_items c = Some (Vec epi) →
  materialized_construct_lookup_variables w0 = (Ok (), w1) →
  steady w1 w →
  (∀ n j k, (0 < k)%Z → (0 ≤ rand_oracle w n j k < k)%Z) →
  Forall (λ u, (0 ≤ u < _num_users c)%Z
               ∧ length (user_slice ib tpi (Z.to_nat u)) < Z.to_nat ni)
         rows →
  _get_eval_batch N (H := MaterializedDataConstructor) i w
  = (Ok (users, items, mask), w') →
  rows !! r = Some u →
  slice (i * upb) ((i + 1) * upb) epi !! r = Some pos →
  ∃ negatives,
    take W (drop (r * W) items) ≡ₚ pos :: negatives
    ∧ length negatives = Z.to_nat N
    ∧ Forall (λ y, (0 ≤ y < ni)%Z ∧ y ∉ user_slice ib tpi (Z.to_nat u))
             negatives.
Proof.
  intros c ni ib upb W rows Htpu Htpi Hepu Hepi Hcons Hs Hrand Hvalid HH
         Hu Hpos.
  destruct (construct_lookup_inv w0 w1 tpu tpi Htpu Htpi Hcons)
    as (table & counts & Hw1 & _).
  pose proof Hs as (Hconf & _ & _ & _ & _ & _ & _ & _ & Hext).
  assert (conf (self w) = c) as Hc by (rewrite Hconf, Hw1; done).
  assert (store w !! _eval_pos_users (conf (self w)) = Some (Vec epu))
    as Hepu2.
  { rewrite Hc. apply Hext. rewrite Hw1. simpl. by apply lookup_app_l_Some. }
  assert (store w !! _eval_pos_items (conf (self w)) = Some (Vec epi))
    as Hepi2.
  { rewrite Hc. apply Hext. rewrite Hw1. simpl. by apply lookup_app_l_Some. }
  destruct (eval_rows_inv N i w w' users items mask epu epi r pos
              HH Hepu2 Hepi2)
    as (sampled & _ & Hlook & _ & Hnl & Hitems & _).
  { by rewrite Hc. }
  rewrite Hc in Hlook. fold upb rows in Hlook. cbv zeta in Hnl, Hitems.
  destruct (lookup_sampled w0 w1 w tpu tpi
              (concat (replicate (Z.to_nat N) <$> rows))
              Htpu Htpi Hcons Hs Hrand)
    as (sampled' & Hlook' & Hneg).
  { apply Forall_forall. intros v Hv. rewrite Forall_forall in Hvalid.
    apply Hvalid. apply elem_of_concat_inv in Hv as (row & Hv & Hrow).
    apply list_elem_of_fmap in Hrow as (v' & -> & Hv').
    by apply elem_of_replicate in Hv as [-> _]. }
  simpl in Hlook. rewrite Hlook' in Hlook. simpl in Hlook.
  injection Hlook as ->.
  exists (take (Z.to_nat N) (drop (r * Z.to_nat N) sampled)).
  split. { unfold W. rewrite Hitems. apply swap_ends_Permutation. }
  split; [done|].
  exact (Forall2_replicate_rows
           (λ u x, (0 ≤ x < ni)%Z ∧ x ∉ user_slice ib tpi (Z.to_nat u))
           (Z.to_nat N) rows sampled r u Hneg Hu).
Qed.

Lemma eval_row_negatives_avoid_slice_witness :
  let ib := index_bounds 2 [0; 0; 1]%Z in
  let W := Z.to_nat (1 + 2) in
  ∃ negatives,
    take W (drop (1 * W) [2; 2; 2; 2; 2; 1]%Z) ≡ₚ 1%Z :: negatives
    ∧ length negatives = Z.to_nat 2
    ∧ Forall (λ y, (0 ≤ y < 3)%Z
                   ∧ y ∉ user_slice ib [0; 1; 2]%Z (Z.to_nat 1))
             negatives.
Proof.
  apply (eval_row_negatives_avoid_slice 2 0 small_world small_ready
           small_ready
           (world_after
              (_get_eval_batch 2 (H := MaterializedDataConstructor) 0
                               small_ready))
           [0; 0; 1]%Z [0; 1; 2]%Z [0; 1]%Z [2; 1]%Z
           [0; 0; 0; 1; 1; 1]%Z [2; 2; 2; 2; 2; 1]%Z [1; 1; 0; 1; 0; 0]%Z
           1 1%Z 1%Z);
    [ reflexivity | reflexivity | reflexivity | reflexivity | reflexivity
    | repeat split; try reflexivity; intros l a Hl; exact Hl
    | intros n i k Hk; simpl; unfold last_index; lia
    | apply (bool_decide_unpack _); vm_compute; exact I
    | reflexivity | reflexivity | reflexivity ].
Defined.

(** ** Arrays fetched by [run] and arrays ordered by the constructor *)

Lemma init_orders_permutations
    (N : Z) (h : list ndarray) (perms : nat → list Z)
    (rand : nat → nat → Z → Z) (max_epochs num_users num_items : Z)
    (tpu tpi : loc) (tbs bpts ntn : Z) (epu epi : loc) (ebs bpes : Z)
    (effects : list effect) (w : World) :
  __init__ N h perms rand max_epochs num_users num_items tpu tpi
           tbs bpts ntn epu epi ebs bpes = (effects, Ok w) →
  let c := conf (self w) in
  PermuterCreated (_elements_in_epoch c) (max_epochs + 1) ∈ effects
  ∧ _maximum_number_epochs c = max_epochs
  ∧ _count_batches (_elements_in_epoch c) tbs bpts
    = Ok (_train_batches_per_epoch c).
Proof.
  unfold __init__.
  destruct (h !! tpu) as [[users|]|]; try done.
  destruct (h !! tpi) as [[items|]|]; try done.
  case_bool_decide; [|done].
  destruct (_count_batches _ tbs bpts) as [tb|] eqn:Htb; [|done].
  destruct (pymod ebs (1 + N)); [|done].
  case_bool_decide; [done|].
  destruct (_count_batches _ ebs bpes); [|done].
  intros [= <- <-]. simpl. split; [|done].
  apply elem_of_cons. by left.
Qed.

(** X22: the constructor creates the producer for
    [maximum_number_epochs + 1] arrays of [_elements_in_epoch] indices.  A
    [run] that returns, for [maximum_number_epochs >= 1] and
    [1 <= train_batch_size <= _elements_in_epoch], has fetched at least
    that many arrays, and no more than that exactly when
    [maximum_number_epochs] times the surplus of an epoch's batches over
    an epoch, [_train_batches_per_epoch * train_batch_size -
    _elements_in_epoch], is less than [_elements_in_epoch]. *)
Theorem run_fetches_versus_order
    (N : Z) (h : list ndarray) (perms : nat → list Z)
    (rand : nat → nat → Z → Z) (max_epochs num_users num_items : Z)
    (tpu tpi : loc) (tbs bpts ntn : Z) (epu epi : loc) (ebs bpes : Z)
    (effects : list effect) (w w' : World) :
  let c := conf (self w) in
  let E := _elements_in_epoch c in
  let n := _train_batches_per_epoch c in
  let taken := perm_taken (_shuffle_producer (self w')) in
  __init__ N h perms rand max_epochs num_users num_items tpu tpi
           tbs bpts ntn epu epi ebs bpes = (effects, Ok w) →
  (1 ≤ max_epochs)%Z →
  (0 < tbs ≤ E)%Z →
  (0 < bpts)%Z →
  (∀ k, length (perms k) = Z.to_nat E) →
  run N (H := MaterializedDataConstructor) w = (Ok (), w') →
  PermuterCreated E (max_epochs + 1) ∈ effects
  ∧ (E ≤ n * tbs)%Z
  ∧ (1 + max_epochs ≤ Z.of_nat taken)%Z
  ∧ ((Z.of_nat taken ≤ max_epochs + 1)%Z
     ↔ (max_epochs * (n * tbs - E) < E)%Z).
Proof.
  intros c E n taken Hinit Hmax Htbs Hbpts Hperms Hrun.
  destruct (init_orders_permutations _ _ _ _ _ _ _ _ _ _ _ _ _ _ _ _ _ _
              Hinit) as (Heff & Hm & Hcount).
  pose proof (init_fresh_object N h perms rand max_epochs num_users
                num_items tpu tpi tbs bpts ntn epu epi ebs bpes w
                ltac:(by rewrite Hinit))
    as (Ho & Hk & Hps & Hb & _).
  fold c E n in Heff, Hm, Hcount, Hb.
  destruct (count_batches_spec E tbs bpts ltac:(lia) Hbpts)
    as (n' & Hn' & _ & Hcover & _).
  rewrite Hcount in Hn'. injection Hn' as <-.
  assert (0 < n)%Z as Hn by nia.
  destruct (run_inv N w w' (Z.to_nat E) (Z.to_nat tbs) Ho Hk)
    as (new & results & _ & _ & _ & _ & _ & _ & _ & _ & _ & Htaken);
    [fold c; lia | lia | by rewrite Hps | done |].
  fold c n in Htaken. rewrite Hm in Htaken.
  specialize (Htaken ltac:(lia)). fold taken in Htaken.
  split; [done|]. split; [done|].
  set (a := S (Z.to_nat (max_epochs - 1)) * Z.to_nat n * Z.to_nat tbs)
    in Htaken.
  assert (Z.of_nat a = max_epochs * n * tbs)%Z as Ha by (unfold a; nia).
  assert (0 < Z.to_nat E) as HE by lia.
  pose proof (Nat.div_mod_eq a (Z.to_nat E)) as Hdm.
  pose proof (Nat.mod_upper_bound a (Z.to_nat E) ltac:(lia)) as Hmod.
  set (q := a / Z.to_nat E) in *. set (m := a `mod` Z.to_nat E) in *.
  assert (Z.of_nat a = E * Z.of_nat q + Z.of_nat m)%Z as Hz by nia.
  rewrite Htaken. split; [nia|]. split; intros Hle; nia.
Qed.

Lemma run_fetches_versus_order_witness :
  let r := __init__ 2 small_store small_perms last_index
                    3 2 3 0 1 4 1 1 2 3 6 1 in
  let w' := world_after
              (run 2 (H := MaterializedDataConstructor) small_world) in
  let taken := perm_taken (_shuffle_producer (self w')) in
  PermuterCreated 6 (3 + 1) ∈ r.1
  ∧ (6 ≤ 2 * 4)%Z
  ∧ (1 + 3 ≤ Z.of_nat taken)%Z
  ∧ ((Z.of_nat taken ≤ 3 + 1)%Z ↔ (3 * (2 * 4 - 6) < 6)%Z).
Proof.
  apply (run_fetches_versus_order 2 small_store small_perms last_index
           3 2 3 0 1 4 1 1 2 3 6 1
           (__init__ 2 small_store small_perms last_index
                     3 2 3 0 1 4 1 1 2 3 6 1).1
           small_world
           (world_after
              (run 2 (H := MaterializedDataConstructor) small_world)));
    [ reflexivity | lia | vm_compute; split; [reflexivity|discriminate]
    | lia
    | intros k; simpl; unfold small_perms; destruct (Nat.even k); reflexivity
    | vm_compute; reflexivity ].
Defined.
